(** * monon: currency-aware money arithmetic

    A shallow embedding of [monon/currency.py] and [monon/money.py],
    together with the part of Python's [decimal] module (default context)
    that the two files call, and the properties of the library proved on
    that embedding. *)

From Stdlib Require Import ZArith NArith Lia List Bool Ascii String.
From stdpp Require Import base list.

Local Open Scope Z_scope.

(** ** Python's [decimal] module, default context *)

Module PyDecimal.

(** A [Decimal] is a sign, a coefficient and an exponent, or one of the
    special values.  The coefficient is the number Python keeps as the digit
    string [_int]; a NaN carries its diagnostic digits ([0] for none). *)
Inductive Decimal : Type :=
| Finite (sign : bool) (coeff : N) (exp : Z)
| Infinity (sign : bool)
| NaN (sign : bool) (signaling : bool) (diag : N).

Inductive Rounding : Type :=
| ROUND_DOWN | ROUND_HALF_UP | ROUND_HALF_EVEN | ROUND_CEILING
| ROUND_FLOOR | ROUND_UP | ROUND_HALF_DOWN | ROUND_05UP.

(** The signals the default context traps: each is raised as an exception. *)
Inductive Signal : Type :=
| InvalidOperation | DivisionByZero | Overflow.

(** [getcontext()] of a fresh interpreter:
    [Context(prec=28, rounding=ROUND_HALF_EVEN, Emin=-999999, Emax=999999,
    clamp=0, traps=[InvalidOperation, DivisionByZero, Overflow])]. *)
Definition prec : Z := 28.
Definition Emax : Z := 999999.
Definition Emin : Z := -999999.
Definition Etiny : Z := Emin - prec + 1.
Definition Etop : Z := Emax - prec + 1.
Definition context_rounding : Rounding := ROUND_HALF_EVEN.

(** *** Digit strings *)

Definition digit_char (d : N) : ascii := ascii_of_N (48 + d).

Fixpoint digits_fuel (fuel : nat) (n : N) (acc : list ascii) : list ascii :=
  match fuel with
  | O => acc
  | S fuel' =>
      if (n <? 10)%N then digit_char n :: acc
      else digits_fuel fuel' (n / 10)%N (digit_char (n mod 10)%N :: acc)
  end.

(** [str(n)] for a natural number [n], as a list of characters. *)
Definition digits (n : N) : list ascii :=
  digits_fuel (S (N.to_nat (N.log2 n))) n [].

(** [len(self._int)] *)
Definition ndigits (n : N) : Z := Z.of_nat (length (digits n)).

(** [10 ** k] for an [int] [k], and [1] for a negative one, the way
    ['0' * k] is empty for a negative [k]. *)
Definition pow10 (k : Z) : N := (10 ^ Z.to_N k)%N.

Definition is_digit (c : ascii) : bool :=
  let n := N_of_ascii c in ((48 <=? n) && (n <=? 57))%N.

Definition digit_val (c : ascii) : N := (N_of_ascii c - 48)%N.

(** [int(s)] for a string of digits ([0] for the empty one). *)
Definition N_of_digits (s : list ascii) : N :=
  fold_left (fun acc c => (10 * acc + digit_val c)%N) s 0%N.

(** *** Rounding

    Python's rounding functions take the digit string and the number [prec]
    of leading digits to keep, and look at the digits after them.  Here they
    take the coefficient [c] and the number [k >= 1] of trailing digits
    dropped: the kept digits are [c / 10^k], the dropped ones [c mod 10^k].
    The result is [1] when the kept digits are to be incremented, [0] when
    the dropped digits are all zero, [-1] otherwise. *)

Definition _round_down (c : N) (k : Z) : Z :=
  if (c mod pow10 k =? 0)%N then 0 else -1.

Definition _round_up (c : N) (k : Z) : Z := - _round_down c k.

Definition _round_half_up (c : N) (k : Z) : Z :=
  if (pow10 k <=? 2 * (c mod pow10 k))%N then 1
  else if (c mod pow10 k =? 0)%N then 0
  else -1.

Definition _exact_half (c : N) (k : Z) : bool :=
  (2 * (c mod pow10 k) =? pow10 k)%N.

Definition _round_half_down (c : N) (k : Z) : Z :=
  if _exact_half c k then -1 else _round_half_up c k.

Definition _round_half_even (c : N) (k : Z) : Z :=
  if _exact_half c k && N.even (c / pow10 k) then -1
  else _round_half_up c k.

Definition _round_ceiling (sign : bool) (c : N) (k : Z) : Z :=
  if sign then _round_down c k else - _round_down c k.

Definition _round_floor (sign : bool) (c : N) (k : Z) : Z :=
  if negb sign then _round_down c k else - _round_down c k.

Definition _round_05up (c : N) (k : Z) : Z :=
  let last := ((c / pow10 k) mod 10)%N in
  if negb (last =? 0)%N && negb (last =? 5)%N then _round_down c k
  else - _round_down c k.

Definition _pick_rounding_function
    (rounding : Rounding) (sign : bool) (c : N) (k : Z) : Z :=
  match rounding with
  | ROUND_DOWN => _round_down c k
  | ROUND_UP => _round_up c k
  | ROUND_HALF_UP => _round_half_up c k
  | ROUND_HALF_DOWN => _round_half_down c k
  | ROUND_HALF_EVEN => _round_half_even c k
  | ROUND_CEILING => _round_ceiling sign c k
  | ROUND_FLOOR => _round_floor sign c k
  | ROUND_05UP => _round_05up c k
  end.

(** [Decimal._rescale(exp, rounding)] *)
Definition _rescale (self : Decimal) (exp : Z) (rounding : Rounding) : Decimal :=
  match self with
  | Finite sign c e =>
      if (c =? 0)%N then Finite sign 0 exp
      else if exp <=? e then Finite sign (c * pow10 (e - exp)) exp
      else
        let digits := ndigits c + e - exp in
        let c' := if digits <? 0 then 1%N else c in
        let k := if digits <? 0 then 1 else exp - e in
        let changed := _pick_rounding_function rounding sign c' k in
        let coeff := (c' / pow10 k)%N in
        Finite sign (if changed =? 1 then (coeff + 1)%N else coeff) exp
  | _ => self
  end.

(** [Decimal._fix_nan(context)]: a diagnostic longer than the precision
    keeps its last [prec] digits. *)
Definition _fix_nan (self : Decimal) : Decimal :=
  match self with
  | NaN sign signaling diag =>
      if prec <? ndigits diag
      then NaN sign signaling (diag mod pow10 prec)
      else self
  | _ => self
  end.

(** [Decimal._fix(context)]: round to the context's precision and check the
    exponent range. *)
Definition _fix (self : Decimal) : Signal + Decimal :=
  match self with
  | NaN _ _ _ => inr (_fix_nan self)
  | Infinity _ => inr self
  | Finite sign c e =>
      if (c =? 0)%N then
        inr (Finite sign 0 (Z.min (Z.max e Etiny) Emax))
      else
        let exp_min := ndigits c + e - prec in
        if Etop <? exp_min then inl Overflow
        else
          let exp_min := if exp_min <? Etiny then Etiny else exp_min in
          if e <? exp_min then
            let digits := ndigits c + e - exp_min in
            let c' := if digits <? 0 then 1%N else c in
            let k := if digits <? 0 then 1 else exp_min - e in
            let changed := _pick_rounding_function context_rounding sign c' k in
            let coeff := (c' / pow10 k)%N in
            let coeff1 := if 0 <? changed then (coeff + 1)%N else coeff in
            let carried := (0 <? changed) && (prec <? ndigits coeff1) in
            let coeff2 := if carried then (coeff1 / 10)%N else coeff1 in
            let exp_min := if carried then exp_min + 1 else exp_min in
            if Etop <? exp_min then inl Overflow
            else inr (Finite sign coeff2 exp_min)
          else inr self
  end.

(** [Decimal._check_nans(other, context)]: [None] stands for the [0]
    Python returns when neither operand is a NaN. *)
Definition _check_nans (self other : Decimal) : option (Signal + Decimal) :=
  match self, other with
  | NaN _ true _, _ => Some (inl InvalidOperation)
  | _, NaN _ true _ => Some (inl InvalidOperation)
  | NaN _ false _, _ => Some (inr (_fix_nan self))
  | _, NaN _ false _ => Some (inr (_fix_nan other))
  | _, _ => None
  end.

(** [Decimal.adjusted()] of a finite value *)
Definition adjusted (c : N) (e : Z) : Z := e + ndigits c - 1.

(** [Decimal.quantize(exp, rounding=rounding)] *)
Definition quantize (self exp : Decimal) (rounding : Rounding) : Signal + Decimal :=
  match _check_nans self exp with
  | Some ans => ans
  | None =>
      match self, exp with
      | Infinity _, Infinity _ => inr self
      | Infinity _, _ | _, Infinity _ => inl InvalidOperation
      | Finite sign c e, Finite _ _ exp_exp =>
          if negb ((Etiny <=? exp_exp) && (exp_exp <=? Emax)) then
            inl InvalidOperation
          else if (c =? 0)%N then _fix (Finite sign 0 exp_exp)
          else if Emax <? adjusted c e then inl InvalidOperation
          else if prec <? adjusted c e - exp_exp + 1 then inl InvalidOperation
          else
            match _rescale self exp_exp rounding with
            | Finite sign' c' e' =>
                if Emax <? adjusted c' e' then inl InvalidOperation
                else if prec <? ndigits c' then inl InvalidOperation
                else _fix (Finite sign' c' e')
            | ans => inr ans
            end
      | _, _ => inr self
      end
  end.

(** [_normalize(op1, op2, prec)]: bring two working values to one exponent.
    [tmp] is the operand with the larger exponent; an [other] too small to
    matter after rounding is replaced by [1] at an exponent just below what
    the precision keeps. *)
Definition _normalize_tmp (tmp other : N * Z) : (N * Z) * (N * Z) :=
  let '(tmp_int, tmp_exp) := tmp in
  let '(other_int, other_exp) := other in
  let exp := tmp_exp + Z.min (-1) (ndigits tmp_int - prec - 2) in
  let '(other_int, other_exp) :=
    if ndigits other_int + other_exp - 1 <? exp then (1%N, exp)
    else (other_int, other_exp) in
  ((tmp_int * pow10 (tmp_exp - other_exp))%N, other_exp, (other_int, other_exp)).

Definition _normalize (op1 op2 : N * Z) : (N * Z) * (N * Z) :=
  if snd op1 <? snd op2
  then let '(tmp, other) := _normalize_tmp op2 op1 in (other, tmp)
  else _normalize_tmp op1 op2.

(** [Decimal.__add__] *)
Definition add (self other : Decimal) : Signal + Decimal :=
  match _check_nans self other with
  | Some ans => ans
  | None =>
      match self, other with
      | Infinity s1, Infinity s2 =>
          if negb (eqb s1 s2) then inl InvalidOperation else inr self
      | Infinity _, _ => inr self
      | _, Infinity _ => inr other
      | Finite s1 c1 e1, Finite s2 c2 e2 =>
          let exp := Z.min e1 e2 in
          (* [negativezero] is set under ROUND_FLOOR only *)
          if (c1 =? 0)%N && (c2 =? 0)%N then
            _fix (Finite (s1 && s2) 0 exp)
          else if (c1 =? 0)%N then
            _fix (_rescale other (Z.max exp (e2 - prec - 1)) context_rounding)
          else if (c2 =? 0)%N then
            _fix (_rescale self (Z.max exp (e1 - prec - 1)) context_rounding)
          else
            let '(op1_int, op1_exp, (op2_int, _)) := _normalize (c1, e1) (c2, e2) in
            if negb (eqb s1 s2) then
              if (op1_int =? op2_int)%N then _fix (Finite false 0 exp)
              else if (op1_int <? op2_int)%N
              then _fix (Finite s2 (op2_int - op1_int) op1_exp)
              else _fix (Finite s1 (op1_int - op2_int) op1_exp)
            else _fix (Finite s1 (op1_int + op2_int) op1_exp)
      | _, _ => inr self
      end
  end.

(** [Decimal.copy_negate()] *)
Definition copy_negate (self : Decimal) : Decimal :=
  match self with
  | Finite s c e => Finite (negb s) c e
  | Infinity s => Infinity (negb s)
  | NaN s sig d => NaN (negb s) sig d
  end.

(** [Decimal.copy_abs()] *)
Definition copy_abs (self : Decimal) : Decimal :=
  match self with
  | Finite _ c e => Finite false c e
  | Infinity _ => Infinity false
  | NaN _ sig d => NaN false sig d
  end.

(** [Decimal.__sub__] *)
Definition sub (self other : Decimal) : Signal + Decimal :=
  match _check_nans self other with
  | Some ans => ans
  | None => add self (copy_negate other)
  end.

(** [Decimal.__mul__] *)
Definition mul (self other : Decimal) : Signal + Decimal :=
  match _check_nans self other with
  | Some ans => ans
  | None =>
      match self, other with
      | Infinity s1, Finite s2 c2 _ =>
          if (c2 =? 0)%N then inl InvalidOperation else inr (Infinity (xorb s1 s2))
      | Finite s1 c1 _, Infinity s2 =>
          if (c1 =? 0)%N then inl InvalidOperation else inr (Infinity (xorb s1 s2))
      | Infinity s1, Infinity s2 => inr (Infinity (xorb s1 s2))
      | Finite s1 c1 e1, Finite s2 c2 e2 =>
          _fix (Finite (xorb s1 s2) (c1 * c2) (e1 + e2))
      | _, _ => inr self
      end
  end.

(** The loop of [__truediv__] that strips trailing zeros of an exact
    quotient while the exponent is below the ideal one. *)
Fixpoint strip_zeros (fuel : nat) (coeff : N) (exp ideal_exp : Z) : N * Z :=
  match fuel with
  | O => (coeff, exp)
  | S fuel' =>
      if (exp <? ideal_exp) && (coeff mod 10 =? 0)%N
      then strip_zeros fuel' (coeff / 10)%N (exp + 1) ideal_exp
      else (coeff, exp)
  end.

(** [Decimal.__truediv__] *)
Definition truediv (self other : Decimal) : Signal + Decimal :=
  match _check_nans self other with
  | Some ans => ans
  | None =>
      match self, other with
      | Infinity _, Infinity _ => inl InvalidOperation
      | Infinity s1, Finite s2 _ _ => inr (Infinity (xorb s1 s2))
      | Finite s1 _ _, Infinity s2 => inr (Finite (xorb s1 s2) 0 Etiny)
      | Finite s1 c1 e1, Finite s2 c2 e2 =>
          let sign := xorb s1 s2 in
          if (c2 =? 0)%N then
            if (c1 =? 0)%N then inl InvalidOperation (* DivisionUndefined *)
            else inl DivisionByZero
          else if (c1 =? 0)%N then _fix (Finite sign 0 (e1 - e2))
          else
            let shift := ndigits c2 - ndigits c1 + prec + 1 in
            let exp := e1 - e2 - shift in
            let num := if 0 <=? shift then (c1 * pow10 shift)%N else c1 in
            let den := if 0 <=? shift then c2 else (c2 * pow10 (- shift))%N in
            let coeff := (num / den)%N in
            let remainder := (num mod den)%N in
            if negb (remainder =? 0)%N then
              _fix (Finite sign (if (coeff mod 5 =? 0)%N then (coeff + 1)%N else coeff) exp)
            else
              let '(coeff, exp) :=
                strip_zeros (Z.to_nat (e1 - e2 - exp)) coeff exp (e1 - e2) in
              _fix (Finite sign coeff exp)
      | _, _ => inr self
      end
  end.

(** [Decimal._cmp(other)] for values that are not NaN: [-1], [0] or [1]. *)
Definition _isinfinity (d : Decimal) : Z :=
  match d with
  | Infinity true => -1
  | Infinity false => 1
  | _ => 0
  end.

Definition sign_factor (sign : bool) : Z := if sign then -1 else 1.

Definition _cmp (self other : Decimal) : Z :=
  match self, other with
  | Finite s1 c1 e1, Finite s2 c2 e2 =>
      if (c1 =? 0)%N then
        if (c2 =? 0)%N then 0 else - sign_factor s2
      else if (c2 =? 0)%N then sign_factor s1
      else if negb s2 && s1 then -1
      else if negb s1 && s2 then 1
      else
        let self_adjusted := adjusted c1 e1 in
        let other_adjusted := adjusted c2 e2 in
        if self_adjusted =? other_adjusted then
          let self_padded := (c1 * pow10 (e1 - e2))%N in
          let other_padded := (c2 * pow10 (e2 - e1))%N in
          if (self_padded =? other_padded)%N then 0
          else if (self_padded <? other_padded)%N then - sign_factor s1
          else sign_factor s1
        else if other_adjusted <? self_adjusted then sign_factor s1
        else - sign_factor s1
  | _, _ =>
      let self_inf := _isinfinity self in
      let other_inf := _isinfinity other in
      if self_inf =? other_inf then 0
      else if self_inf <? other_inf then -1
      else 1
  end.

Definition is_nan (d : Decimal) : bool :=
  match d with NaN _ _ _ => true | _ => false end.

Definition is_snan (d : Decimal) : bool :=
  match d with NaN _ true _ => true | _ => false end.

(** [Decimal.__eq__]: a signaling NaN raises, a quiet NaN equals nothing. *)
Definition eq (self other : Decimal) : Signal + bool :=
  if is_snan self || is_snan other then inl InvalidOperation
  else if is_nan self || is_nan other then inr false
  else inr (_cmp self other =? 0).

(** [Decimal.__lt__]: an ordering comparison raises on any NaN. *)
Definition lt (self other : Decimal) : Signal + bool :=
  if is_nan self || is_nan other then inl InvalidOperation
  else inr (_cmp self other <? 0).

(** [Decimal.__abs__] *)
Definition abs (self : Decimal) : Signal + Decimal :=
  match self with
  | NaN _ true _ => inl InvalidOperation
  | NaN _ false _ => inr (_fix_nan self)
  | _ => _fix (copy_abs self)
  end.

(** [Decimal(n)] for an [int] [n] *)
Definition of_int (n : Z) : Decimal := Finite (n <? 0) (Z.abs_N n) 0.

(** [Decimal(10) ** -places] for an [int] [places].  A non-negative
    [places] gives [1E-places], which underflows to zero at [Etiny] below
    it; a negative one gives the power of ten padded with zeros up to the
    precision, and overflows above [Emax]. *)
Definition pow10_neg (places : Z) : Signal + Decimal :=
  if 0 <=? places then
    if - places <? Etiny then inr (Finite false 0 Etiny)
    else inr (Finite false 1 (- places))
  else if Emax <? - places then inl Overflow
  else if - places <? prec then inr (Finite false (pow10 (- places)) 0)
  else inr (Finite false (pow10 (prec - 1)) (- places - (prec - 1))).


(** *** Strings *)

Definition is_space (c : ascii) : bool :=
  let n := N_of_ascii c in
  ((9 <=? n) && (n <=? 13) || (28 <=? n) && (n <=? 32))%N.

Fixpoint lstrip (s : list ascii) : list ascii :=
  match s with
  | c :: s' => if is_space c then lstrip s' else s
  | [] => []
  end.

(** [s.strip()] *)
Definition strip (s : list ascii) : list ascii :=
  rev (lstrip (rev (lstrip s))).

Definition is_underscore (c : ascii) : bool := (N_of_ascii c =? 95)%N.

(** [c.lower()] on an ASCII letter *)
Definition lower (c : ascii) : ascii :=
  let n := N_of_ascii c in
  if ((65 <=? n) && (n <=? 90))%N then ascii_of_N (n + 32) else c.

(** [c.upper()] on an ASCII letter *)
Definition upper (c : ascii) : ascii :=
  let n := N_of_ascii c in
  if ((97 <=? n) && (n <=? 122))%N then ascii_of_N (n - 32) else c.

(** The longest prefix of digits, and the rest. *)
Fixpoint span_digits (s : list ascii) : list ascii * list ascii :=
  match s with
  | c :: s' =>
      if is_digit c
      then let '(ds, rest) := span_digits s' in (c :: ds, rest)
      else ([], s)
  | [] => ([], [])
  end.

(** An optional sign: [true] for ['-']. *)
Definition take_sign (s : list ascii) : bool * list ascii :=
  match s with
  | "-"%char :: s' => (true, s')
  | "+"%char :: s' => (false, s')
  | _ => (false, s)
  end.

Definition chars (s : string) : list ascii := list_ascii_of_string s.

Definition chars_eqb (a b : list ascii) : bool :=
  String.eqb (string_of_list_ascii a) (string_of_list_ascii b).

(** The exponent part [E[-+]?\d+] up to the end of the string; an absent
    one counts as [0]. *)
Definition parse_exponent (s : list ascii) : option Z :=
  match s with
  | [] => Some 0
  | c :: s' =>
      if Ascii.eqb (lower c) "e" then
        let '(neg, s'') := take_sign s' in
        match span_digits s'' with
        | ((_ :: _) as ds, []) =>
            let n := Z.of_N (N_of_digits ds) in
            Some (if neg then - n else n)
        | _ => None
        end
      else None
  end.

(** The number alternative of the pattern: digits with an optional
    fraction, at least one digit in all, and an optional exponent. *)
Definition parse_number (sign : bool) (s : list ascii) : option Decimal :=
  let '(intpart, rest) := span_digits s in
  let '(fracpart, rest) :=
    match rest with
    | "."%char :: rest' => span_digits rest'
    | _ => ([], rest)
    end in
  match intpart ++ fracpart with
  | [] => None
  | ds =>
      match parse_exponent rest with
      | Some exp =>
          Some (Finite sign (N_of_digits ds) (exp - Z.of_nat (length fracpart)))
      | None => None
      end
  end.

(** The special alternatives: [Inf(inity)?] and [s?NaN\d*], in any case. *)
Definition parse_special (sign : bool) (s : list ascii) : option Decimal :=
  let l := map lower s in
  if chars_eqb l (chars "inf") || chars_eqb l (chars "infinity")
  then Some (Infinity sign)
  else
    let '(signaling, l') :=
      match l with
      | "s"%char :: l' => (true, l')
      | _ => (false, l)
      end in
    match l' with
    | "n"%char :: "a"%char :: "n"%char :: diag =>
        match span_digits diag with
        | (ds, []) => Some (NaN sign signaling (N_of_digits ds))
        | _ => None
        end
    | _ => None
    end.

(** [Decimal(s)] for a [str] [s]; [None] is the [InvalidOperation]
    (conversion syntax) Python raises. *)
Definition of_chars (s : list ascii) : option Decimal :=
  let s := List.filter (fun c => negb (is_underscore c)) (strip s) in
  let '(sign, rest) := take_sign s in
  match parse_number sign rest with
  | Some d => Some d
  | None => parse_special sign rest
  end.

Definition of_string (s : string) : option Decimal := of_chars (chars s).

Definition sign_chars (sign : bool) : list ascii :=
  if sign then ["-"%char] else [].

Definition zeros (n : Z) : list ascii := repeat "0"%char (Z.to_nat n).

(** ["%+d" % n] *)
Definition signed_int_chars (n : Z) : list ascii :=
  (if n <? 0 then "-"%char else "+"%char) :: digits (Z.abs_N n).

(** [str(n)] for an [int] [n] *)
Definition int_chars (n : Z) : list ascii :=
  sign_chars (n <? 0) ++ digits (Z.abs_N n).

Definition diag_chars (diag : N) : list ascii :=
  if (diag =? 0)%N then [] else digits diag.

(** [Decimal.__str__]: the scientific string of a value. *)
Definition to_chars (d : Decimal) : list ascii :=
  match d with
  | Infinity sign => sign_chars sign ++ chars "Infinity"
  | NaN sign false diag => sign_chars sign ++ chars "NaN" ++ diag_chars diag
  | NaN sign true diag => sign_chars sign ++ chars "sNaN" ++ diag_chars diag
  | Finite sign c e =>
      let _int := digits c in
      let leftdigits := e + ndigits c in
      let dotplace :=
        if (e <=? 0) && (-6 <? leftdigits) then leftdigits else 1 in
      let intpart :=
        if dotplace <=? 0 then ["0"%char]
        else if ndigits c <=? dotplace then _int ++ zeros (dotplace - ndigits c)
        else firstn (Z.to_nat dotplace) _int in
      let fracpart :=
        if dotplace <=? 0 then "."%char :: zeros (- dotplace) ++ _int
        else if ndigits c <=? dotplace then []
        else "."%char :: skipn (Z.to_nat dotplace) _int in
      let exp :=
        if leftdigits =? dotplace then []
        else "E"%char :: signed_int_chars (leftdigits - dotplace) in
      sign_chars sign ++ intpart ++ fracpart ++ exp
  end.

Definition to_string (d : Decimal) : string := string_of_list_ascii (to_chars d).

(** A character that [strip] and the removal of underscores leave alone. *)
Definition plain (c : ascii) : Prop :=
  is_space c = false /\ is_underscore c = false.

(** The exponent part [to_chars] writes: none, or [E] and a signed
    number. *)
Definition exponent_part (ex : list ascii) (e : Z) : Prop :=
  (ex = [] /\ e = 0) \/ ex = "E"%char :: signed_int_chars e.

End PyDecimal.

(** ** [monon/currency.py] *)

Module Monon.
Import PyDecimal.

(** [CurrenciesProvider]: the abstract class, as the record of its methods.
    A provider is taken to be a pure function of the currency code;
    [validate_currency] answers [false] where the method raises
    [InvalidCurrency], and [format_amount] may raise what the decimal
    operations it calls raise. *)
Record CurrenciesProvider : Type := {
  get_decimal_places : string -> Z;
  get_symbol : string -> string;
  validate_currency : string -> bool;
  format_amount : string -> Decimal -> Signal + string;
  get_rounding : string -> Rounding
}.

(** [CurrenciesProvider.get_rounding], inherited by providers that do not
    override it. *)
Definition CurrenciesProvider_get_rounding (isocode : string) : Rounding :=
  ROUND_UP.

Definition DefaultCurrenciesProvider_get_decimal_places (isocode : string) : Z := 2.

Definition DefaultCurrenciesProvider_get_symbol (isocode : string) : string := "$".

Definition DefaultCurrenciesProvider_validate_currency (isocode : string) : bool :=
  true.

Definition DefaultCurrenciesProvider_format_amount
    (isocode : string) (amount : Decimal) : Signal + string :=
  match lt amount (of_int 0) with
  | inl s => inl s
  | inr negative =>
      let sign := if negative then "-"%string else ""%string in
      match abs amount with
      | inl s => inl s
      | inr amount =>
          inr (sign ++ DefaultCurrenciesProvider_get_symbol isocode
                    ++ to_string amount)%string
      end
  end.

Definition DefaultCurrenciesProvider : CurrenciesProvider := {|
  get_decimal_places := DefaultCurrenciesProvider_get_decimal_places;
  get_symbol := DefaultCurrenciesProvider_get_symbol;
  validate_currency := DefaultCurrenciesProvider_validate_currency;
  format_amount := DefaultCurrenciesProvider_format_amount;
  get_rounding := CurrenciesProvider_get_rounding
|}.

Record Currency : Type := {
  isocode : string;
  _provider : CurrenciesProvider
}.

(** What a caller may pass where a currency is expected. *)
Inductive CurrencyArg : Type :=
| ACurrency (c : Currency)
| AStr (s : string)
| AObject.

(** A reference to a [Money] object of the heap. *)
Definition ref : Type := nat.

(** What a caller may pass as an amount or as an operand: an [int], a
    [Decimal], another [numbers.Number] (a [float], a [bool], a [Fraction],
    a complex) known by the text [str()] gives for it, a [str], a [Money],
    or any other object, known by the text [str()] gives for it. *)
Inductive PyValue : Type :=
| VInt (n : Z)
| VDecimal (d : Decimal)
| VNumber (text : string)
| VStr (s : string)
| VMoney (m : ref)
| VObject (text : string).

(** The exceptions of [monon/exceptions.py] and those the interpreter
    raises under them.  [Stuck] is no exception: it marks a reference to an
    object the heap does not have, which Python never holds. *)
Inductive Exception : Type :=
| InvalidCurrency (isocode : CurrencyArg)
| InvalidAmount (amount : PyValue)
| InvalidOperand (other : PyValue)
| CurrencyMismatch (self_currency other_currency : Currency)
| DecimalException (s : Signal)
| AttributeError
| Stuck.

(** [InvalidOperand] and [CurrencyMismatch] derive from
    [InvalidMoneyOperation]. *)
Definition is_InvalidMoneyOperation (e : Exception) : bool :=
  match e with
  | InvalidOperand _ | CurrencyMismatch _ _ => true
  | _ => false
  end.

(** [decimal.DecimalException] derives from [ArithmeticError]. *)
Definition is_ArithmeticError (e : Exception) : bool :=
  match e with
  | DecimalException _ => true
  | _ => false
  end.

Definition lift_signal {A : Type} (r : Signal + A) : Exception + A :=
  match r with
  | inl s => inl (DecimalException s)
  | inr a => inr a
  end.

(** [Currency.clean_isocode]; [len] and [upper] are those of ASCII text. *)
Definition clean_isocode (isocode : CurrencyArg) : Exception + string :=
  match isocode with
  | AStr s =>
      if negb (String.length s =? 3)%nat then inl (InvalidCurrency isocode)
      else inr (string_of_list_ascii (map upper (chars s)))
  | _ => inl (InvalidCurrency isocode)
  end.

(** [Currency.__init__]; [default_provider] is the class attribute
    [Currency._default_provider] at the time of the call. *)
Definition Currency_init (default_provider : CurrenciesProvider)
    (isocode : CurrencyArg) (provider : option CurrenciesProvider)
    : Exception + Currency :=
  let provider :=
    match provider with
    | Some p => p
    | None => default_provider
    end in
  match clean_isocode isocode with
  | inl e => inl e
  | inr cleaned_isocode =>
      if validate_currency provider cleaned_isocode
      then inr {| isocode := cleaned_isocode; _provider := provider |}
      else inl (InvalidCurrency (AStr cleaned_isocode))
  end.

(** [Currency.__eq__]: the codes alone are compared. *)
Definition Currency_eq (self other : Currency) : bool :=
  String.eqb (isocode self) (isocode other).

(** [Currency._get_quantizer] *)
Definition _get_quantizer (self : Currency) : Signal + Decimal :=
  let decimal_places := get_decimal_places (_provider self) (isocode self) in
  pow10_neg decimal_places.

(** [Currency.quantize_amount] *)
Definition quantize_amount (self : Currency) (amount : Decimal)
    (force_rounding : option Rounding) : Signal + Decimal :=
  let rounding :=
    match force_rounding with
    | Some r => r
    | None => get_rounding (_provider self) (isocode self)
    end in
  match _get_quantizer self with
  | inl s => inl s
  | inr quantizer => quantize amount quantizer rounding
  end.

(** [Currency.format_amount_as_is] *)
Definition format_amount_as_is (self : Currency) (amount : Decimal)
    : Signal + string :=
  format_amount (_provider self) (isocode self) amount.

(** [Currency.format_amount] *)
Definition Currency_format_amount (self : Currency) (amount : Decimal)
    : Signal + string :=
  match quantize_amount self amount None with
  | inl s => inl s
  | inr q => format_amount_as_is self q
  end.

(** [Currency.symbol] *)
Definition symbol (self : Currency) : string :=
  get_symbol (_provider self) (isocode self).

(** [Currency.__repr__] *)
Definition Currency_repr (self : Currency) : string :=
  ("Currency('" ++ isocode self ++ "')")%string.

(** ** [monon/money.py] *)

Inductive MoneyOperator : Type :=
| ADDITION | SUBSTRACTION | MULTIPLICATION | DIVISION | INITIALIZATION.

(** An operand as an operation keeps it: the [Money] object [copy] made, or
    the [Decimal] ([copy] of an immutable [Decimal] is the value itself). *)
Inductive Operand : Type :=
| OMoney (m : ref)
| ODecimal (d : Decimal).

Record MoneyOperation : Type := {
  operator : MoneyOperator;
  operands : list Operand
}.

(** A [Money] object: its attributes.  [operations] refers to a list object
    of the heap; the copy [__init__] records of the object under
    construction is taken before the attribute exists, and has none. *)
Record Money : Type := {
  currency : Currency;
  amount : Decimal;
  operations : option ref
}.

(** The heap: the [Money] objects and the [operations] lists, each found by
    its reference.  An object is allocated at the end and never freed. *)
Record Heap : Type := {
  moneys : list Money;
  lists : list (list MoneyOperation)
}.

(** A computation reads and updates the heap and returns or raises. *)
Definition M (A : Type) : Type := Heap -> (Exception + A) * Heap.

Definition ret {A : Type} (a : A) : M A := fun h => (inr a, h).

Definition raise {A : Type} (e : Exception) : M A := fun h => (inl e, h).

Definition bind {A B : Type} (m : M A) (f : A -> M B) : M B :=
  fun h =>
    match m h with
    | (inr a, h') => f a h'
    | (inl e, h') => (inl e, h')
    end.

Notation "'do' x <- m ; k" := (bind m (fun x => k))
  (at level 10, x name, m at level 100, k at level 200).
Notation "'run' m ; k" := (bind m (fun _ => k))
  (at level 10, m at level 100, k at level 200).

Definition lift {A : Type} (r : Exception + A) : M A := fun h => (r, h).

Definition get_money (m : ref) : M Money :=
  fun h =>
    match moneys h !! m with
    | Some o => (inr o, h)
    | None => (inl Stuck, h)
    end.

Definition set_money (m : ref) (o : Money) : M unit :=
  fun h => (inr tt, {| moneys := <[m := o]> (moneys h); lists := lists h |}).

Definition alloc_money (o : Money) : M ref :=
  fun h =>
    (inr (length (moneys h)),
     {| moneys := moneys h ++ [o]; lists := lists h |}).

Definition get_list (l : ref) : M (list MoneyOperation) :=
  fun h =>
    match lists h !! l with
    | Some ops => (inr ops, h)
    | None => (inl Stuck, h)
    end.

Definition set_list (l : ref) (ops : list MoneyOperation) : M unit :=
  fun h => (inr tt, {| moneys := moneys h; lists := <[l := ops]> (lists h) |}).

Definition alloc_list (ops : list MoneyOperation) : M ref :=
  fun h =>
    (inr (length (lists h)),
     {| moneys := moneys h; lists := lists h ++ [ops] |}).

(** [copy(operand)]: a new object with the attributes of the old one, the
    [operations] list shared with it. *)
Definition copy (operand : PyValue) : M Operand :=
  match operand with
  | VMoney m =>
      do o <- get_money m;
      do m' <- alloc_money o;
      ret (OMoney m')
  | VDecimal d => ret (ODecimal d)
  | _ => raise Stuck
  end.

Fixpoint copy_all (operands : list PyValue) : M (list Operand) :=
  match operands with
  | [] => ret []
  | operand :: rest =>
      do c <- copy operand;
      do cs <- copy_all rest;
      ret (c :: cs)
  end.

(** [MoneyOperation.__init__] *)
Definition MoneyOperation_init (operator : MoneyOperator)
    (operands : list PyValue) : M MoneyOperation :=
  do copies <- copy_all operands;
  ret {| operator := operator; operands := copies |}.

(** [Money.formatted] *)
Definition formatted (self : ref) : M string :=
  do o <- get_money self;
  lift (lift_signal (format_amount_as_is (currency o) (amount o))).

(** [str(value)]; [Money.__str__] is [formatted]. *)
Definition py_str (value : PyValue) : M string :=
  match value with
  | VInt n => ret (string_of_list_ascii (int_chars n))
  | VDecimal d => ret (to_string d)
  | VNumber text => ret text
  | VStr s => ret s
  | VMoney m => formatted m
  | VObject text => ret text
  end.

(** [Money.clean_amount]: the [try] covers [str(amount)] as well as the
    conversion, so a [DecimalException] of either becomes [InvalidAmount];
    the quantization is outside it. *)
Definition clean_amount (amount : PyValue) (currency : Currency) : M Decimal :=
  fun h =>
    match py_str amount h with
    | (inl (DecimalException _), h') => (inl (InvalidAmount amount), h')
    | (inl e, h') => (inl e, h')
    | (inr text, h') =>
        match of_string text with
        | None => (inl (InvalidAmount amount), h')
        | Some cleaned_amount =>
            (lift_signal (quantize_amount currency cleaned_amount None), h')
        end
    end.

(** [Money.clean_currency]; a [str] makes a [Currency] of the default
    provider. *)
Definition clean_currency (default_provider : CurrenciesProvider)
    (currency : CurrencyArg) : Exception + Currency :=
  match currency with
  | ACurrency c => inr c
  | _ => Currency_init default_provider currency None
  end.

(** [isinstance(other, Number)] *)
Definition is_Number (v : PyValue) : bool :=
  match v with
  | VInt _ | VDecimal _ | VNumber _ => true
  | _ => false
  end.

Section WithDefaultProvider.

(** [Currency._default_provider], which [Currency.set_default_provider]
    rebinds: the operations below read it where they build a [Currency] from
    a code. *)
Variable default_provider : CurrenciesProvider.

(** [Money.__init__]: the object is allocated once its currency and amount
    are known (an exception before that leaves nothing behind); [copy]
    then takes the object as it is, without [operations]. *)
Definition Money_init (amount : PyValue) (currency : CurrencyArg) : M ref :=
  do c <- lift (clean_currency default_provider currency);
  do a <- clean_amount amount c;
  do self <- alloc_money {| currency := c; amount := a; operations := None |};
  do op <- MoneyOperation_init INITIALIZATION [VMoney self];
  do l <- alloc_list [op];
  run set_money self {| currency := c; amount := a; operations := Some l |};
  ret self.

(** [Money._add_operation]: [self.operations] is read first, the operation
    is built, and the list is appended to in place. *)
Definition _add_operation (self : ref) (operator : MoneyOperator)
    (operands : list PyValue) : M unit :=
  do o <- get_money self;
  match operations o with
  | None => raise AttributeError
  | Some l =>
      do op <- MoneyOperation_init operator operands;
      do ops <- get_list l;
      set_list l (ops ++ [op])
  end.

(** [Money._clean_operand] *)
Definition _clean_operand (self : ref) (other : PyValue) : M ref :=
  do o <- get_money self;
  if is_Number other then Money_init other (ACurrency (currency o))
  else
    match other with
    | VMoney m =>
        do o' <- get_money m;
        if negb (Currency_eq (currency o') (currency o))
        then raise (CurrencyMismatch (currency o) (currency o'))
        else ret m
    | _ => raise (InvalidOperand other)
    end.

(** [Money.__add__] *)
Definition Money_add (self : ref) (other : PyValue) : M ref :=
  do other <- _clean_operand self other;
  do o <- get_money self;
  do o' <- get_money other;
  do sum <- lift (lift_signal (add (amount o) (amount o')));
  do result <- Money_init (VDecimal sum) (ACurrency (currency o));
  run _add_operation result ADDITION [VMoney self; VMoney other];
  ret result.

(** [Money.__radd__] *)
Definition Money_radd (self : ref) (other : PyValue) : M ref :=
  Money_add self other.

(** [Money.__iadd__] *)
Definition Money_iadd (self : ref) (other : PyValue) : M ref :=
  do other <- _clean_operand self other;
  run _add_operation self ADDITION [VMoney self; VMoney other];
  do o <- get_money self;
  do o' <- get_money other;
  do sum <- lift (lift_signal (add (amount o) (amount o')));
  run set_money self
    {| currency := currency o; amount := sum; operations := operations o |};
  ret self.

(** [Money.__sub__] *)
Definition Money_sub (self : ref) (other : PyValue) : M ref :=
  do other <- _clean_operand self other;
  do o <- get_money self;
  do o' <- get_money other;
  do difference <- lift (lift_signal (sub (amount o) (amount o')));
  do result <- Money_init (VDecimal difference) (ACurrency (currency o));
  run _add_operation result SUBSTRACTION [VMoney self; VMoney other];
  ret result.

(** [Money.__rsub__] *)
Definition Money_rsub (self : ref) (other : PyValue) : M ref :=
  do other <- _clean_operand self other;
  Money_sub other (VMoney self).

(** [Money.__isub__] *)
Definition Money_isub (self : ref) (other : PyValue) : M ref :=
  do other <- _clean_operand self other;
  run _add_operation self SUBSTRACTION [VMoney self; VMoney other];
  do o <- get_money self;
  do o' <- get_money other;
  do difference <- lift (lift_signal (sub (amount o) (amount o')));
  run set_money self
    {| currency := currency o; amount := difference;
       operations := operations o |};
  ret self.

(** [Money.__mul__] *)
Definition Money_mul (self : ref) (other : PyValue) : M ref :=
  if negb (is_Number other) then raise (InvalidOperand other)
  else
    do o <- get_money self;
    do cleaned_amount <- clean_amount other (currency o);
    do product <- lift (lift_signal (mul (amount o) cleaned_amount));
    do result <- Money_init (VDecimal product) (ACurrency (currency o));
    run _add_operation result MULTIPLICATION [VMoney self; VDecimal cleaned_amount];
    ret result.

(** [Money.__rmul__] *)
Definition Money_rmul (self : ref) (other : PyValue) : M ref :=
  Money_mul self other.

(** [Money.__truediv__] *)
Definition Money_truediv (self : ref) (other : PyValue) : M ref :=
  do o <- get_money self;
  do cleaned_amount <- clean_amount other (currency o);
  do quotient <- lift (lift_signal (truediv (amount o) cleaned_amount));
  do result <- Money_init (VDecimal quotient) (ACurrency (currency o));
  run _add_operation result DIVISION [VMoney self; VDecimal cleaned_amount];
  ret result.

(** [Money.__neg__] *)
Definition Money_neg (self : ref) : M ref :=
  Money_mul self (VInt (-1)).

(** [Money.__eq__] *)
Definition Money_eq (self : ref) (other : PyValue) : M bool :=
  match other with
  | VMoney m =>
      do o <- get_money self;
      do o' <- get_money m;
      do same_amount <- lift (lift_signal (eq (amount o) (amount o')));
      if same_amount then ret (Currency_eq (currency o) (currency o'))
      else ret false
  | _ => ret false
  end.

(** [Money.__repr__] *)
Definition Money_repr (self : ref) : M string :=
  do o <- get_money self;
  do formatted_amount <- formatted self;
  ret (isocode (currency o) ++ formatted_amount)%string.

(** [Money.__str__] *)
Definition Money_str (self : ref) : M string := formatted self.

End WithDefaultProvider.

Definition empty_heap : Heap := {| moneys := []; lists := [] |}.

(** *** Observations on the heap *)

(** [m.operations], through the heap: the operation log of the object. *)
Definition log_of (h : Heap) (m : ref) : option (list MoneyOperation) :=
  match moneys h !! m with
  | Some o =>
      match operations o with
      | Some l => lists h !! l
      | None => None
      end
  | None => None
  end.

(** The operation [__init__] records for the object it builds: the copy
    [s] of the object as its one operand. *)
Definition init_operation (s : ref) : MoneyOperation :=
  {| operator := INITIALIZATION; operands := [OMoney s] |}.

(** The heap after [Money.__init__] has built an object of currency [c] and
    amount [a]: the object, the copy its log holds, and the log. *)
Definition init_heap (h : Heap) (c : Currency) (a : Decimal) : Heap :=
  {| moneys :=
       moneys h ++
       [ {| currency := c; amount := a; operations := Some (length (lists h)) |};
         {| currency := c; amount := a; operations := None |} ];
     lists := lists h ++ [[init_operation (S (length (moneys h)))]] |}.


(** The end of the operators that return a new object: the object is
    built from the computed [value] and the operation is appended to its
    log. *)
Definition new_result (dp : CurrenciesProvider) (value : Decimal)
    (c : Currency) (op : MoneyOperator) (operands : list PyValue) : M ref :=
  do result <- Money_init dp (VDecimal value) (ACurrency c);
  run _add_operation result op operands;
  ret result.

(** The heap after such an operator: the result, the copy its [__init__]
    recorded, the [copies] of the operands, and the log of two operations. *)
Definition result_heap (h : Heap) (c : Currency) (q : Decimal)
    (op : MoneyOperator) (copies : list Money) (recorded : list Operand)
    : Heap :=
  {| moneys :=
       moneys h ++
       [ {| currency := c; amount := q; operations := Some (length (lists h)) |};
         {| currency := c; amount := q; operations := None |} ] ++ copies;
     lists :=
       lists h ++
       [[init_operation (S (length (moneys h)));
         {| operator := op; operands := recorded |}]] |}.


(** The heap after an in-place operator has appended [op] to the log [l]
    of the receiver, before the amount is rebound: the copies of the two
    operands, and the longer log. *)
Definition recorded_heap (h : Heap) (l : ref) (ops : list MoneyOperation)
    (op : MoneyOperator) (oa ob : Money) : Heap :=
  {| moneys := moneys h ++ [oa; ob];
     lists :=
       <[l := ops ++
              [{| operator := op;
                  operands := [OMoney (length (moneys h));
                               OMoney (S (length (moneys h)))] |}]]>
         (lists h) |}.

(** [self.amount = value] on that heap. *)
Definition rebound_heap (h : Heap) (self : ref) (value : Decimal)
    (o : Money) : Heap :=
  {| moneys :=
       <[self := {| currency := currency o; amount := value;
                    operations := operations o |}]> (moneys h);
     lists := lists h |}.

(** What a returning operator gives: a new object of the receiver's
    currency, the quantized [value] as its amount, and a log of the
    [__init__] and the operation. *)
Definition is_result (h' : Heap) (r : ref) (c : Currency) (value : Decimal)
    (op : MoneyOperator) : Prop :=
  exists q l recorded,
    quantize_amount c value None = inr q /\
    moneys h' !! r =
      Some {| currency := c; amount := q; operations := Some l |} /\
    lists h' !! l =
      Some [init_operation (S r); {| operator := op; operands := recorded |}].

(** *** Attribute reads, a second provider and the examples of the properties *)

(** [m.amount] *)
Definition Money_amount (m : ref) : M Decimal :=
  do o <- get_money m;
  ret (amount o).

(** [m.operations], the list read at this moment. *)
Definition Money_operations (m : ref) : M (list MoneyOperation) :=
  do o <- get_money m;
  match operations o with
  | Some l => get_list l
  | None => raise AttributeError
  end.

(** A provider a user may write: the default one with three decimal
    places. *)
Definition ThreePlacesProvider : CurrenciesProvider := {|
  get_decimal_places := fun _ => 3;
  get_symbol := DefaultCurrenciesProvider_get_symbol;
  validate_currency := DefaultCurrenciesProvider_validate_currency;
  format_amount := DefaultCurrenciesProvider_format_amount;
  get_rounding := CurrenciesProvider_get_rounding
|}.

(** [Currency('USD')] under the default provider. *)
Definition USD : Currency :=
  {| isocode := "USD"; _provider := DefaultCurrenciesProvider |}.

(** [Currency('EUR')] under the default provider. *)
Definition EUR : Currency :=
  {| isocode := "EUR"; _provider := DefaultCurrenciesProvider |}.

(** [d] is finite and has the exponent of the quantizer of [c]. *)
Definition quantized_to (c : Currency) (d : Decimal) : Prop :=
  match d, _get_quantizer c with
  | Finite _ _ e, inr (Finite _ _ qe) => e = qe
  | _, _ => False
  end.

(** The heap after [Money(1, 'USD')] and [Money(1, 'EUR')], objects [0]
    and [2]. *)
Definition usd_eur_heap : Heap :=
  snd ((do a <- Money_init DefaultCurrenciesProvider (VInt 1) (AStr "USD");
        Money_init DefaultCurrenciesProvider (VInt 1) (AStr "EUR")) empty_heap).

(** [5 - Money("0.80", "USD") == Money("4.20", "USD")] *)
Definition rsub_example : M bool :=
  do m <- Money_init DefaultCurrenciesProvider (VStr "0.80") (AStr "USD");
  do r <- Money_rsub DefaultCurrenciesProvider m (VInt 5);
  do expected <- Money_init DefaultCurrenciesProvider (VStr "4.20") (AStr "USD");
  Money_eq r (VMoney expected).

(** [5 - m == Money(5, 'USD') - m] for [m = Money('0.80', 'USD')] *)
Definition rsub_as_sub_example : M bool :=
  do m <- Money_init DefaultCurrenciesProvider (VStr "0.80") (AStr "USD");
  do r <- Money_rsub DefaultCurrenciesProvider m (VInt 5);
  do five <- Money_init DefaultCurrenciesProvider (VInt 5) (AStr "USD");
  do r' <- Money_sub DefaultCurrenciesProvider five (VMoney m);
  Money_eq r (VMoney r').

(** The amounts of the operands [5 - Money("0.80", "USD")] records, in
    their order, with the operator. *)
Definition rsub_log_example : M (MoneyOperator * list (option Decimal)) :=
  do m <- Money_init DefaultCurrenciesProvider (VStr "0.80") (AStr "USD");
  do r <- Money_rsub DefaultCurrenciesProvider m (VInt 5);
  do ops <- Money_operations r;
  fun h =>
    match ops with
    | [_; op] =>
        (inr (operator op,
              map (fun operand =>
                     match operand with
                     | OMoney s => option_map amount (moneys h !! s)
                     | ODecimal d => Some d
                     end) (operands op)), h)
    | _ => (inl Stuck, h)
    end.

(** [repr(Money(25, 'USD') / '5')] *)
Definition truediv_str_example : M string :=
  do m <- Money_init DefaultCurrenciesProvider (VInt 25) (AStr "USD");
  do r <- Money_truediv DefaultCurrenciesProvider m (VStr "5");
  Money_repr r.

(** [Money(25, 'USD') * '5'] *)
Definition mul_str_example : M ref :=
  do m <- Money_init DefaultCurrenciesProvider (VInt 25) (AStr "USD");
  Money_mul DefaultCurrenciesProvider m (VStr "5").

(** [Money(25, 'USD') / 'abc'] *)
Definition truediv_text_example : M ref :=
  do m <- Money_init DefaultCurrenciesProvider (VInt 25) (AStr "USD");
  Money_truediv DefaultCurrenciesProvider m (VStr "abc").


(** Where the computation [F] returns from the heap [h], it returns an
    object whose log is the [__init__] and one operation of operator
    [op]. *)
Definition returns_with_log (F : M ref) (h : Heap) (op : MoneyOperator) : Prop :=
  forall r h',
    F h = (inr r, h') ->
    exists init o,
      log_of h' r = Some [init; o] /\
      operator init = INITIALIZATION /\ operator o = op.

(** Where the computation [F] returns from the heap [h], it returns the
    object [a], whose log is what it was with one operation of operator [op]
    after it. *)
Definition appends_to_log (F : M ref) (h : Heap) (a : ref)
    (op : MoneyOperator) : Prop :=
  forall r h' ops,
    log_of h a = Some ops ->
    F h = (inr r, h') ->
    r = a /\
    exists o, log_of h' a = Some (ops ++ [o]) /\ operator o = op.


(** [(Money('NaN', 'USD') / 0).amount] *)
Definition nan_by_zero_example : M Decimal :=
  do m <- Money_init DefaultCurrenciesProvider (VStr "NaN") (AStr "USD");
  do r <- Money_truediv DefaultCurrenciesProvider m (VInt 0);
  Money_amount r.

(** [Money('NaN', 'USD').amount] *)
Definition nan_amount_example : M Decimal :=
  do m <- Money_init DefaultCurrenciesProvider (VStr "NaN") (AStr "USD");
  Money_amount m.

(** Where the computation [F] returns from the heap [h], it returns an
    object whose amount is a NaN or has the exponent of the quantizer of
    its currency. *)
Definition returns_quantized (F : M ref) (h : Heap) : Prop :=
  forall r h',
    F h = (inr r, h') ->
    exists o,
      moneys h' !! r = Some o /\
      (is_nan (amount o) = true \/ quantized_to (currency o) (amount o)).



(** [a + b == b + a] for [a = Money('NaN', 'USD')] and
    [b = Money(1, 'USD')] *)
Definition nan_commutativity_example : M bool :=
  do a <- Money_init DefaultCurrenciesProvider (VStr "NaN") (AStr "USD");
  do b <- Money_init DefaultCurrenciesProvider (VInt 1) (AStr "USD");
  do x <- Money_add DefaultCurrenciesProvider a (VMoney b);
  do y <- Money_add DefaultCurrenciesProvider b (VMoney a);
  Money_eq x (VMoney y).

(** [a + b == b + a] for [a = Money('1', 'USD')] and
    [b = Money('1.001', Currency('USD', ThreePlacesProvider()))] *)
Definition two_providers_commutativity_example : M bool :=
  do usd3 <- lift (Currency_init DefaultCurrenciesProvider (AStr "USD")
                     (Some ThreePlacesProvider));
  do a <- Money_init DefaultCurrenciesProvider (VStr "1") (AStr "USD");
  do b <- Money_init DefaultCurrenciesProvider (VStr "1.001") (ACurrency usd3);
  do x <- Money_add DefaultCurrenciesProvider a (VMoney b);
  do y <- Money_add DefaultCurrenciesProvider b (VMoney a);
  Money_eq x (VMoney y).


(** [(a + b).amount] and [a.amount + b.amount] for [a = Money('1', 'USD')]
    and [b = Money('1.001', Currency('USD', ThreePlacesProvider()))] *)
Definition two_providers_sum_example : M (Decimal * (Signal + Decimal)) :=
  do usd3 <- lift (Currency_init DefaultCurrenciesProvider (AStr "USD")
                     (Some ThreePlacesProvider));
  do a <- Money_init DefaultCurrenciesProvider (VStr "1") (AStr "USD");
  do b <- Money_init DefaultCurrenciesProvider (VStr "1.001") (ACurrency usd3);
  do x <- Money_add DefaultCurrenciesProvider a (VMoney b);
  do stored <- Money_amount x;
  do a_amount <- Money_amount a;
  do b_amount <- Money_amount b;
  ret (stored, add a_amount b_amount).

(** Where the computation [F] returns from the heap [h], it returns an
    object of the currency [c] whose amount is the quantization in [c] of
    [value], and is [value] itself if [raw] holds. *)
Definition returns_quantized_value (F : M ref) (h : Heap) (c : Currency)
    (value : Signal + Decimal) (raw : Prop) : Prop :=
  forall r h',
    F h = (inr r, h') ->
    exists s q o,
      value = inr s /\
      quantize_amount c s None = inr q /\
      moneys h' !! r = Some o /\
      currency o = c /\ amount o = q /\
      (raw -> q = s).


(** [len(m.operations)] *)
Definition Money_operations_len (m : ref) : M nat :=
  do ops <- Money_operations m;
  ret (length ops).

(** The copy of [m] that [r = m + one] records, looked at before and after
    [m += one], for [m = Money("5", 'USD')] and [one = Money(1, 'USD')]:

      r = m + one
      snapshot = r.operations[1].operands[0]
      before = (snapshot.amount, len(snapshot.operations))
      m += one
      after = (snapshot.amount, len(snapshot.operations))

    with [m.amount] at the end. *)
Definition shared_log_example
    : M ((Decimal * nat) * (Decimal * nat) * Decimal) :=
  do m <- Money_init DefaultCurrenciesProvider (VStr "5") (AStr "USD");
  do one <- Money_init DefaultCurrenciesProvider (VInt 1) (AStr "USD");
  do r <- Money_add DefaultCurrenciesProvider m (VMoney one);
  do ops <- Money_operations r;
  match ops with
  | [_; {| operator := _; operands := OMoney snapshot :: _ |}] =>
      do amount_before <- Money_amount snapshot;
      do log_before <- Money_operations_len snapshot;
      run Money_iadd DefaultCurrenciesProvider m (VMoney one);
      do amount_after <- Money_amount snapshot;
      do log_after <- Money_operations_len snapshot;
      do m_amount <- Money_amount m;
      ret (amount_before, log_before, (amount_after, log_after), m_amount)
  | _ => raise Stuck
  end.

(** *** More of the two files, and what further properties speak of *)


(** [h'] is [h] with objects and lists allocated after those of [h]: every
    object and every list of [h] is in [h'] as it was. *)
Definition extends (h h' : Heap) : Prop :=
  exists ms ls, moneys h' = moneys h ++ ms /\ lists h' = lists h ++ ls.

(** The log of [r] is the [__init__] and one operation of operator [op]
    with the operands [recorded]. *)
Definition records (h' : Heap) (r : ref) (op : MoneyOperator)
    (recorded : list Operand) : Prop :=
  log_of h' r =
  Some [init_operation (S r); {| operator := op; operands := recorded |}].

(** [s] is an object allocated after those of [h], with the attributes
    [o]. *)
Definition copy_of (h h' : Heap) (s : ref) (o : Money) : Prop :=
  (length (moneys h) <= s)%nat /\ moneys h' !! s = Some o.

(** The operator [op] of [a] and [v] has returned [r] and recorded its two
    operands: the operand was cleaned to the [Money] [b], and the operation
    holds two new objects, one with the attributes of [a] and one with
    those of [b], in this order. *)
Definition records_two_moneys (dp : CurrenciesProvider) (h h' : Heap)
    (a : ref) (v : PyValue) (r : ref) (op : MoneyOperator) : Prop :=
  exists b h1 oa ob s1 s2,
    _clean_operand dp a v h = (inr b, h1) /\
    moneys h1 !! a = Some oa /\ moneys h1 !! b = Some ob /\
    records h' r op [OMoney s1; OMoney s2] /\ s1 <> s2 /\
    copy_of h1 h' s1 oa /\ copy_of h1 h' s2 ob.

(** The operator [op] of [a] and [v] has returned [r] and recorded a new
    object with the attributes of [a] and the [Decimal] the operand was
    cleaned to. *)
Definition records_money_and_decimal (h h' : Heap) (a : ref) (v : PyValue)
    (r : ref) (op : MoneyOperator) : Prop :=
  exists oa cleaned_amount s1,
    moneys h !! a = Some oa /\
    fst (clean_amount v (currency oa) h) = inr cleaned_amount /\
    records h' r op [OMoney s1; ODecimal cleaned_amount] /\
    copy_of h h' s1 oa.

(** The coefficient of a finite value with its sign: the value counted in
    units of its exponent. *)
Definition signed (sign : bool) (c : N) : Z :=
  if sign then - Z.of_N c else Z.of_N c.

(** [MoneyOperator.value] *)
Definition MoneyOperator_value (op : MoneyOperator) : string :=
  match op with
  | ADDITION => "+"
  | SUBSTRACTION => "-"
  | MULTIPLICATION => "*"
  | DIVISION => "/"
  | INITIALIZATION => "init"
  end.

(** [repr(d)] for a [Decimal] [d] *)
Definition Decimal_repr (d : Decimal) : string :=
  ("Decimal('" ++ to_string d ++ "')")%string.

(** [repr(operand)] for an operand an operation holds *)
Definition Operand_repr (operand : Operand) : M string :=
  match operand with
  | OMoney m => Money_repr m
  | ODecimal d => ret (Decimal_repr d)
  end.

(** [repr(operand) for operand in operands], in this order *)
Fixpoint Operands_repr (operands : list Operand) : M (list string) :=
  match operands with
  | [] => ret []
  | operand :: rest =>
      do r <- Operand_repr operand;
      do rs <- Operands_repr rest;
      ret (r :: rs)
  end.

(** [sep.join(texts)] *)
Fixpoint join (sep : string) (texts : list string) : string :=
  match texts with
  | [] => ""
  | [text] => text
  | text :: rest => (text ++ sep ++ join sep rest)%string
  end.

(** [MoneyOperation.__repr__] *)
Definition MoneyOperation_repr (self : MoneyOperation) : M string :=
  do texts <- Operands_repr (operands self);
  ret ("(" ++ MoneyOperator_value (operator self) ++ " " ++
       join " " texts ++ ")")%string.

(** What an in-place operator of operator [op] has done to the heap, with
    [s] the new amount: the receiver [a] has it, and the currency and the
    log it had; no other object and no other list has changed; the log of
    [a] has one more operation, whose operands are two new objects with the
    attributes [oa] that [a] had before and [ob] of the operand. *)
Definition changed_in_place (h h' : Heap) (a l : ref) (oa ob : Money)
    (ops : list MoneyOperation) (op : MoneyOperator) (s : Decimal) : Prop :=
  moneys h' !! a =
    Some {| currency := currency oa; amount := s; operations := Some l |} /\
  (forall m o, m <> a -> moneys h !! m = Some o -> moneys h' !! m = Some o) /\
  (forall l' ops', l' <> l -> lists h !! l' = Some ops' ->
                   lists h' !! l' = Some ops') /\
  exists s1 s2,
    lists h' !! l =
      Some (ops ++ [{| operator := op; operands := [OMoney s1; OMoney s2] |}]) /\
    copy_of h h' s1 oa /\ copy_of h h' s2 ob.

(** The computation [F] returns from [h] a [Money] of currency [c] and
    amount [d]. *)
Definition returns_money (F : M ref) (h : Heap) (c : Currency) (d : Decimal)
    : Prop :=
  exists r h' l,
    F h = (inr r, h') /\
    moneys h' !! r = Some {| currency := c; amount := d; operations := Some l |}.

(** The computation [F] raises an exception of [decimal] from [h] and
    leaves the heap as it was. *)
Definition raises_decimal (F : M ref) (h : Heap) : Prop :=
  exists sig, F h = (inl (DecimalException sig), h).

(** The log of [r] is two operations: the second prints as the operator
    [op] before [texts], the first as [init] before the text of [r]. *)
Definition prints (h' : Heap) (r : ref) (op : MoneyOperator)
    (texts : list string) : Prop :=
  exists init o,
    log_of h' r = Some [init; o] /\
    MoneyOperation_repr o h' =
      (inr ("(" ++ MoneyOperator_value op ++ " " ++ join " " texts ++ ")")%string,
       h') /\
    (forall text,
       fst (Money_repr r h') = inr text ->
       MoneyOperation_repr init h' = (inr ("(init " ++ text ++ ")")%string, h')).

End Monon.

(** * Properties *)

(** ** Digit strings and digit counts *)

Module PyDecimalFacts.
Import PyDecimal.

Lemma digits_fuel_acc (fuel : nat) (n : N) (acc : list ascii) :
  digits_fuel fuel n acc = digits_fuel fuel n [] ++ acc.
Proof.
  revert n acc. induction fuel as [|fuel IH]; intros n acc; simpl.
  - reflexivity.
  - destruct (n <? 10)%N; [reflexivity|].
    rewrite IH. rewrite (IH _ [_]). rewrite <- app_assoc. reflexivity.
Qed.

Lemma log2_div10 (n : N) : (10 <= n)%N -> (N.log2 (n / 10) < N.log2 n)%N.
Proof.
  intros Hn.
  assert (Hq : (0 < n / 10)%N).
  { apply N.div_str_pos. lia. }
  apply N.log2_lt_pow2; [exact Hq|].
  pose proof (N.log2_spec n ltac:(lia)) as [_ Hup].
  rewrite N.pow_succ_r' in Hup.
  apply N.Div0.div_lt_upper_bound. lia.
Qed.

Lemma digits_fuel_enough (f1 f2 : nat) (n : N) (acc : list ascii) :
  (N.to_nat (N.log2 n) < f1)%nat -> (N.to_nat (N.log2 n) < f2)%nat ->
  digits_fuel f1 n acc = digits_fuel f2 n acc.
Proof.
  revert f2 n acc. induction f1 as [|f1 IH]; intros f2 n acc H1 H2; [lia|].
  destruct f2 as [|f2]; [lia|]. simpl.
  destruct (n <? 10)%N eqn:Hlt; [reflexivity|].
  apply N.ltb_ge in Hlt. pose proof (log2_div10 n Hlt).
  apply IH; lia.
Qed.

(** The equation of [digits]: the last digit after the digits of the
    quotient. *)
Lemma digits_eq (n : N) :
  digits n =
  if (n <? 10)%N then [digit_char n]
  else digits (n / 10) ++ [digit_char (n mod 10)].
Proof.
  unfold digits at 1. simpl.
  destruct (n <? 10)%N eqn:Hlt; [reflexivity|].
  apply N.ltb_ge in Hlt. pose proof (log2_div10 n Hlt).
  rewrite digits_fuel_acc. f_equal.
  unfold digits. apply digits_fuel_enough; lia.
Qed.

Lemma ndigits_small (n : N) : (n < 10)%N -> ndigits n = 1.
Proof.
  intros H. unfold ndigits. rewrite digits_eq.
  apply N.ltb_lt in H. rewrite H. reflexivity.
Qed.

Lemma ndigits_step (n : N) : (10 <= n)%N -> ndigits n = ndigits (n / 10) + 1.
Proof.
  intros H. unfold ndigits. rewrite digits_eq.
  apply N.ltb_ge in H. rewrite H. rewrite length_app. simpl. lia.
Qed.

Lemma ndigits_pos (n : N) : 1 <= ndigits n.
Proof.
  destruct (N.lt_ge_cases n 10) as [H|H].
  - rewrite ndigits_small by exact H. lia.
  - rewrite ndigits_step by exact H. unfold ndigits. lia.
Qed.

Lemma pow10_pos (k : Z) : (0 < pow10 k)%N.
Proof. unfold pow10. apply N.neq_0_lt_0. apply N.pow_nonzero. lia. Qed.

Lemma pow10_nonpos (k : Z) : k <= 0 -> pow10 k = 1%N.
Proof.
  intros H. unfold pow10. replace (Z.to_N k) with 0%N by lia. reflexivity.
Qed.

Lemma pow10_succ (k : Z) : 0 <= k -> pow10 (k + 1) = (10 * pow10 k)%N.
Proof.
  intros H. unfold pow10.
  replace (Z.to_N (k + 1)) with (N.succ (Z.to_N k)) by lia.
  apply N.pow_succ_r'.
Qed.

Lemma pow10_add (a b : Z) :
  0 <= a -> 0 <= b -> pow10 (a + b) = (pow10 a * pow10 b)%N.
Proof.
  intros Ha Hb. unfold pow10.
  replace (Z.to_N (a + b)) with (Z.to_N a + Z.to_N b)%N by lia.
  apply N.pow_add_r.
Qed.

Lemma pow10_le (a b : Z) : a <= b -> (pow10 a <= pow10 b)%N.
Proof.
  intros H. unfold pow10. apply N.pow_le_mono_r; lia.
Qed.

Lemma pow10_lt (a b : Z) : 0 <= a -> a < b -> (pow10 a < pow10 b)%N.
Proof.
  intros Ha H. unfold pow10. apply N.pow_lt_mono_r; lia.
Qed.

(** A positive number lies between the powers of ten its digit count
    names. *)
Lemma ndigits_bounds (n : N) :
  (0 < n)%N -> (pow10 (ndigits n - 1) <= n < pow10 (ndigits n))%N.
Proof.
  induction n as [n IH] using (well_founded_induction N.lt_wf_0).
  intros Hpos.
  destruct (N.lt_ge_cases n 10) as [H|H].
  - rewrite ndigits_small by exact H.
    change (pow10 (1 - 1)) with 1%N. change (pow10 1) with 10%N. lia.
  - rewrite ndigits_step by exact H.
    assert (Hq : (0 < n / 10)%N) by (apply N.div_str_pos; lia).
    assert (Hlt : (n / 10 < n)%N) by (apply N.div_lt; lia).
    destruct (IH _ Hlt Hq) as [Hlo Hhi].
    pose proof (ndigits_pos (n / 10)) as Hp.
    replace (ndigits (n / 10) + 1 - 1) with (ndigits (n / 10) - 1 + 1) by lia.
    rewrite !pow10_succ by lia.
    pose proof (N.div_mod n 10 ltac:(lia)) as Hdm.
    pose proof (N.mod_lt n 10 ltac:(lia)) as Hm.
    clear IH Hp.
    generalize dependent (pow10 (ndigits (n / 10) - 1)).
    generalize dependent (pow10 (ndigits (n / 10))).
    generalize dependent (n mod 10)%N.
    generalize dependent (n / 10)%N.
    intros. lia.
Qed.

Lemma ndigits_unique (n : N) (k : Z) :
  1 <= k -> (pow10 (k - 1) <= n < pow10 k)%N -> (0 < n)%N -> ndigits n = k.
Proof.
  intros Hk [Hlo Hhi] Hpos.
  destruct (ndigits_bounds n Hpos) as [Hlo' Hhi'].
  pose proof (ndigits_pos n) as Hp.
  destruct (Z.lt_trichotomy (ndigits n) k) as [Hlt|[Heq|Hgt]]; [|exact Heq|].
  - pose proof (pow10_le (ndigits n) (k - 1) ltac:(lia)). lia.
  - pose proof (pow10_le k (ndigits n - 1) ltac:(lia)). lia.
Qed.

Lemma ndigits_0 : ndigits 0 = 1.
Proof. reflexivity. Qed.

Lemma ndigits_le_pow10 (n : N) (k : Z) :
  0 <= k -> (n < pow10 k)%N -> (0 < n)%N -> ndigits n <= k.
Proof.
  intros Hk Hn Hpos.
  destruct (ndigits_bounds n Hpos) as [Hlo _].
  destruct (Z.le_gt_cases (ndigits n) k) as [H|H]; [exact H|].
  pose proof (pow10_le k (ndigits n - 1) ltac:(lia)) as Hle. lia.
Qed.

Lemma ndigits_ge_pow10 (n : N) (k : Z) :
  (pow10 k <= n)%N -> k + 1 <= ndigits n.
Proof.
  intros Hn.
  assert (Hpos : (0 < n)%N) by (pose proof (pow10_pos k); lia).
  destruct (ndigits_bounds n Hpos) as [_ Hhi].
  pose proof (ndigits_pos n) as Hp.
  destruct (Z.le_gt_cases (k + 1) (ndigits n)) as [H|H]; [exact H|].
  pose proof (pow10_le (ndigits n) k ltac:(lia)) as Hle. lia.
Qed.

End PyDecimalFacts.

(** ** The string of a decimal *)

Module PyDecimalStrings.
Import PyDecimal PyDecimalFacts.

Lemma digit_cases (d : N) :
  (d < 10)%N ->
  d = 0%N \/ d = 1%N \/ d = 2%N \/ d = 3%N \/ d = 4%N \/
  d = 5%N \/ d = 6%N \/ d = 7%N \/ d = 8%N \/ d = 9%N.
Proof. lia. Qed.

Lemma is_digit_digit_char (d : N) : (d < 10)%N -> is_digit (digit_char d) = true.
Proof.
  intros H. destruct (digit_cases d H) as [->|[->|[->|[->|[->|[->|[->|[->|[->| ->]]]]]]]]];
    reflexivity.
Qed.

Lemma digit_val_digit_char (d : N) : (d < 10)%N -> digit_val (digit_char d) = d.
Proof.
  intros H. destruct (digit_cases d H) as [->|[->|[->|[->|[->|[->|[->|[->|[->| ->]]]]]]]]];
    reflexivity.
Qed.

Lemma digits_all_digit (n : N) : Forall (fun c => is_digit c = true) (digits n).
Proof.
  induction n as [n IH] using (well_founded_induction N.lt_wf_0).
  rewrite digits_eq. destruct (n <? 10)%N eqn:Hlt.
  - apply N.ltb_lt in Hlt. constructor; [|constructor].
    apply is_digit_digit_char. exact Hlt.
  - apply N.ltb_ge in Hlt. apply Forall_app. split.
    + apply IH. apply N.div_lt; lia.
    + constructor; [|constructor]. apply is_digit_digit_char.
      apply N.mod_lt. lia.
Qed.

Lemma digits_nonempty (n : N) : digits n <> [].
Proof.
  rewrite digits_eq. destruct (n <? 10)%N; [discriminate|].
  destruct (digits (n / 10)); discriminate.
Qed.

Lemma N_of_digits_snoc (s : list ascii) (c : ascii) :
  N_of_digits (s ++ [c]) = (10 * N_of_digits s + digit_val c)%N.
Proof. unfold N_of_digits. rewrite fold_left_app. reflexivity. Qed.

Lemma N_of_digits_digits (n : N) : N_of_digits (digits n) = n.
Proof.
  induction n as [n IH] using (well_founded_induction N.lt_wf_0).
  rewrite digits_eq. destruct (n <? 10)%N eqn:Hlt.
  - apply N.ltb_lt in Hlt. unfold N_of_digits. simpl.
    rewrite digit_val_digit_char by exact Hlt. reflexivity.
  - apply N.ltb_ge in Hlt. rewrite N_of_digits_snoc.
    rewrite IH by (apply N.div_lt; lia).
    rewrite digit_val_digit_char by (apply N.mod_lt; lia).
    symmetry. apply N.div_mod. lia.
Qed.

Lemma N_of_digits_zeros (k : Z) (s : list ascii) :
  N_of_digits (zeros k ++ s) = N_of_digits s.
Proof.
  unfold zeros, N_of_digits. induction (Z.to_nat k) as [|m IH]; simpl.
  - reflexivity.
  - exact IH.
Qed.

Lemma length_zeros (k : Z) : 0 <= k -> Z.of_nat (length (zeros k)) = k.
Proof. intros H. unfold zeros. rewrite repeat_length. lia. Qed.

Lemma zeros_all_digit (k : Z) : Forall (fun c => is_digit c = true) (zeros k).
Proof.
  unfold zeros. induction (Z.to_nat k); simpl; constructor; auto.
Qed.

(** [span_digits] stops at the first character that is no digit. *)
Lemma span_digits_app (ds rest : list ascii) :
  Forall (fun c => is_digit c = true) ds ->
  match rest with [] => True | c :: _ => is_digit c = false end ->
  span_digits (ds ++ rest) = (ds, rest).
Proof.
  intros Hds Hrest. induction Hds as [|c ds Hc Hds IH]; simpl.
  - destruct rest as [|c rest]; [reflexivity|]. simpl. rewrite Hrest. reflexivity.
  - rewrite Hc. rewrite IH. reflexivity.
Qed.

Lemma span_digits_all (ds : list ascii) :
  Forall (fun c => is_digit c = true) ds -> span_digits ds = (ds, []).
Proof.
  intros H. rewrite <- (app_nil_r ds) at 1. apply span_digits_app; [exact H|exact I].
Qed.


Lemma digit_not_space (c : ascii) :
  is_digit c = true -> is_space c = false /\ is_underscore c = false.
Proof.
  unfold is_digit, is_space, is_underscore. intros H.
  apply andb_true_iff in H. destruct H as [H1 H2].
  apply N.leb_le in H1. apply N.leb_le in H2.
  split.
  - apply orb_false_iff. split; apply andb_false_iff.
    + right. apply N.leb_gt. lia.
    + right. apply N.leb_gt. lia.
  - apply N.eqb_neq. lia.
Qed.

Lemma digit_not_special (c : ascii) :
  is_digit c = true ->
  c <> "-"%char /\ c <> "+"%char /\ c <> "."%char /\ lower c = c.
Proof.
  unfold is_digit, lower. intros H.
  apply andb_true_iff in H. destruct H as [H1 H2].
  apply N.leb_le in H1. apply N.leb_le in H2.
  split; [|split; [|split]].
  1-3: intros ->; cbn in H1, H2; lia.
  replace (65 <=? N_of_ascii c)%N with false; [reflexivity|].
  symmetry. apply N.leb_gt. lia.
Qed.

Lemma lstrip_plain (s : list ascii) : Forall plain s -> lstrip s = s.
Proof.
  intros H. destruct H as [|c s [Hc _] _]; simpl; [reflexivity|].
  rewrite Hc. reflexivity.
Qed.

Lemma strip_plain (s : list ascii) : Forall plain s -> strip s = s.
Proof.
  intros H. unfold strip. rewrite (lstrip_plain s H).
  rewrite lstrip_plain by (apply Forall_rev; exact H).
  apply rev_involutive.
Qed.

Lemma filter_plain (s : list ascii) :
  Forall plain s -> List.filter (fun c => negb (is_underscore c)) s = s.
Proof.
  intros H. induction H as [|c s [_ Hc] _ IH]; simpl; [reflexivity|].
  rewrite Hc. simpl. rewrite IH. reflexivity.
Qed.

Lemma digits_plain (ds : list ascii) :
  Forall (fun c => is_digit c = true) ds -> Forall plain ds.
Proof.
  intros H. induction H as [|c ds Hc _ IH]; constructor; [|exact IH].
  apply digit_not_space. exact Hc.
Qed.

Lemma of_chars_plain (s : list ascii) :
  Forall plain s ->
  of_chars s =
  let '(sign, rest) := take_sign s in
  match parse_number sign rest with
  | Some d => Some d
  | None => parse_special sign rest
  end.
Proof.
  intros H. unfold of_chars. rewrite strip_plain by exact H.
  rewrite filter_plain by exact H. reflexivity.
Qed.

Lemma take_sign_digits (sign : bool) (c : ascii) (rest : list ascii) :
  is_digit c = true ->
  take_sign (sign_chars sign ++ c :: rest) = (sign, c :: rest).
Proof.
  intros Hc. destruct sign; [reflexivity|]. simpl.
  destruct (digit_not_special c Hc) as (Hm & Hp & _).
  unfold take_sign.
  destruct c as [[] [] [] [] [] [] [] []]; try reflexivity; congruence.
Qed.

Lemma parse_exponent_signed (n : Z) :
  parse_exponent ("E"%char :: signed_int_chars n) = Some n.
Proof.
  unfold parse_exponent, signed_int_chars.
  change (Ascii.eqb (lower "E") "e") with true. cbv iota.
  assert (Hts : take_sign ((if n <? 0 then "-"%char else "+"%char)
                             :: digits (Z.abs_N n))
                = (n <? 0, digits (Z.abs_N n))).
  { destruct (n <? 0); reflexivity. }
  rewrite Hts. rewrite span_digits_all by apply digits_all_digit.
  pose proof (digits_nonempty (Z.abs_N n)) as Hne.
  destruct (digits (Z.abs_N n)) as [|d ds] eqn:Hd; [congruence|].
  rewrite <- Hd. rewrite N_of_digits_digits. f_equal.
  destruct (n <? 0) eqn:Hn; [apply Z.ltb_lt in Hn|apply Z.ltb_ge in Hn]; lia.
Qed.

(** The number alternative on digits, a point and digits. *)
Lemma parse_number_point (sign : bool) (ip fp ex : list ascii) :
  Forall (fun c => is_digit c = true) ip ->
  Forall (fun c => is_digit c = true) fp ->
  ip ++ fp <> [] ->
  match ex with [] => True | c :: _ => is_digit c = false end ->
  parse_number sign (ip ++ "."%char :: fp ++ ex) =
  match parse_exponent ex with
  | Some e =>
      Some (Finite sign (N_of_digits (ip ++ fp)) (e - Z.of_nat (length fp)))
  | None => None
  end.
Proof.
  intros Hip Hfp Hne Hex. unfold parse_number.
  rewrite (span_digits_app ip ("."%char :: fp ++ ex) Hip) by reflexivity.
  rewrite (span_digits_app fp ex Hfp Hex).
  destruct (ip ++ fp) as [|d ds] eqn:Hd; [congruence|]. reflexivity.
Qed.

(** The number alternative on digits alone. *)
Lemma parse_number_int (sign : bool) (ip ex : list ascii) :
  Forall (fun c => is_digit c = true) ip ->
  ip <> [] ->
  match ex with
  | [] => True
  | c :: _ => is_digit c = false /\ c <> "."%char
  end ->
  parse_number sign (ip ++ ex) =
  match parse_exponent ex with
  | Some e => Some (Finite sign (N_of_digits ip) e)
  | None => None
  end.
Proof.
  intros Hip Hne Hex. unfold parse_number.
  rewrite (span_digits_app ip ex Hip)
    by (destruct ex as [|c ex']; [exact I|apply Hex]).
  assert (Hnp : (match ex with
                 | "."%char :: rest' => span_digits rest'
                 | _ => ([], ex)
                 end) = ([], ex)).
  { destruct ex as [|c ex']; [reflexivity|]. destruct Hex as [_ Hc].
    destruct c as [[] [] [] [] [] [] [] []]; try reflexivity; congruence. }
  rewrite Hnp. rewrite app_nil_r.
  destruct ip as [|d ds]; [congruence|].
  destruct (parse_exponent ex); [|reflexivity].
  simpl length. f_equal. f_equal. lia.
Qed.


Lemma sign_chars_plain (sign : bool) : Forall plain (sign_chars sign).
Proof. destruct sign; repeat constructor. Qed.

Lemma signed_int_chars_plain (n : Z) :
  Forall plain ("E"%char :: signed_int_chars n).
Proof.
  constructor; [split; reflexivity|]. unfold signed_int_chars.
  constructor; [destruct (n <? 0); split; reflexivity|].
  apply digits_plain. apply digits_all_digit.
Qed.

Lemma exponent_part_plain (ex : list ascii) (e : Z) :
  exponent_part ex e -> Forall plain ex.
Proof.
  intros [[-> _]| ->]; [constructor|apply signed_int_chars_plain].
Qed.

Lemma exponent_part_parse (ex : list ascii) (e : Z) :
  exponent_part ex e -> parse_exponent ex = Some e.
Proof.
  intros [[-> ->]| ->]; [reflexivity|apply parse_exponent_signed].
Qed.

Lemma exponent_part_head (ex : list ascii) (e : Z) :
  exponent_part ex e ->
  match ex with
  | [] => True
  | c :: _ => is_digit c = false /\ c <> "."%char
  end.
Proof.
  intros [[-> _]| ->]; [exact I|]. split; [reflexivity|discriminate].
Qed.

Lemma take_sign_head_digit (sign : bool) (ip rest : list ascii) :
  Forall (fun c => is_digit c = true) ip -> ip <> [] ->
  take_sign (sign_chars sign ++ ip ++ rest) = (sign, ip ++ rest).
Proof.
  intros Hip Hne. destruct Hip as [|c ip Hc _]; [congruence|].
  simpl app. apply take_sign_digits. exact Hc.
Qed.

Lemma of_chars_point (sign : bool) (ip fp ex : list ascii) (e : Z) :
  Forall (fun c => is_digit c = true) ip ->
  Forall (fun c => is_digit c = true) fp ->
  ip <> [] ->
  exponent_part ex e ->
  of_chars (sign_chars sign ++ ip ++ "."%char :: fp ++ ex) =
  Some (Finite sign (N_of_digits (ip ++ fp)) (e - Z.of_nat (length fp))).
Proof.
  intros Hip Hfp Hne Hex.
  rewrite of_chars_plain.
  - rewrite take_sign_head_digit by assumption.
    rewrite parse_number_point; try assumption.
    + rewrite (exponent_part_parse ex e Hex). reflexivity.
    + destruct ip; [congruence|discriminate].
    + pose proof (exponent_part_head ex e Hex) as Hh.
      destruct ex; [exact I|apply Hh].
  - apply Forall_app. split; [apply sign_chars_plain|].
    apply Forall_app. split; [apply digits_plain; exact Hip|].
    constructor; [split; reflexivity|].
    apply Forall_app. split; [apply digits_plain; exact Hfp|].
    apply (exponent_part_plain ex e Hex).
Qed.

Lemma of_chars_int (sign : bool) (ip ex : list ascii) (e : Z) :
  Forall (fun c => is_digit c = true) ip ->
  ip <> [] ->
  exponent_part ex e ->
  of_chars (sign_chars sign ++ ip ++ ex) =
  Some (Finite sign (N_of_digits ip) e).
Proof.
  intros Hip Hne Hex.
  rewrite of_chars_plain.
  - rewrite take_sign_head_digit by assumption.
    rewrite parse_number_int; try assumption.
    + rewrite (exponent_part_parse ex e Hex). reflexivity.
    + apply (exponent_part_head ex e Hex).
  - apply Forall_app. split; [apply sign_chars_plain|].
    apply Forall_app. split; [apply digits_plain; exact Hip|].
    apply (exponent_part_plain ex e Hex).
Qed.


Lemma N_of_digits_zero_cons (s : list ascii) :
  N_of_digits ("0"%char :: s) = N_of_digits s.
Proof. reflexivity. Qed.

Ltac shape t := transitivity (of_chars t); [reflexivity|].

(** [Decimal(str(d))] is [d] for a finite [d]. *)
Lemma of_chars_to_chars_finite (sign : bool) (c : N) (e : Z) :
  of_chars (to_chars (Finite sign c e)) = Some (Finite sign c e).
Proof.
  unfold to_chars. cbv zeta.
  pose proof (ndigits_pos c) as Hnd.
  pose proof (digits_all_digit c) as Hds.
  pose proof (digits_nonempty c) as Hne.
  pose proof (N_of_digits_digits c) as Hval.
  assert (Hlen : Z.of_nat (length (digits c)) = ndigits c) by reflexivity.
  destruct ((e <=? 0) && (-6 <? e + ndigits c)) eqn:Hcase.
  - apply andb_true_iff in Hcase. destruct Hcase as [He Hld].
    apply Z.leb_le in He. apply Z.ltb_lt in Hld.
    rewrite Z.eqb_refl.
    destruct (e + ndigits c <=? 0) eqn:Hdp.
    + apply Z.leb_le in Hdp.
      shape (sign_chars sign ++ ["0"%char]
               ++ "."%char :: (zeros (- (e + ndigits c)) ++ digits c) ++ []).
      rewrite (of_chars_point sign ["0"%char] _ [] 0).
      * f_equal. f_equal.
        -- change (["0"%char] ++ ?l) with ("0"%char :: l).
           rewrite N_of_digits_zero_cons, N_of_digits_zeros. exact Hval.
        -- rewrite length_app, Nat2Z.inj_add, length_zeros, Hlen by lia. lia.
      * repeat constructor.
      * apply Forall_app. split; [apply zeros_all_digit|exact Hds].
      * discriminate.
      * left. split; reflexivity.
    + apply Z.leb_gt in Hdp.
      destruct (ndigits c <=? e + ndigits c) eqn:Hfull.
      * apply Z.leb_le in Hfull. assert (e = 0) by lia. subst e.
        replace (0 + ndigits c - ndigits c) with 0 by lia.
        change (zeros 0) with (@nil ascii). rewrite !app_nil_r.
        transitivity (of_chars (sign_chars sign ++ digits c ++ []));
          [rewrite app_nil_r; reflexivity|].
        rewrite (of_chars_int sign (digits c) [] 0); try assumption.
        -- rewrite Hval. reflexivity.
        -- left. split; reflexivity.
      * apply Z.leb_gt in Hfull.
        shape (sign_chars sign ++ firstn (Z.to_nat (e + ndigits c)) (digits c)
                 ++ "."%char :: skipn (Z.to_nat (e + ndigits c)) (digits c) ++ []).
        rewrite (of_chars_point sign _ _ [] 0).
        -- rewrite firstn_skipn, Hval. f_equal. f_equal.
           rewrite length_drop. lia.
        -- apply Forall_take. exact Hds.
        -- apply Forall_drop. exact Hds.
        -- intros Hnil. apply (f_equal (@length ascii)) in Hnil.
           rewrite length_take in Hnil. simpl in Hnil. lia.
        -- left. split; reflexivity.
  - assert (Hne1 : e + ndigits c <> 1).
    { intros Heq. apply andb_false_iff in Hcase.
      destruct Hcase as [H|H]; [apply Z.leb_gt in H|apply Z.ltb_ge in H]; lia. }
    apply Z.eqb_neq in Hne1. rewrite Hne1.
    change (1 <=? 0) with false. cbv iota.
    destruct (ndigits c <=? 1) eqn:Hone.
    + apply Z.leb_le in Hone. assert (Hnd1 : ndigits c = 1) by lia.
      replace (1 - ndigits c) with 0 by lia.
      change (zeros 0) with (@nil ascii). rewrite app_nil_r.
      change ([] ++ ?l) with l.
      rewrite (of_chars_int sign (digits c) _ (e + ndigits c - 1)); try assumption.
      * rewrite Hval. f_equal. f_equal. lia.
      * right. reflexivity.
    + apply Z.leb_gt in Hone.
      shape (sign_chars sign ++ firstn (Z.to_nat 1) (digits c)
               ++ "."%char :: skipn (Z.to_nat 1) (digits c)
               ++ "E"%char :: signed_int_chars (e + ndigits c - 1)).
      rewrite (of_chars_point sign _ _ _ (e + ndigits c - 1)).
      * rewrite firstn_skipn, Hval. f_equal. f_equal.
        rewrite length_drop. lia.
      * apply Forall_take. exact Hds.
      * apply Forall_drop. exact Hds.
      * intros Hnil. apply (f_equal (@length ascii)) in Hnil.
        rewrite length_take in Hnil.
        change (Z.to_nat 1) with 1%nat in Hnil. simpl length in Hnil. lia.
      * right. reflexivity.
Qed.


Lemma map_lower_digits (ds : list ascii) :
  Forall (fun c => is_digit c = true) ds -> map lower ds = ds.
Proof.
  intros H. induction H as [|c ds Hc _ IH]; simpl; [reflexivity|].
  rewrite IH. f_equal. apply (digit_not_special c Hc).
Qed.

Lemma diag_chars_all_digit (diag : N) :
  Forall (fun c => is_digit c = true) (diag_chars diag).
Proof.
  unfold diag_chars. destruct (diag =? 0)%N; [constructor|apply digits_all_digit].
Qed.

Lemma N_of_digits_diag_chars (diag : N) : N_of_digits (diag_chars diag) = diag.
Proof.
  unfold diag_chars. destruct (diag =? 0)%N eqn:H.
  - apply N.eqb_eq in H. subst diag. reflexivity.
  - apply N_of_digits_digits.
Qed.

Lemma parse_number_no_digit (sign : bool) (c : ascii) (rest : list ascii) :
  is_digit c = false -> c <> "."%char -> parse_number sign (c :: rest) = None.
Proof.
  intros Hc Hp. unfold parse_number. simpl. rewrite Hc.
  destruct c as [[] [] [] [] [] [] [] []]; try reflexivity; congruence.
Qed.

(** [Decimal(str(d))] is [d] for a NaN [d]. *)
Lemma of_chars_to_chars_nan (sign signaling : bool) (diag : N) :
  of_chars (to_chars (NaN sign signaling diag)) = Some (NaN sign signaling diag).
Proof.
  pose proof (diag_chars_all_digit diag) as Hd.
  pose proof (N_of_digits_diag_chars diag) as Hv.
  rewrite of_chars_plain.
  - destruct signaling, sign; cbn [to_chars sign_chars chars list_ascii_of_string app take_sign];
      (rewrite parse_number_no_digit by (reflexivity || discriminate));
      unfold parse_special; cbn [map];
      rewrite (map_lower_digits _ Hd);
      change (lower "N"%char) with "n"%char;
      change (lower "a"%char) with "a"%char;
      try change (lower "s"%char) with "s"%char;
      cbn; rewrite (span_digits_all _ Hd), Hv; reflexivity.
  - destruct signaling, sign; cbn [to_chars sign_chars chars list_ascii_of_string app];
      repeat (constructor; [split; reflexivity|]);
      apply digits_plain, Hd.
Qed.

(** [Decimal(str(d))] is [d] for an infinite [d]. *)
Lemma of_chars_to_chars_inf (sign : bool) :
  of_chars (to_chars (Infinity sign)) = Some (Infinity sign).
Proof. destruct sign; reflexivity. Qed.

(** [Decimal(str(d)) == d], with the sign, the digits and the exponent of
    [d]: the string of a [Decimal] loses nothing. *)
Lemma of_string_to_string (d : Decimal) : of_string (to_string d) = Some d.
Proof.
  unfold of_string, to_string, chars.
  rewrite list_ascii_of_string_of_list_ascii.
  destruct d.
  - apply of_chars_to_chars_finite.
  - apply of_chars_to_chars_inf.
  - apply of_chars_to_chars_nan.
Qed.

(** [Decimal(str(n))] for an [int] [n]. *)
Lemma of_string_int_chars (n : Z) :
  of_string (string_of_list_ascii (int_chars n)) = Some (of_int n).
Proof.
  unfold of_string, chars. rewrite list_ascii_of_string_of_list_ascii.
  unfold int_chars, of_int.
  rewrite <- (app_nil_r (digits (Z.abs_N n))).
  rewrite (of_chars_int _ _ [] 0).
  - rewrite N_of_digits_digits. reflexivity.
  - apply digits_all_digit.
  - apply digits_nonempty.
  - left. split; reflexivity.
Qed.

End PyDecimalStrings.

(** ** Rounding, quantization and addition *)

Module PyDecimalArith.
Import PyDecimal PyDecimalFacts.

Lemma context_bounds :
  prec = 28 /\ Emax = 999999 /\ Etiny = -1000026 /\ Etop = 999972.
Proof. repeat split. Qed.

(** [_fix] leaves alone a value that fits the precision and the exponent
    range. *)
Lemma _fix_fits (sign : bool) (c : N) (e : Z) :
  Etiny <= e ->
  (if (c =? 0)%N then e <= Emax
   else ndigits c <= prec /\ adjusted c e <= Emax) ->
  _fix (Finite sign c e) = inr (Finite sign c e).
Proof.
  intros Hlo H. unfold _fix. destruct context_bounds as (Hp & Hmax & Htiny & Htop).
  destruct (c =? 0)%N eqn:Hc.
  - apply N.eqb_eq in Hc. subst c. do 2 f_equal. lia.
  - destruct H as [Hd Ha]. unfold adjusted in Ha.
    replace (Etop <? ndigits c + e - prec) with false
      by (symmetry; apply Z.ltb_ge; lia).
    destruct (ndigits c + e - prec <? Etiny) eqn:Hsub.
    + replace (e <? Etiny) with false by (symmetry; apply Z.ltb_ge; lia).
      reflexivity.
    + replace (e <? ndigits c + e - prec) with false
        by (symmetry; apply Z.ltb_ge; lia).
      reflexivity.
Qed.

Lemma _rescale_finite (sign : bool) (c : N) (e exp : Z) (rounding : Rounding) :
  exists c', _rescale (Finite sign c e) exp rounding = Finite sign c' exp.
Proof.
  unfold _rescale. destruct (c =? 0)%N; [eexists; reflexivity|].
  destruct (exp <=? e); eexists; reflexivity.
Qed.

Lemma _rescale_same_exp (sign : bool) (c : N) (e : Z) (rounding : Rounding) :
  _rescale (Finite sign c e) e rounding = Finite sign c e.
Proof.
  unfold _rescale. destruct (c =? 0)%N eqn:Hc.
  - apply N.eqb_eq in Hc. subst c. reflexivity.
  - rewrite Z.leb_refl. rewrite Z.sub_diag. change (pow10 0) with 1%N.
    rewrite N.mul_1_r. reflexivity.
Qed.

(** A successful [quantize] of a finite value keeps the sign and has the
    exponent of the quantizer. *)
Lemma quantize_finite (sign qs : bool) (c qc : N) (e qe : Z)
    (rounding : Rounding) (d : Decimal) :
  quantize (Finite sign c e) (Finite qs qc qe) rounding = inr d ->
  exists c', d = Finite sign c' qe.
Proof.
  unfold quantize. cbn [_check_nans].
  destruct ((Etiny <=? qe) && (qe <=? Emax)) eqn:Hrange; cbn [negb];
    [|discriminate].
  apply andb_true_iff in Hrange. destruct Hrange as [Hlo Hhi].
  apply Z.leb_le in Hlo. apply Z.leb_le in Hhi.
  destruct (c =? 0)%N eqn:Hc.
  - rewrite _fix_fits by (try exact Hlo; exact Hhi).
    intros H. inversion H. eexists; reflexivity.
  - destruct (Emax <? adjusted c e); [discriminate|].
    destruct (prec <? adjusted c e - qe + 1); [discriminate|].
    destruct (_rescale_finite sign c e qe rounding) as [c' Hr]. rewrite Hr.
    destruct (Emax <? adjusted c' qe) eqn:Ha; [discriminate|].
    destruct (prec <? ndigits c') eqn:Hd; [discriminate|].
    apply Z.ltb_ge in Ha. apply Z.ltb_ge in Hd.
    rewrite _fix_fits.
    + intros H. inversion H. eexists; reflexivity.
    + exact Hlo.
    + destruct (c' =? 0)%N; [exact Hhi|split; assumption].
Qed.

(** [quantize] at the exponent the value already has returns the value. *)
Lemma quantize_same_exp (sign qs : bool) (c qc : N) (e : Z)
    (rounding : Rounding) (d : Decimal) :
  quantize (Finite sign c e) (Finite qs qc e) rounding = inr d ->
  d = Finite sign c e.
Proof.
  unfold quantize. cbn [_check_nans].
  destruct ((Etiny <=? e) && (e <=? Emax)) eqn:Hrange; cbn [negb];
    [|discriminate].
  apply andb_true_iff in Hrange. destruct Hrange as [Hlo Hhi].
  apply Z.leb_le in Hlo. apply Z.leb_le in Hhi.
  destruct (c =? 0)%N eqn:Hc.
  - rewrite _fix_fits by (try exact Hlo; exact Hhi).
    apply N.eqb_eq in Hc. subst c. intros H. inversion H. reflexivity.
  - destruct (Emax <? adjusted c e) eqn:Ha; [discriminate|].
    destruct (prec <? adjusted c e - e + 1) eqn:Hd; [discriminate|].
    rewrite _rescale_same_exp. rewrite Ha.
    apply Z.ltb_ge in Ha. apply Z.ltb_ge in Hd. unfold adjusted in Hd.
    replace (prec <? ndigits c) with false by (symmetry; apply Z.ltb_ge; lia).
    rewrite _fix_fits.
    + intros H. inversion H. reflexivity.
    + exact Hlo.
    + rewrite Hc. split; [lia|exact Ha].
Qed.

Lemma quantize_nan (sign qs : bool) (diag qc : N) (qe : Z) (rounding : Rounding) :
  quantize (NaN sign false diag) (Finite qs qc qe) rounding =
  inr (_fix_nan (NaN sign false diag)).
Proof. reflexivity. Qed.

Lemma quantize_snan (sign : bool) (diag : N) (q : Decimal) (rounding : Rounding) :
  quantize (NaN sign true diag) q rounding = inl InvalidOperation.
Proof. reflexivity. Qed.

Lemma quantize_inf (sign qs : bool) (qc : N) (qe : Z) (rounding : Rounding) :
  quantize (Infinity sign) (Finite qs qc qe) rounding = inl InvalidOperation.
Proof. reflexivity. Qed.

Lemma _fix_nan_is_nan (sign : bool) (diag : N) :
  exists diag', _fix_nan (NaN sign false diag) = NaN sign false diag'.
Proof.
  unfold _fix_nan. destruct (prec <? ndigits diag); eexists; reflexivity.
Qed.

(** The quantizer of a currency is finite. *)
Lemma pow10_neg_finite (places : Z) (q : Decimal) :
  pow10_neg places = inr q -> exists c e, q = Finite false c e.
Proof.
  unfold pow10_neg.
  repeat match goal with |- context [if ?b then _ else _] => destruct b end;
    intros H; inversion H; eauto.
Qed.

Lemma pow10_neg_places (places : Z) :
  0 <= places <= - Etiny ->
  pow10_neg places = inr (Finite false 1 (- places)).
Proof.
  intros H. unfold pow10_neg.
  replace (0 <=? places) with true by (symmetry; apply Z.leb_le; lia).
  replace (- places <? Etiny) with false by (symmetry; apply Z.ltb_ge; lia).
  reflexivity.
Qed.


Lemma pow10_div_lower (c : N) (a k : Z) :
  0 <= a -> 0 <= k -> (pow10 (a + k) <= c)%N -> (pow10 a <= c / pow10 k)%N.
Proof.
  intros Ha Hk H. rewrite pow10_add in H by lia.
  pose proof (pow10_pos k) as Hpos.
  apply N.div_le_lower_bound; [lia|]. lia.
Qed.

(** What [_fix] returns for a finite value whose exponent is not below
    [Etiny]: the value itself, or a rounded value of a larger exponent whose
    coefficient fills the precision. *)
Lemma _fix_exp (sign : bool) (c : N) (e : Z) (d : Decimal) :
  Etiny <= e -> (c = 0%N -> e <= Emax) ->
  _fix (Finite sign c e) = inr d ->
  exists c' e', d = Finite sign c' e' /\
    ((e' = e /\ c' = c) \/ (e < e' /\ (pow10 (prec - 1) <= c')%N)).
Proof.
  intros Hlo Hz. unfold _fix.
  destruct context_bounds as (Hp & Hmax & Htiny & Htop).
  destruct (c =? 0)%N eqn:Hc.
  - apply N.eqb_eq in Hc. specialize (Hz Hc). subst c.
    intros H. inversion H. exists 0%N, e. split; [do 2 f_equal; lia|].
    left. split; reflexivity.
  - apply N.eqb_neq in Hc.
    destruct (Etop <? ndigits c + e - prec); [discriminate|].
    destruct (ndigits c + e - prec <? Etiny) eqn:Hsub.
    + replace (e <? Etiny) with false by (symmetry; apply Z.ltb_ge; lia).
      intros H. inversion H. exists c, e. split; [reflexivity|]. left. split; reflexivity.
    + apply Z.ltb_ge in Hsub.
      destruct (e <? ndigits c + e - prec) eqn:Hround.
      * apply Z.ltb_lt in Hround.
        replace (ndigits c + e - (ndigits c + e - prec) <? 0) with false
          by (symmetry; apply Z.ltb_ge; lia).
        set (k := ndigits c + e - prec - e).
        set (changed := _pick_rounding_function context_rounding sign c k).
        set (coeff := (c / pow10 k)%N).
        assert (Hcoeff : (pow10 (prec - 1) <= coeff)%N).
        { apply pow10_div_lower; [lia|unfold k; lia|].
          destruct (ndigits_bounds c ltac:(lia)) as [Hb _].
          replace (prec - 1 + k) with (ndigits c - 1) by (unfold k; lia).
          exact Hb. }
        set (coeff1 := if 0 <? changed then (coeff + 1)%N else coeff).
        assert (Hcoeff1 : (coeff <= coeff1)%N).
        { unfold coeff1. destruct (0 <? changed); lia. }
        destruct ((0 <? changed) && (prec <? ndigits coeff1)) eqn:Hcarry.
        -- destruct (Etop <? ndigits c + e - prec + 1); [discriminate|].
           intros H. inversion H. eexists _, _. split; [reflexivity|].
           right. split; [lia|].
           apply andb_true_iff in Hcarry. destruct Hcarry as [_ Hnd].
           apply Z.ltb_lt in Hnd.
           assert (Hpos1 : (0 < coeff1)%N) by (pose proof (pow10_pos (prec - 1)); lia).
           destruct (ndigits_bounds coeff1 Hpos1) as [Hb _].
           pose proof (pow10_le prec (ndigits coeff1 - 1) ltac:(lia)) as Hle.
           replace prec with (prec - 1 + 1) in Hle at 1 by lia.
           rewrite pow10_succ in Hle by lia.
           apply N.div_le_lower_bound; lia.
        -- destruct (Etop <? ndigits c + e - prec); [discriminate|].
           intros H. inversion H. eexists _, _. split; [reflexivity|].
           right. split; lia.
      * intros H. inversion H. exists c, e. split; [reflexivity|]. left. split; reflexivity.
Qed.

(** [quantize] refuses a value whose coefficient fills the precision and
    whose exponent is above the quantizer's. *)
Lemma quantize_too_many_digits (sign qs : bool) (c qc : N) (e qe : Z)
    (rounding : Rounding) :
  qe < e -> (pow10 (prec - 1) <= c)%N ->
  quantize (Finite sign c e) (Finite qs qc qe) rounding = inl InvalidOperation.
Proof.
  intros He Hc. unfold quantize. cbn [_check_nans].
  destruct (negb ((Etiny <=? qe) && (qe <=? Emax))); [reflexivity|].
  pose proof (pow10_pos (prec - 1)) as Hpos.
  replace (c =? 0)%N with false by (symmetry; apply N.eqb_neq; lia).
  destruct (Emax <? adjusted c e); [reflexivity|].
  pose proof (ndigits_ge_pow10 c (prec - 1) Hc) as Hnd.
  replace (prec <? adjusted c e - qe + 1) with true; [reflexivity|].
  symmetry. apply Z.ltb_lt. unfold adjusted. lia.
Qed.


(** Two operands of one exponent are left as they are. *)
Lemma _normalize_tmp_same_exp (c1 c2 : N) (e : Z) :
  _normalize_tmp (c1, e) (c2, e) = ((c1, e), (c2, e)).
Proof.
  unfold _normalize_tmp.
  pose proof (ndigits_pos c2) as Hnd.
  replace (ndigits c2 + e - 1 <? e + Z.min (-1) (ndigits c1 - prec - 2))
    with false by (symmetry; apply Z.ltb_ge; lia).
  rewrite Z.sub_diag. change (pow10 0) with 1%N. rewrite N.mul_1_r.
  reflexivity.
Qed.

Lemma _normalize_same_exp (c1 c2 : N) (e : Z) :
  _normalize (c1, e) (c2, e) = ((c1, e), (c2, e)).
Proof.
  unfold _normalize. cbn [snd]. rewrite Z.ltb_irrefl.
  apply _normalize_tmp_same_exp.
Qed.

Lemma _normalize_tmp_exp (tmp other : N * Z) :
  snd (fst (_normalize_tmp tmp other)) = snd (snd (_normalize_tmp tmp other)).
Proof.
  unfold _normalize_tmp. destruct tmp as [ti te], other as [oi oe].
  destruct (ndigits oi + oe - 1 <? te + Z.min (-1) (ndigits ti - prec - 2));
    reflexivity.
Qed.

(** After [_normalize] the two operands have one exponent. *)
Lemma _normalize_exp (op1 op2 : N * Z) :
  snd (fst (_normalize op1 op2)) = snd (snd (_normalize op1 op2)).
Proof.
  unfold _normalize. destruct (snd op1 <? snd op2).
  - pose proof (_normalize_tmp_exp op2 op1) as H.
    destruct (_normalize_tmp op2 op1) as [tmp other]. cbn [fst snd] in *.
    symmetry. exact H.
  - apply _normalize_tmp_exp.
Qed.

(** [_normalize] treats its operands alike. *)
Lemma _normalize_swap (op1 op2 : N * Z) :
  _normalize op2 op1 =
  (snd (_normalize op1 op2), fst (_normalize op1 op2)).
Proof.
  destruct op1 as [c1 e1], op2 as [c2 e2].
  destruct (Z.lt_trichotomy e1 e2) as [Hlt|[Heq|Hgt]].
  - unfold _normalize. cbn [snd].
    replace (e1 <? e2) with true by (symmetry; apply Z.ltb_lt; lia).
    replace (e2 <? e1) with false by (symmetry; apply Z.ltb_ge; lia).
    destruct (_normalize_tmp (c2, e2) (c1, e1)) as [tmp other]. reflexivity.
  - subst e2. rewrite !_normalize_same_exp. reflexivity.
  - unfold _normalize. cbn [snd].
    replace (e1 <? e2) with false by (symmetry; apply Z.ltb_ge; lia).
    replace (e2 <? e1) with true by (symmetry; apply Z.ltb_lt; lia).
    destruct (_normalize_tmp (c1, e1) (c2, e2)) as [tmp other]. reflexivity.
Qed.

(** [x + y == y + x], digit for digit, for operands that are not NaN. *)
Lemma add_comm (x y : Decimal) :
  is_nan x = false -> is_nan y = false -> add x y = add y x.
Proof.
  intros Hx Hy.
  destruct x as [s1 c1 e1|s1|s1 g1 d1], y as [s2 c2 e2|s2|s2 g2 d2];
    try discriminate; try reflexivity.
  - unfold add. cbn [_check_nans].
    rewrite (Z.min_comm e2 e1). rewrite (andb_comm (c2 =? 0)%N).
    rewrite (andb_comm s2 s1).
    destruct (c1 =? 0)%N eqn:Hc1, (c2 =? 0)%N eqn:Hc2; cbn [andb];
      try reflexivity.
    rewrite (_normalize_swap (c1, e1) (c2, e2)).
    pose proof (_normalize_exp (c1, e1) (c2, e2)) as Hexp.
    destruct (_normalize (c1, e1) (c2, e2)) as [[i1 x1] [i2 x2]].
    cbn [fst snd] in *. subst x2.
    rewrite (N.eqb_sym i2 i1).
    destruct s1, s2; cbn [eqb negb].
    + rewrite (N.add_comm i2 i1). reflexivity.
    + destruct (i1 =? i2)%N eqn:Heq; [reflexivity|].
      apply N.eqb_neq in Heq.
      destruct (i1 <? i2)%N eqn:Hlt.
      * apply N.ltb_lt in Hlt.
        replace (i2 <? i1)%N with false by (symmetry; apply N.ltb_ge; lia).
        reflexivity.
      * apply N.ltb_ge in Hlt.
        replace (i2 <? i1)%N with true by (symmetry; apply N.ltb_lt; lia).
        reflexivity.
    + destruct (i1 =? i2)%N eqn:Heq; [reflexivity|].
      apply N.eqb_neq in Heq.
      destruct (i1 <? i2)%N eqn:Hlt.
      * apply N.ltb_lt in Hlt.
        replace (i2 <? i1)%N with false by (symmetry; apply N.ltb_ge; lia).
        reflexivity.
      * apply N.ltb_ge in Hlt.
        replace (i2 <? i1)%N with true by (symmetry; apply N.ltb_lt; lia).
        reflexivity.
    + rewrite (N.add_comm i2 i1). reflexivity.
  - unfold add. cbn [_check_nans eqb]. destruct s1, s2; reflexivity.
Qed.

(** The sum of two finite values of one exponent is [_fix] of a value of
    that exponent. *)
Lemma add_same_exp (s1 s2 : bool) (c1 c2 : N) (e : Z) :
  exists s c, add (Finite s1 c1 e) (Finite s2 c2 e) = _fix (Finite s c e).
Proof.
  unfold add. cbn [_check_nans]. rewrite Z.min_id.
  replace (Z.max e (e - prec - 1)) with e by (unfold prec; lia).
  rewrite !_rescale_same_exp. rewrite _normalize_same_exp.
  repeat match goal with |- context [if ?b then _ else _] => destruct b end;
    eexists _, _; reflexivity.
Qed.

Lemma copy_negate_not_nan (d : Decimal) :
  is_nan (copy_negate d) = is_nan d.
Proof. destruct d; reflexivity. Qed.

Lemma _check_nans_not_nan (x y : Decimal) :
  is_nan x = false -> is_nan y = false -> _check_nans x y = None.
Proof. destruct x, y; try discriminate; reflexivity. Qed.

(** The difference of two finite values of one exponent, likewise. *)
Lemma sub_same_exp (s1 s2 : bool) (c1 c2 : N) (e : Z) :
  exists s c, sub (Finite s1 c1 e) (Finite s2 c2 e) = _fix (Finite s c e).
Proof.
  unfold sub. cbn [_check_nans copy_negate]. apply add_same_exp.
Qed.

(** A value that is not a NaN equals itself. *)
Lemma eq_refl_not_nan (d : Decimal) : is_nan d = false -> eq d d = inr true.
Proof.
  intros H. destruct d as [s c e|s|s g dg]; try discriminate.
  - unfold eq. cbn [is_snan is_nan orb]. f_equal. unfold _cmp.
    destruct (c =? 0)%N; [reflexivity|].
    destruct s; cbn [negb andb]; rewrite Z.eqb_refl, N.eqb_refl; reflexivity.
  - destruct s; reflexivity.
Qed.


(** A successful [quantize] of a finite value is its [_rescale]. *)
Lemma quantize_rescale (sign qs : bool) (c qc : N) (e qe : Z)
    (rounding : Rounding) (d : Decimal) :
  quantize (Finite sign c e) (Finite qs qc qe) rounding = inr d ->
  d = _rescale (Finite sign c e) qe rounding.
Proof.
  unfold quantize. cbn [_check_nans].
  destruct ((Etiny <=? qe) && (qe <=? Emax)) eqn:Hrange; cbn [negb];
    [|discriminate].
  apply andb_true_iff in Hrange. destruct Hrange as [Hlo Hhi].
  apply Z.leb_le in Hlo. apply Z.leb_le in Hhi.
  destruct (c =? 0)%N eqn:Hc.
  - rewrite _fix_fits by (try exact Hlo; exact Hhi).
    unfold _rescale. rewrite Hc. intros H. inversion H. reflexivity.
  - destruct (Emax <? adjusted c e); [discriminate|].
    destruct (prec <? adjusted c e - qe + 1); [discriminate|].
    destruct (_rescale_finite sign c e qe rounding) as [c' Hr]. rewrite Hr.
    destruct (Emax <? adjusted c' qe) eqn:Ha; [discriminate|].
    destruct (prec <? ndigits c') eqn:Hd; [discriminate|].
    apply Z.ltb_ge in Ha. apply Z.ltb_ge in Hd.
    rewrite _fix_fits.
    + intros H. inversion H. reflexivity.
    + exact Hlo.
    + destruct (c' =? 0)%N; [exact Hhi|split; assumption].
Qed.

(** [ROUND_UP] moves away from zero: the rescaled coefficient is the least
    one whose value is not below the value rescaled.  Both values are
    counted in units of the smaller exponent. *)
Lemma _rescale_round_up (sign : bool) (c : N) (e qe : Z) (c' : N) :
  _rescale (Finite sign c e) qe ROUND_UP = Finite sign c' qe ->
  (c * pow10 (e - Z.min e qe) <= c' * pow10 (qe - Z.min e qe)
   < c * pow10 (e - Z.min e qe) + pow10 (qe - Z.min e qe))%N.
Proof.
  unfold _rescale. destruct (c =? 0)%N eqn:Hc.
  - apply N.eqb_eq in Hc. subst c. intros H. inversion H.
    pose proof (pow10_pos (qe - Z.min e qe)). lia.
  - apply N.eqb_neq in Hc. destruct (qe <=? e) eqn:Hle.
    + apply Z.leb_le in Hle. intros H. inversion H.
      replace (Z.min e qe) with qe by lia. rewrite Z.sub_diag.
      change (pow10 0) with 1%N. lia.
    + apply Z.leb_gt in Hle. replace (Z.min e qe) with e by lia.
      rewrite Z.sub_diag. change (pow10 0) with 1%N. rewrite N.mul_1_r.
      cbn [_pick_rounding_function]. unfold _round_up, _round_down.
      destruct (ndigits c + e - qe <? 0) eqn:Hfew.
      * apply Z.ltb_lt in Hfew. intros H. inversion H.
        change (1 mod pow10 1 =? 0)%N with false. cbv iota.
        change (- -1 =? 1) with true. cbv iota.
        change (1 / pow10 1 + 1)%N with 1%N. rewrite N.mul_1_l.
        destruct (ndigits_bounds c ltac:(lia)) as [_ Hhi].
        pose proof (pow10_le (ndigits c) (qe - e) ltac:(lia)). lia.
      * intros H. inversion H as [Hc']. clear H. subst c'.
        pose proof (pow10_pos (qe - e)) as Hpos.
        pose proof (N.div_mod c (pow10 (qe - e)) ltac:(lia)) as Hdm.
        pose proof (N.mod_lt c (pow10 (qe - e)) ltac:(lia)) as Hm.
        generalize dependent (c / pow10 (qe - e))%N. intros q.
        generalize dependent (c mod pow10 (qe - e))%N. intros r.
        generalize dependent (pow10 (qe - e)). intros P.
        intros. destruct (r =? 0)%N eqn:Hr.
        -- change (- 0 =? 1) with false. cbv iota.
           apply N.eqb_eq in Hr. nia.
        -- change (- -1 =? 1) with true. cbv iota.
           apply N.eqb_neq in Hr. nia.
Qed.

(** Dividing by zero: a finite dividend raises, an infinite one gives an
    infinity. *)
Lemma truediv_zero (x : Decimal) (s : bool) (e : Z) :
  is_nan x = false ->
  match x with
  | Finite _ c _ =>
      truediv x (Finite s 0 e) =
      inl (if (c =? 0)%N then InvalidOperation else DivisionByZero)
  | Infinity s' => truediv x (Finite s 0 e) = inr (Infinity (xorb s' s))
  | NaN _ _ _ => False
  end.
Proof.
  intros H. destruct x as [s1 c1 e1|s1|s1 g1 d1]; try discriminate.
  - unfold truediv. cbn [_check_nans]. change (0 =? 0)%N with true. cbv iota.
    destruct (c1 =? 0)%N; reflexivity.
  - reflexivity.
Qed.

(** A quiet NaN divided by anything finite is the NaN. *)
Lemma truediv_nan (sign : bool) (diag : N) (s : bool) (c : N) (e : Z) :
  truediv (NaN sign false diag) (Finite s c e) =
  inr (_fix_nan (NaN sign false diag)).
Proof. reflexivity. Qed.

(** What passed [_fix] and then [quantize] at its own exponent is
    unchanged. *)
Lemma quantize_of_fix (sign qs : bool) (c qc : N) (e : Z)
    (rounding : Rounding) (d q : Decimal) :
  _fix (Finite sign c e) = inr d ->
  quantize d (Finite qs qc e) rounding = inr q ->
  q = d.
Proof.
  intros Hfix Hq.
  assert (Hrange : Etiny <= e <= Emax).
  { destruct d as [s' c' e'|s'|s' g' d']; unfold quantize in Hq;
      cbn [_check_nans] in Hq.
    - destruct ((Etiny <=? e) && (e <=? Emax)) eqn:Hr; cbn [negb] in Hq;
        [|discriminate].
      apply andb_true_iff in Hr. destruct Hr as [H1 H2].
      apply Z.leb_le in H1. apply Z.leb_le in H2. lia.
    - discriminate.
    - unfold _fix in Hfix.
      repeat match type of Hfix with
             | context [if ?b then _ else _] => destruct b
             end; discriminate. }
  destruct (_fix_exp sign c e d) as (c' & e' & -> & [[-> ->]|[He Hc]]);
    [lia|lia|exact Hfix| |].
  - apply quantize_same_exp in Hq. exact Hq.
  - rewrite quantize_too_many_digits in Hq by assumption. discriminate.
Qed.

End PyDecimalArith.

(** ** The operators, evaluated *)

Module MononFacts.
Import PyDecimal PyDecimalFacts PyDecimalStrings PyDecimalArith Monon.

Lemma bind_inr {A B : Type} (m : M A) (f : A -> M B) (h h' : Heap) (a : A) :
  m h = (inr a, h') -> bind m f h = f a h'.
Proof. intros H. unfold bind. rewrite H. reflexivity. Qed.

Lemma bind_inl {A B : Type} (m : M A) (f : A -> M B) (h h' : Heap) (e : Exception) :
  m h = (inl e, h') -> bind m f h = (inl e, h').
Proof. intros H. unfold bind. rewrite H. reflexivity. Qed.

(** A computation that returns went through both halves of a [bind]. *)
Lemma bind_inv {A B : Type} (m : M A) (f : A -> M B) (h h' : Heap) (b : B) :
  bind m f h = (inr b, h') ->
  exists a h1, m h = (inr a, h1) /\ f a h1 = (inr b, h').
Proof.
  unfold bind. destruct (m h) as [[e|a] h1]; [discriminate|]. eauto.
Qed.

Lemma bind_lift_inr {A B : Type} (a : A) (f : A -> M B) (h : Heap) :
  bind (lift (inr a)) f h = f a h.
Proof. reflexivity. Qed.

Lemma bind_lift_inl {A B : Type} (e : Exception) (f : A -> M B) (h : Heap) :
  bind (lift (inl e)) f h = (inl e, h).
Proof. reflexivity. Qed.

Lemma get_money_Some (h : Heap) (m : ref) (o : Money) :
  moneys h !! m = Some o -> get_money m h = (inr o, h).
Proof. intros H. unfold get_money. rewrite H. reflexivity. Qed.

Lemma get_money_inv (h h' : Heap) (m : ref) (o : Money) :
  get_money m h = (inr o, h') -> moneys h !! m = Some o /\ h' = h.
Proof.
  unfold get_money. destruct (moneys h !! m); intros H; inversion H. auto.
Qed.

Lemma get_list_Some (h : Heap) (l : ref) (ops : list MoneyOperation) :
  lists h !! l = Some ops -> get_list l h = (inr ops, h).
Proof. intros H. unfold get_list. rewrite H. reflexivity. Qed.

(** [formatted] and [str] read the heap and leave it as it is. *)
Lemma formatted_heap (m : ref) (h : Heap) : snd (formatted m h) = h.
Proof.
  unfold formatted, bind, get_money, lift.
  destruct (moneys h !! m); reflexivity.
Qed.

Lemma py_str_heap (v : PyValue) (h : Heap) : snd (py_str v h) = h.
Proof. destruct v; try reflexivity. apply formatted_heap. Qed.

Lemma clean_amount_heap (v : PyValue) (c : Currency) (h : Heap) :
  snd (clean_amount v c h) = h.
Proof.
  unfold clean_amount. pose proof (py_str_heap v h) as H.
  destruct (py_str v h) as [[e|text] h']; cbn [snd] in *; subst h'.
  - destruct e; reflexivity.
  - destruct (of_string text); reflexivity.
Qed.

(** [clean_amount] of a [Decimal] is its quantization: the way through
    [str] and back loses nothing. *)
Lemma clean_amount_Decimal (d : Decimal) (c : Currency) (h : Heap) :
  clean_amount (VDecimal d) c h = (lift_signal (quantize_amount c d None), h).
Proof.
  unfold clean_amount. cbn [py_str ret]. rewrite of_string_to_string.
  reflexivity.
Qed.

(** [clean_amount] of an [int]. *)
Lemma clean_amount_int (n : Z) (c : Currency) (h : Heap) :
  clean_amount (VInt n) c h =
  (lift_signal (quantize_amount c (of_int n) None), h).
Proof.
  unfold clean_amount. cbn [py_str ret]. rewrite of_string_int_chars.
  reflexivity.
Qed.

(** [Money.__init__], evaluated. *)
Lemma Money_init_eval (dp : CurrenciesProvider) (v : PyValue) (c : Currency)
    (h : Heap) :
  Money_init dp v (ACurrency c) h =
  match fst (clean_amount v c h) with
  | inl e => (inl e, h)
  | inr a => (inr (length (moneys h)), init_heap h c a)
  end.
Proof.
  unfold Money_init. cbn [clean_currency]. rewrite bind_lift_inr.
  pose proof (clean_amount_heap v c h) as Hh.
  unfold bind at 1.
  destruct (clean_amount v c h) as [[e|a] h']; cbn [fst snd] in *; subst h';
    [reflexivity|].
  unfold bind, alloc_money, MoneyOperation_init, copy_all, copy, bind,
    get_money, alloc_money, alloc_list, set_money, ret.
  cbn [moneys lists].
  rewrite list_lookup_middle by reflexivity.
  cbn [moneys lists]. f_equal.
  unfold init_heap, init_operation. f_equal.
  - rewrite <- app_assoc. cbn [app].
    rewrite (insert_app_r_alt (moneys h)) by lia.
    rewrite Nat.sub_diag. reflexivity.
  - rewrite length_app. cbn [length].
    replace (length (moneys h) + 1)%nat with (S (length (moneys h))) by lia.
    reflexivity.
Qed.


(** [_add_operation] with two [Money] operands, evaluated. *)
Lemma _add_operation_money_money (h : Heap) (r a b l : ref) (o oa ob : Money)
    (ops : list MoneyOperation) (op : MoneyOperator) :
  moneys h !! r = Some o -> operations o = Some l -> lists h !! l = Some ops ->
  moneys h !! a = Some oa -> moneys h !! b = Some ob ->
  _add_operation r op [VMoney a; VMoney b] h =
  (inr tt,
   {| moneys := moneys h ++ [oa; ob];
      lists :=
        <[l := ops ++
               [{| operator := op;
                   operands := [OMoney (length (moneys h));
                                OMoney (S (length (moneys h)))] |}]]>
          (lists h) |}).
Proof.
  intros Hr Hl Hops Ha Hb.
  unfold _add_operation. rewrite (bind_inr _ _ h h o) by (apply get_money_Some, Hr).
  rewrite Hl.
  unfold MoneyOperation_init, copy_all, copy, bind, get_money, alloc_money,
    get_list, set_list, ret.
  cbn [moneys lists]. rewrite Ha.
  cbn [moneys lists]. rewrite (lookup_app_l_Some _ _ _ _ Hb).
  cbn [moneys lists]. rewrite Hops.
  rewrite <- app_assoc. cbn [app]. rewrite length_app. cbn [length].
  replace (length (moneys h) + 1)%nat with (S (length (moneys h))) by lia.
  reflexivity.
Qed.

(** [_add_operation] with a [Money] and a [Decimal] operand, evaluated. *)
Lemma _add_operation_money_decimal (h : Heap) (r a l : ref) (o oa : Money)
    (d : Decimal) (ops : list MoneyOperation) (op : MoneyOperator) :
  moneys h !! r = Some o -> operations o = Some l -> lists h !! l = Some ops ->
  moneys h !! a = Some oa ->
  _add_operation r op [VMoney a; VDecimal d] h =
  (inr tt,
   {| moneys := moneys h ++ [oa];
      lists :=
        <[l := ops ++
               [{| operator := op;
                   operands := [OMoney (length (moneys h)); ODecimal d] |}]]>
          (lists h) |}).
Proof.
  intros Hr Hl Hops Ha.
  unfold _add_operation. rewrite (bind_inr _ _ h h o) by (apply get_money_Some, Hr).
  rewrite Hl.
  unfold MoneyOperation_init, copy_all, copy, bind, get_money, alloc_money,
    get_list, set_list, ret.
  cbn [moneys lists]. rewrite Ha.
  cbn [moneys lists]. rewrite Hops.
  reflexivity.
Qed.

Lemma init_heap_lookup_old (h : Heap) (c : Currency) (a : Decimal) (m : ref)
    (o : Money) :
  moneys h !! m = Some o -> moneys (init_heap h c a) !! m = Some o.
Proof. intros H. cbn [init_heap moneys]. apply lookup_app_l_Some, H. Qed.

Lemma init_heap_lookup_new (h : Heap) (c : Currency) (a : Decimal) :
  moneys (init_heap h c a) !! length (moneys h) =
  Some {| currency := c; amount := a; operations := Some (length (lists h)) |}.
Proof. cbn [init_heap moneys]. apply list_lookup_middle. reflexivity. Qed.

Lemma init_heap_lookup_log (h : Heap) (c : Currency) (a : Decimal) :
  lists (init_heap h c a) !! length (lists h) =
  Some [init_operation (S (length (moneys h)))].
Proof. cbn [init_heap lists]. apply list_lookup_middle. reflexivity. Qed.

Lemma insert_new_list {A : Type} (l : list A) (x y : A) :
  <[length l := y]> (l ++ [x]) = l ++ [y].
Proof.
  rewrite (insert_app_r_alt l) by lia. rewrite Nat.sub_diag. reflexivity.
Qed.

(** The end of an operator on two [Money] operands, evaluated: it fails
    where the quantization of the value fails. *)
Lemma new_result_money_money (dp : CurrenciesProvider) (h : Heap)
    (value : Decimal) (c : Currency) (op : MoneyOperator) (a b : ref)
    (oa ob : Money) :
  moneys h !! a = Some oa -> moneys h !! b = Some ob ->
  new_result dp value c op [VMoney a; VMoney b] h =
  match quantize_amount c value None with
  | inl sig => (inl (DecimalException sig), h)
  | inr q =>
      (inr (length (moneys h)),
       result_heap h c q op [oa; ob]
         [OMoney (S (S (length (moneys h)))); OMoney (S (S (S (length (moneys h)))))])
  end.
Proof.
  intros Ha Hb. unfold new_result. unfold bind at 1.
  rewrite Money_init_eval, clean_amount_Decimal. cbn [fst].
  destruct (quantize_amount c value None) as [sig|q]; cbn [lift_signal];
    [reflexivity|].
  unfold bind.
  rewrite (_add_operation_money_money (init_heap h c q) _ a b _ _ oa ob _ op
             (init_heap_lookup_new h c q) eq_refl (init_heap_lookup_log h c q)
             (init_heap_lookup_old h c q a oa Ha)
             (init_heap_lookup_old h c q b ob Hb)).
  unfold ret. f_equal. unfold result_heap. cbn [init_heap moneys lists].
  f_equal.
  - rewrite <- app_assoc. reflexivity.
  - rewrite insert_new_list. rewrite length_app. cbn [length app].
    replace (length (moneys h) + 2)%nat with (S (S (length (moneys h)))) by lia.
    reflexivity.
Qed.

(** The same for a [Money] and a [Decimal] operand. *)
Lemma new_result_money_decimal (dp : CurrenciesProvider) (h : Heap)
    (value d : Decimal) (c : Currency) (op : MoneyOperator) (a : ref)
    (oa : Money) :
  moneys h !! a = Some oa ->
  new_result dp value c op [VMoney a; VDecimal d] h =
  match quantize_amount c value None with
  | inl sig => (inl (DecimalException sig), h)
  | inr q =>
      (inr (length (moneys h)),
       result_heap h c q op [oa]
         [OMoney (S (S (length (moneys h)))); ODecimal d])
  end.
Proof.
  intros Ha. unfold new_result. unfold bind at 1.
  rewrite Money_init_eval, clean_amount_Decimal. cbn [fst].
  destruct (quantize_amount c value None) as [sig|q]; cbn [lift_signal];
    [reflexivity|].
  unfold bind.
  rewrite (_add_operation_money_decimal (init_heap h c q) _ a _ _ oa d _ op
             (init_heap_lookup_new h c q) eq_refl (init_heap_lookup_log h c q)
             (init_heap_lookup_old h c q a oa Ha)).
  unfold ret. f_equal. unfold result_heap. cbn [init_heap moneys lists].
  f_equal.
  - rewrite <- app_assoc. reflexivity.
  - rewrite insert_new_list. rewrite length_app. cbn [length app].
    replace (length (moneys h) + 2)%nat with (S (S (length (moneys h)))) by lia.
    reflexivity.
Qed.


(** [_clean_operand]: a number is promoted to a [Money] of the receiver's
    currency. *)
Lemma _clean_operand_number (dp : CurrenciesProvider) (h : Heap) (a : ref)
    (oa : Money) (v : PyValue) :
  moneys h !! a = Some oa -> is_Number v = true ->
  _clean_operand dp a v h = Money_init dp v (ACurrency (currency oa)) h.
Proof.
  intros Ha Hv. unfold _clean_operand.
  rewrite (bind_inr _ _ h h oa) by (apply get_money_Some, Ha).
  rewrite Hv. reflexivity.
Qed.

(** [_clean_operand]: a [Money] of the receiver's currency code is
    returned as it is. *)
Lemma _clean_operand_money (dp : CurrenciesProvider) (h : Heap) (a b : ref)
    (oa ob : Money) :
  moneys h !! a = Some oa -> moneys h !! b = Some ob ->
  Currency_eq (currency ob) (currency oa) = true ->
  _clean_operand dp a (VMoney b) h = (inr b, h).
Proof.
  intros Ha Hb Heq. unfold _clean_operand.
  rewrite (bind_inr _ _ h h oa) by (apply get_money_Some, Ha).
  cbn [is_Number].
  rewrite (bind_inr _ _ h h ob) by (apply get_money_Some, Hb).
  rewrite Heq. reflexivity.
Qed.

(** [_clean_operand]: a [Money] of another currency code is refused. *)
Lemma _clean_operand_mismatch (dp : CurrenciesProvider) (h : Heap) (a b : ref)
    (oa ob : Money) :
  moneys h !! a = Some oa -> moneys h !! b = Some ob ->
  Currency_eq (currency ob) (currency oa) = false ->
  _clean_operand dp a (VMoney b) h =
  (inl (CurrencyMismatch (currency oa) (currency ob)), h).
Proof.
  intros Ha Hb Heq. unfold _clean_operand.
  rewrite (bind_inr _ _ h h oa) by (apply get_money_Some, Ha).
  cbn [is_Number].
  rewrite (bind_inr _ _ h h ob) by (apply get_money_Some, Hb).
  rewrite Heq. reflexivity.
Qed.

(** [_clean_operand]: anything else is refused. *)
Lemma _clean_operand_other (dp : CurrenciesProvider) (h : Heap) (a : ref)
    (oa : Money) (v : PyValue) :
  moneys h !! a = Some oa -> is_Number v = false ->
  (forall b, v <> VMoney b) ->
  _clean_operand dp a v h = (inl (InvalidOperand v), h).
Proof.
  intros Ha Hv Hm. unfold _clean_operand.
  rewrite (bind_inr _ _ h h oa) by (apply get_money_Some, Ha).
  rewrite Hv. destruct v; try reflexivity. exfalso. eapply Hm. reflexivity.
Qed.

(** [a + b] for two [Money] of one currency code, evaluated. *)
Lemma Money_add_money_eval (dp : CurrenciesProvider) (h : Heap) (a b : ref)
    (oa ob : Money) :
  moneys h !! a = Some oa -> moneys h !! b = Some ob ->
  Currency_eq (currency ob) (currency oa) = true ->
  Money_add dp a (VMoney b) h =
  match add (amount oa) (amount ob) with
  | inl sig => (inl (DecimalException sig), h)
  | inr s => new_result dp s (currency oa) ADDITION [VMoney a; VMoney b] h
  end.
Proof.
  intros Ha Hb Heq. unfold Money_add.
  rewrite (bind_inr _ _ h h b) by (eapply _clean_operand_money; eassumption).
  rewrite (bind_inr _ _ h h oa) by (apply get_money_Some, Ha).
  rewrite (bind_inr _ _ h h ob) by (apply get_money_Some, Hb).
  destruct (add (amount oa) (amount ob)) as [sig|s]; reflexivity.
Qed.

(** [a - b] for two [Money] of one currency code, evaluated. *)
Lemma Money_sub_money_eval (dp : CurrenciesProvider) (h : Heap) (a b : ref)
    (oa ob : Money) :
  moneys h !! a = Some oa -> moneys h !! b = Some ob ->
  Currency_eq (currency ob) (currency oa) = true ->
  Money_sub dp a (VMoney b) h =
  match sub (amount oa) (amount ob) with
  | inl sig => (inl (DecimalException sig), h)
  | inr s => new_result dp s (currency oa) SUBSTRACTION [VMoney a; VMoney b] h
  end.
Proof.
  intros Ha Hb Heq. unfold Money_sub.
  rewrite (bind_inr _ _ h h b) by (eapply _clean_operand_money; eassumption).
  rewrite (bind_inr _ _ h h oa) by (apply get_money_Some, Ha).
  rewrite (bind_inr _ _ h h ob) by (apply get_money_Some, Hb).
  destruct (sub (amount oa) (amount ob)) as [sig|s]; reflexivity.
Qed.

(** [a * v] for a number [v], evaluated. *)
Lemma Money_mul_eval (dp : CurrenciesProvider) (h : Heap) (a : ref)
    (oa : Money) (v : PyValue) :
  moneys h !! a = Some oa -> is_Number v = true ->
  Money_mul dp a v h =
  match fst (clean_amount v (currency oa) h) with
  | inl e => (inl e, h)
  | inr cleaned_amount =>
      match mul (amount oa) cleaned_amount with
      | inl sig => (inl (DecimalException sig), h)
      | inr p =>
          new_result dp p (currency oa) MULTIPLICATION
            [VMoney a; VDecimal cleaned_amount] h
      end
  end.
Proof.
  intros Ha Hv. unfold Money_mul. rewrite Hv. cbn [negb].
  rewrite (bind_inr _ _ h h oa) by (apply get_money_Some, Ha).
  unfold bind at 1. pose proof (clean_amount_heap v (currency oa) h) as Hh.
  destruct (clean_amount v (currency oa) h) as [[e|cleaned] h'];
    cbn [fst snd] in *; subst h'; [reflexivity|].
  destruct (mul (amount oa) cleaned) as [sig|p]; reflexivity.
Qed.

(** [a / v], evaluated: whatever [v] is, it goes to [clean_amount]. *)
Lemma Money_truediv_eval (dp : CurrenciesProvider) (h : Heap) (a : ref)
    (oa : Money) (v : PyValue) :
  moneys h !! a = Some oa ->
  Money_truediv dp a v h =
  match fst (clean_amount v (currency oa) h) with
  | inl e => (inl e, h)
  | inr cleaned_amount =>
      match truediv (amount oa) cleaned_amount with
      | inl sig => (inl (DecimalException sig), h)
      | inr p =>
          new_result dp p (currency oa) DIVISION
            [VMoney a; VDecimal cleaned_amount] h
      end
  end.
Proof.
  intros Ha. unfold Money_truediv.
  rewrite (bind_inr _ _ h h oa) by (apply get_money_Some, Ha).
  unfold bind at 1. pose proof (clean_amount_heap v (currency oa) h) as Hh.
  destruct (clean_amount v (currency oa) h) as [[e|cleaned] h'];
    cbn [fst snd] in *; subst h'; [reflexivity|].
  destruct (truediv (amount oa) cleaned) as [sig|p]; reflexivity.
Qed.


Lemma Currency_eq_refl (c : Currency) : Currency_eq c c = true.
Proof. unfold Currency_eq. apply String.eqb_refl. Qed.

Lemma Currency_eq_sym (c1 c2 : Currency) :
  Currency_eq c1 c2 = Currency_eq c2 c1.
Proof. unfold Currency_eq. apply String.eqb_sym. Qed.

(** The operators on an operand that is a number: the number is first made
    a [Money] of the receiver's currency, and the operator goes on as for
    that [Money]. *)
Lemma _clean_operand_promote {B : Type} (dp : CurrenciesProvider) (h : Heap)
    (a : ref) (oa : Money) (v : PyValue) (K : ref -> M B) :
  moneys h !! a = Some oa -> is_Number v = true ->
  bind (_clean_operand dp a v) K h =
  bind (Money_init dp v (ACurrency (currency oa)))
       (fun other => bind (_clean_operand dp a (VMoney other)) K) h.
Proof.
  intros Ha Hv. unfold bind at 1 2.
  rewrite (_clean_operand_number dp h a oa v Ha Hv).
  rewrite Money_init_eval.
  destruct (fst (clean_amount v (currency oa) h)) as [e|q]; [reflexivity|].
  unfold bind.
  rewrite (_clean_operand_money dp _ a _ oa _
             (init_heap_lookup_old _ _ _ _ _ Ha) (init_heap_lookup_new _ _ _)
             (Currency_eq_refl _)).
  reflexivity.
Qed.

(** [a += b] for two [Money] of one currency code, evaluated: the operation
    is recorded, and stays recorded when the addition then raises. *)
Lemma Money_iadd_money_eval (dp : CurrenciesProvider) (h : Heap) (a b l : ref)
    (oa ob : Money) (ops : list MoneyOperation) :
  moneys h !! a = Some oa -> moneys h !! b = Some ob ->
  Currency_eq (currency ob) (currency oa) = true ->
  operations oa = Some l -> lists h !! l = Some ops ->
  Money_iadd dp a (VMoney b) h =
  match add (amount oa) (amount ob) with
  | inl sig =>
      (inl (DecimalException sig), recorded_heap h l ops ADDITION oa ob)
  | inr s =>
      (inr a, rebound_heap (recorded_heap h l ops ADDITION oa ob) a s oa)
  end.
Proof.
  intros Ha Hb Heq Hl Hops. unfold Money_iadd.
  rewrite (bind_inr _ _ h h b) by (eapply _clean_operand_money; eassumption).
  rewrite (bind_inr _ _ h _ tt)
    by (eapply _add_operation_money_money; eassumption).
  fold (recorded_heap h l ops ADDITION oa ob).
  assert (Ha' : moneys (recorded_heap h l ops ADDITION oa ob) !! a = Some oa)
    by (apply lookup_app_l_Some, Ha).
  assert (Hb' : moneys (recorded_heap h l ops ADDITION oa ob) !! b = Some ob)
    by (apply lookup_app_l_Some, Hb).
  rewrite (bind_inr _ _ _ _ oa) by (apply get_money_Some, Ha').
  rewrite (bind_inr _ _ _ _ ob) by (apply get_money_Some, Hb').
  destruct (add (amount oa) (amount ob)) as [sig|s]; reflexivity.
Qed.

(** [a -= b], likewise. *)
Lemma Money_isub_money_eval (dp : CurrenciesProvider) (h : Heap) (a b l : ref)
    (oa ob : Money) (ops : list MoneyOperation) :
  moneys h !! a = Some oa -> moneys h !! b = Some ob ->
  Currency_eq (currency ob) (currency oa) = true ->
  operations oa = Some l -> lists h !! l = Some ops ->
  Money_isub dp a (VMoney b) h =
  match sub (amount oa) (amount ob) with
  | inl sig =>
      (inl (DecimalException sig), recorded_heap h l ops SUBSTRACTION oa ob)
  | inr s =>
      (inr a, rebound_heap (recorded_heap h l ops SUBSTRACTION oa ob) a s oa)
  end.
Proof.
  intros Ha Hb Heq Hl Hops. unfold Money_isub.
  rewrite (bind_inr _ _ h h b) by (eapply _clean_operand_money; eassumption).
  rewrite (bind_inr _ _ h _ tt)
    by (eapply _add_operation_money_money; eassumption).
  fold (recorded_heap h l ops SUBSTRACTION oa ob).
  assert (Ha' : moneys (recorded_heap h l ops SUBSTRACTION oa ob) !! a = Some oa)
    by (apply lookup_app_l_Some, Ha).
  assert (Hb' : moneys (recorded_heap h l ops SUBSTRACTION oa ob) !! b = Some ob)
    by (apply lookup_app_l_Some, Hb).
  rewrite (bind_inr _ _ _ _ oa) by (apply get_money_Some, Ha').
  rewrite (bind_inr _ _ _ _ ob) by (apply get_money_Some, Hb').
  destruct (sub (amount oa) (amount ob)) as [sig|s]; reflexivity.
Qed.

End MononFacts.

(** ** The operators, read backwards *)

Module MononInv.
Import PyDecimal PyDecimalFacts PyDecimalStrings PyDecimalArith Monon MononFacts.

(** A successful [Money.__init__], read backwards. *)
Lemma Money_init_inv (dp : CurrenciesProvider) (v : PyValue) (carg : CurrencyArg)
    (h h' : Heap) (r : ref) :
  Money_init dp v carg h = (inr r, h') ->
  exists c a,
    clean_currency dp carg = inr c /\
    fst (clean_amount v c h) = inr a /\
    r = length (moneys h) /\ h' = init_heap h c a.
Proof.
  intros H.
  destruct (clean_currency dp carg) as [e|c] eqn:Hc.
  - unfold Money_init in H. rewrite Hc in H. discriminate.
  - assert (Heq : Money_init dp v carg h = Money_init dp v (ACurrency c) h).
    { unfold Money_init. rewrite Hc. reflexivity. }
    rewrite Heq, Money_init_eval in H.
    destruct (fst (clean_amount v c h)) as [e|a] eqn:Ha; [discriminate|].
    inversion H. exists c, a. auto.
Qed.

(** A successful [_clean_operand], read backwards. *)
Lemma _clean_operand_inv (dp : CurrenciesProvider) (h h' : Heap) (a b : ref)
    (v : PyValue) :
  _clean_operand dp a v h = (inr b, h') ->
  exists oa,
    moneys h !! a = Some oa /\
    ((is_Number v = true /\
      Money_init dp v (ACurrency (currency oa)) h = (inr b, h')) \/
     (exists ob, v = VMoney b /\ h' = h /\ moneys h !! b = Some ob /\
                 Currency_eq (currency ob) (currency oa) = true)).
Proof.
  intros H. unfold _clean_operand in H.
  apply bind_inv in H. destruct H as (oa & h1 & Hget & H).
  apply get_money_inv in Hget. destruct Hget as [Ha ->].
  exists oa. split; [exact Ha|].
  destruct (is_Number v) eqn:Hv; [left; auto|].
  right. destruct v; try discriminate.
  apply bind_inv in H. destruct H as (ob & h1 & Hget & H).
  apply get_money_inv in Hget. destruct Hget as [Hb ->].
  destruct (Currency_eq (currency ob) (currency oa)) eqn:Heq; [|discriminate].
  inversion H. subst. exists ob. auto.
Qed.

Lemma result_heap_log (h : Heap) (c : Currency) (q : Decimal)
    (op : MoneyOperator) (copies : list Money) (recorded : list Operand) :
  log_of (result_heap h c q op copies recorded) (length (moneys h)) =
  Some [init_operation (S (length (moneys h)));
        {| operator := op; operands := recorded |}].
Proof.
  unfold log_of, result_heap. cbn [moneys lists app].
  rewrite list_lookup_middle by reflexivity. cbn [operations].
  apply list_lookup_middle. reflexivity.
Qed.

Lemma result_heap_lookup_new (h : Heap) (c : Currency) (q : Decimal)
    (op : MoneyOperator) (copies : list Money) (recorded : list Operand) :
  moneys (result_heap h c q op copies recorded) !! length (moneys h) =
  Some {| currency := c; amount := q; operations := Some (length (lists h)) |}.
Proof. cbn [result_heap moneys app]. apply list_lookup_middle. reflexivity. Qed.

Lemma result_heap_lookup_old (h : Heap) (c : Currency) (q : Decimal)
    (op : MoneyOperator) (copies : list Money) (recorded : list Operand)
    (m : ref) (o : Money) :
  moneys h !! m = Some o ->
  moneys (result_heap h c q op copies recorded) !! m = Some o.
Proof. intros H. cbn [result_heap moneys]. apply lookup_app_l_Some, H. Qed.

Lemma init_heap_log (h : Heap) (c : Currency) (a : Decimal) :
  log_of (init_heap h c a) (length (moneys h)) =
  Some [init_operation (S (length (moneys h)))].
Proof.
  unfold log_of. rewrite init_heap_lookup_new. cbn [operations].
  apply init_heap_lookup_log.
Qed.

Lemma new_result_money_money_inv (dp : CurrenciesProvider) (h h' : Heap)
    (value : Decimal) (c : Currency) (op : MoneyOperator) (a b r : ref)
    (oa ob : Money) :
  moneys h !! a = Some oa -> moneys h !! b = Some ob ->
  new_result dp value c op [VMoney a; VMoney b] h = (inr r, h') ->
  is_result h' r c value op /\
  (forall m o, moneys h !! m = Some o -> moneys h' !! m = Some o).
Proof.
  intros Ha Hb H. rewrite (new_result_money_money dp h value c op a b oa ob Ha Hb) in H.
  destruct (quantize_amount c value None) as [sig|q] eqn:Hq; [discriminate|].
  inversion H. subst r h'. split.
  - unfold is_result. eexists q, (length (lists h)), _.
    split; [exact Hq|]. split.
    + apply result_heap_lookup_new.
    + cbn [result_heap lists]. apply list_lookup_middle. reflexivity.
  - intros m o Hm. apply result_heap_lookup_old, Hm.
Qed.

Lemma new_result_money_decimal_inv (dp : CurrenciesProvider) (h h' : Heap)
    (value d : Decimal) (c : Currency) (op : MoneyOperator) (a r : ref)
    (oa : Money) :
  moneys h !! a = Some oa ->
  new_result dp value c op [VMoney a; VDecimal d] h = (inr r, h') ->
  is_result h' r c value op /\
  (forall m o, moneys h !! m = Some o -> moneys h' !! m = Some o).
Proof.
  intros Ha H. rewrite (new_result_money_decimal dp h value d c op a oa Ha) in H.
  destruct (quantize_amount c value None) as [sig|q] eqn:Hq; [discriminate|].
  inversion H. subst r h'. split.
  - unfold is_result. eexists q, (length (lists h)), _.
    split; [exact Hq|]. split.
    + apply result_heap_lookup_new.
    + cbn [result_heap lists]. apply list_lookup_middle. reflexivity.
  - intros m o Hm. apply result_heap_lookup_old, Hm.
Qed.


Lemma init_heap_lists_old (h : Heap) (c : Currency) (a : Decimal) (l : ref)
    (ops : list MoneyOperation) :
  lists h !! l = Some ops -> lists (init_heap h c a) !! l = Some ops.
Proof. intros H. cbn [init_heap lists]. apply lookup_app_l_Some, H. Qed.

(** After a successful [_clean_operand] the receiver and the operand are
    two objects of one currency code, and what was on the heap is
    unchanged. *)
Lemma _clean_operand_facts (dp : CurrenciesProvider) (h h1 : Heap) (a b : ref)
    (v : PyValue) :
  _clean_operand dp a v h = (inr b, h1) ->
  exists oa ob,
    moneys h !! a = Some oa /\ moneys h1 !! a = Some oa /\
    moneys h1 !! b = Some ob /\
    Currency_eq (currency ob) (currency oa) = true /\
    (forall m o, moneys h !! m = Some o -> moneys h1 !! m = Some o) /\
    (forall l ops, lists h !! l = Some ops -> lists h1 !! l = Some ops).
Proof.
  intros H. apply _clean_operand_inv in H.
  destruct H as (oa & Ha & [[Hv Hinit]|(ob & -> & -> & Hb & Heq)]).
  - apply Money_init_inv in Hinit.
    destruct Hinit as (c & q & Hc & Hq & -> & ->).
    cbn [clean_currency] in Hc. inversion Hc. subst c.
    eexists oa, _. split; [exact Ha|]. split; [apply init_heap_lookup_old, Ha|].
    split; [apply init_heap_lookup_new|]. split; [apply Currency_eq_refl|].
    split.
    + intros m o Hm. apply init_heap_lookup_old, Hm.
    + intros l ops Hl. apply init_heap_lists_old, Hl.
  - exists oa, ob. auto 10.
Qed.

(** A successful [a + v], read backwards. *)
Lemma Money_add_inv (dp : CurrenciesProvider) (h h' : Heap) (a r : ref)
    (v : PyValue) :
  Money_add dp a v h = (inr r, h') ->
  exists oa ob b h1 s,
    _clean_operand dp a v h = (inr b, h1) /\
    moneys h !! a = Some oa /\ moneys h1 !! a = Some oa /\
    moneys h1 !! b = Some ob /\
    add (amount oa) (amount ob) = inr s /\
    is_result h' r (currency oa) s ADDITION /\
    (forall m o, moneys h !! m = Some o -> moneys h' !! m = Some o).
Proof.
  intros H. unfold Money_add in H.
  apply bind_inv in H. destruct H as (b & h1 & Hclean & H).
  destruct (_clean_operand_facts dp h h1 a b v Hclean)
    as (oa & ob & Ha & Ha1 & Hb1 & Heq & Hframe & _).
  assert (Hadd : Money_add dp a (VMoney b) h1 = (inr r, h')).
  { unfold Money_add.
    rewrite (bind_inr _ _ h1 h1 b)
      by (eapply _clean_operand_money; eassumption).
    exact H. }
  rewrite (Money_add_money_eval dp h1 a b oa ob Ha1 Hb1 Heq) in Hadd.
  destruct (add (amount oa) (amount ob)) as [sig|s] eqn:Hs; [discriminate|].
  destruct (new_result_money_money_inv dp h1 h' s (currency oa) ADDITION a b r
              oa ob Ha1 Hb1 Hadd) as [Hres Hframe'].
  exists oa, ob, b, h1, s. repeat split; auto.
Qed.

(** A successful [a - v], read backwards. *)
Lemma Money_sub_inv (dp : CurrenciesProvider) (h h' : Heap) (a r : ref)
    (v : PyValue) :
  Money_sub dp a v h = (inr r, h') ->
  exists oa ob b h1 s,
    _clean_operand dp a v h = (inr b, h1) /\
    moneys h !! a = Some oa /\ moneys h1 !! a = Some oa /\
    moneys h1 !! b = Some ob /\
    sub (amount oa) (amount ob) = inr s /\
    is_result h' r (currency oa) s SUBSTRACTION /\
    (forall m o, moneys h !! m = Some o -> moneys h' !! m = Some o).
Proof.
  intros H. unfold Money_sub in H.
  apply bind_inv in H. destruct H as (b & h1 & Hclean & H).
  destruct (_clean_operand_facts dp h h1 a b v Hclean)
    as (oa & ob & Ha & Ha1 & Hb1 & Heq & Hframe & _).
  assert (Hsub : Money_sub dp a (VMoney b) h1 = (inr r, h')).
  { unfold Money_sub.
    rewrite (bind_inr _ _ h1 h1 b)
      by (eapply _clean_operand_money; eassumption).
    exact H. }
  rewrite (Money_sub_money_eval dp h1 a b oa ob Ha1 Hb1 Heq) in Hsub.
  destruct (sub (amount oa) (amount ob)) as [sig|s] eqn:Hs; [discriminate|].
  destruct (new_result_money_money_inv dp h1 h' s (currency oa) SUBSTRACTION
              a b r oa ob Ha1 Hb1 Hsub) as [Hres Hframe'].
  exists oa, ob, b, h1, s. repeat split; auto.
Qed.

(** A successful [a * v], read backwards. *)
Lemma Money_mul_inv (dp : CurrenciesProvider) (h h' : Heap) (a r : ref)
    (v : PyValue) :
  Money_mul dp a v h = (inr r, h') ->
  exists oa cleaned_amount p,
    is_Number v = true /\
    moneys h !! a = Some oa /\
    fst (clean_amount v (currency oa) h) = inr cleaned_amount /\
    mul (amount oa) cleaned_amount = inr p /\
    is_result h' r (currency oa) p MULTIPLICATION /\
    (forall m o, moneys h !! m = Some o -> moneys h' !! m = Some o).
Proof.
  intros H.
  destruct (is_Number v) eqn:Hv;
    [|unfold Money_mul in H; rewrite Hv in H; discriminate].
  assert (Hget : exists oa, moneys h !! a = Some oa).
  { unfold Money_mul in H. rewrite Hv in H. cbn [negb] in H.
    apply bind_inv in H. destruct H as (oa & h1 & Hget & _).
    apply get_money_inv in Hget. destruct Hget as [Ha _]. eauto. }
  destruct Hget as [oa Ha].
  rewrite (Money_mul_eval dp h a oa v Ha Hv) in H.
  destruct (fst (clean_amount v (currency oa) h)) as [e|cleaned] eqn:Hc;
    [discriminate|].
  destruct (mul (amount oa) cleaned) as [sig|p] eqn:Hp; [discriminate|].
  destruct (new_result_money_decimal_inv dp h h' p cleaned (currency oa)
              MULTIPLICATION a r oa Ha H) as [Hres Hframe].
  exists oa, cleaned, p. repeat split; auto.
Qed.

(** A successful [a / v], read backwards. *)
Lemma Money_truediv_inv (dp : CurrenciesProvider) (h h' : Heap) (a r : ref)
    (v : PyValue) :
  Money_truediv dp a v h = (inr r, h') ->
  exists oa cleaned_amount p,
    moneys h !! a = Some oa /\
    fst (clean_amount v (currency oa) h) = inr cleaned_amount /\
    truediv (amount oa) cleaned_amount = inr p /\
    is_result h' r (currency oa) p DIVISION /\
    (forall m o, moneys h !! m = Some o -> moneys h' !! m = Some o).
Proof.
  intros H.
  assert (Hget : exists oa, moneys h !! a = Some oa).
  { unfold Money_truediv in H.
    apply bind_inv in H. destruct H as (oa & h1 & Hget & _).
    apply get_money_inv in Hget. destruct Hget as [Ha _]. eauto. }
  destruct Hget as [oa Ha].
  rewrite (Money_truediv_eval dp h a oa v Ha) in H.
  destruct (fst (clean_amount v (currency oa) h)) as [e|cleaned] eqn:Hc;
    [discriminate|].
  destruct (truediv (amount oa) cleaned) as [sig|p] eqn:Hp; [discriminate|].
  destruct (new_result_money_decimal_inv dp h h' p cleaned (currency oa)
              DIVISION a r oa Ha H) as [Hres Hframe].
  exists oa, cleaned, p. repeat split; auto.
Qed.


(** A successful [_add_operation] has found the log of the receiver. *)
Lemma _add_operation_money_money_inv (h h' : Heap) (r a b : ref)
    (o oa ob : Money) (op : MoneyOperator) :
  moneys h !! r = Some o -> moneys h !! a = Some oa -> moneys h !! b = Some ob ->
  _add_operation r op [VMoney a; VMoney b] h = (inr tt, h') ->
  exists l ops, operations o = Some l /\ lists h !! l = Some ops.
Proof.
  intros Hr Ha Hb H. unfold _add_operation in H.
  rewrite (bind_inr _ _ h h o) in H by (apply get_money_Some, Hr).
  destruct (operations o) as [l|]; [|discriminate].
  destruct (lists h !! l) as [ops|] eqn:Hl; [eauto|].
  exfalso. revert H.
  unfold MoneyOperation_init, copy_all, copy, bind, get_money, alloc_money,
    get_list, set_list, ret.
  cbn [moneys lists]. rewrite Ha.
  cbn [moneys lists]. rewrite (lookup_app_l_Some _ _ _ _ Hb).
  cbn [moneys lists]. rewrite Hl. discriminate.
Qed.

(** A successful [a += v], read backwards. *)
Lemma Money_iadd_inv (dp : CurrenciesProvider) (h h' : Heap) (a r : ref)
    (v : PyValue) :
  Money_iadd dp a v h = (inr r, h') ->
  exists oa ob b h1 l ops s,
    _clean_operand dp a v h = (inr b, h1) /\
    moneys h !! a = Some oa /\ moneys h1 !! a = Some oa /\
    moneys h1 !! b = Some ob /\
    operations oa = Some l /\ lists h1 !! l = Some ops /\
    add (amount oa) (amount ob) = inr s /\
    r = a /\
    h' = rebound_heap (recorded_heap h1 l ops ADDITION oa ob) a s oa.
Proof.
  intros H. unfold Money_iadd in H.
  apply bind_inv in H. destruct H as (b & h1 & Hclean & H).
  destruct (_clean_operand_facts dp h h1 a b v Hclean)
    as (oa & ob & Ha & Ha1 & Hb1 & Heq & _ & _).
  assert (Hlog : exists l ops, operations oa = Some l /\ lists h1 !! l = Some ops).
  { apply bind_inv in H. destruct H as ([] & h2 & Hrec & _).
    eapply _add_operation_money_money_inv; [exact Ha1|exact Ha1|exact Hb1|exact Hrec]. }
  destruct Hlog as (l & ops & Hl & Hops).
  assert (Hiadd : Money_iadd dp a (VMoney b) h1 = (inr r, h')).
  { unfold Money_iadd.
    rewrite (bind_inr _ _ h1 h1 b)
      by (eapply _clean_operand_money; eassumption).
    exact H. }
  rewrite (Money_iadd_money_eval dp h1 a b l oa ob ops Ha1 Hb1 Heq Hl Hops)
    in Hiadd.
  destruct (add (amount oa) (amount ob)) as [sig|s] eqn:Hs; [discriminate|].
  inversion Hiadd. subst r h'. exists oa, ob, b, h1, l, ops, s.
  repeat split; auto.
Qed.

(** A successful [a -= v], read backwards. *)
Lemma Money_isub_inv (dp : CurrenciesProvider) (h h' : Heap) (a r : ref)
    (v : PyValue) :
  Money_isub dp a v h = (inr r, h') ->
  exists oa ob b h1 l ops s,
    _clean_operand dp a v h = (inr b, h1) /\
    moneys h !! a = Some oa /\ moneys h1 !! a = Some oa /\
    moneys h1 !! b = Some ob /\
    operations oa = Some l /\ lists h1 !! l = Some ops /\
    sub (amount oa) (amount ob) = inr s /\
    r = a /\
    h' = rebound_heap (recorded_heap h1 l ops SUBSTRACTION oa ob) a s oa.
Proof.
  intros H. unfold Money_isub in H.
  apply bind_inv in H. destruct H as (b & h1 & Hclean & H).
  destruct (_clean_operand_facts dp h h1 a b v Hclean)
    as (oa & ob & Ha & Ha1 & Hb1 & Heq & _ & _).
  assert (Hlog : exists l ops, operations oa = Some l /\ lists h1 !! l = Some ops).
  { apply bind_inv in H. destruct H as ([] & h2 & Hrec & _).
    eapply _add_operation_money_money_inv; [exact Ha1|exact Ha1|exact Hb1|exact Hrec]. }
  destruct Hlog as (l & ops & Hl & Hops).
  assert (Hisub : Money_isub dp a (VMoney b) h1 = (inr r, h')).
  { unfold Money_isub.
    rewrite (bind_inr _ _ h1 h1 b)
      by (eapply _clean_operand_money; eassumption).
    exact H. }
  rewrite (Money_isub_money_eval dp h1 a b l oa ob ops Ha1 Hb1 Heq Hl Hops)
    in Hisub.
  destruct (sub (amount oa) (amount ob)) as [sig|s] eqn:Hs; [discriminate|].
  inversion Hisub. subst r h'. exists oa, ob, b, h1, l, ops, s.
  repeat split; auto.
Qed.

(** The receiver on the heap after an in-place operator: the new amount,
    and the log one operation longer. *)
Lemma rebound_heap_lookup (h : Heap) (l : ref) (ops : list MoneyOperation)
    (op : MoneyOperator) (oa ob : Money) (a : ref) (s : Decimal) :
  moneys h !! a = Some oa -> operations oa = Some l -> lists h !! l = Some ops ->
  moneys (rebound_heap (recorded_heap h l ops op oa ob) a s oa) !! a =
    Some {| currency := currency oa; amount := s; operations := Some l |} /\
  lists (rebound_heap (recorded_heap h l ops op oa ob) a s oa) !! l =
    Some (ops ++
          [{| operator := op;
              operands := [OMoney (length (moneys h));
                           OMoney (S (length (moneys h)))] |}]).
Proof.
  intros Ha Hl Hops. cbn [rebound_heap recorded_heap moneys lists]. split.
  - rewrite Hl. apply list_lookup_insert_eq.
    apply lookup_lt_Some in Ha. rewrite length_app. lia.
  - apply list_lookup_insert_eq. apply lookup_lt_Some in Hops. exact Hops.
Qed.

End MononInv.

(** ** The properties of the library *)

Module Claims.
Import PyDecimal PyDecimalFacts PyDecimalStrings PyDecimalArith.
Import Monon MononFacts MononInv.

(** C6.  Two [Money] objects whose currency codes differ: [a + b],
    [b.__radd__], [a - b], [a.__rsub__(b)], [a += b] and [a -= b] on them
    raise [CurrencyMismatch] carrying the receiver's currency and the
    operand's, and leave the heap as it was: no object is built and no
    operation is recorded. *)
Theorem currency_mismatch_raises (dp : CurrenciesProvider) (h : Heap)
    (a b : ref) (oa ob : Money) :
  moneys h !! a = Some oa -> moneys h !! b = Some ob ->
  isocode (currency oa) <> isocode (currency ob) ->
  Money_add dp a (VMoney b) h =
    (inl (CurrencyMismatch (currency oa) (currency ob)), h) /\
  Money_radd dp a (VMoney b) h =
    (inl (CurrencyMismatch (currency oa) (currency ob)), h) /\
  Money_sub dp a (VMoney b) h =
    (inl (CurrencyMismatch (currency oa) (currency ob)), h) /\
  Money_rsub dp a (VMoney b) h =
    (inl (CurrencyMismatch (currency oa) (currency ob)), h) /\
  Money_iadd dp a (VMoney b) h =
    (inl (CurrencyMismatch (currency oa) (currency ob)), h) /\
  Money_isub dp a (VMoney b) h =
    (inl (CurrencyMismatch (currency oa) (currency ob)), h).
Proof.
  intros Ha Hb Hne.
  assert (Heq : Currency_eq (currency ob) (currency oa) = false).
  { unfold Currency_eq. apply String.eqb_neq. congruence. }
  pose proof (_clean_operand_mismatch dp h a b oa ob Ha Hb Heq) as Hclean.
  unfold Money_radd, Money_add, Money_sub, Money_rsub, Money_iadd, Money_isub.
  repeat split; apply (bind_inl _ _ h h); exact Hclean.
Qed.

Lemma currency_mismatch_raises_witness :
  Money_add DefaultCurrenciesProvider 0%nat (VMoney 2%nat) usd_eur_heap =
  (inl (CurrencyMismatch USD EUR), usd_eur_heap).
Proof.
  refine (proj1 (currency_mismatch_raises DefaultCurrenciesProvider usd_eur_heap
                   0%nat 2%nat
                   {| currency := USD; amount := Finite false 100 (-2);
                      operations := Some 0%nat |}
                   {| currency := EUR; amount := Finite false 100 (-2);
                      operations := Some 1%nat |} _ _ _)).
  - reflexivity.
  - reflexivity.
  - discriminate.
Defined.


Lemma bind_ext_l {A B : Type} (m1 m2 : M A) (f : A -> M B) (h : Heap) :
  m1 h = m2 h -> bind m1 f h = bind m2 f h.
Proof. intros H. unfold bind. rewrite H. reflexivity. Qed.

(** C3.  [scalar - m] for a number [scalar]: the number is made a [Money]
    of the currency of [m], and [m] is subtracted from it; so
    [5 - Money("0.80","USD")] equals [Money("4.20","USD")] and equals
    [Money(5,'USD') - Money('0.80','USD')], and the operation it records is
    a subtraction with the operands 5.00 and 0.80 in this order. *)
Theorem rsub_subtracts_receiver_from_scalar :
  (forall (dp : CurrenciesProvider) (h : Heap) (m : ref) (o : Money)
          (scalar : PyValue),
     moneys h !! m = Some o -> is_Number scalar = true ->
     Money_rsub dp m scalar h =
     (do promoted <- Money_init dp scalar (ACurrency (currency o));
      Money_sub dp promoted (VMoney m)) h) /\
  fst (rsub_example empty_heap) = inr true /\
  fst (rsub_as_sub_example empty_heap) = inr true /\
  fst (rsub_log_example empty_heap) =
    inr (SUBSTRACTION,
         [Some (Finite false 500 (-2)); Some (Finite false 80 (-2))]).
Proof.
  split; [|repeat split; vm_compute; reflexivity].
  intros dp h m o scalar Hm Hnum. unfold Money_rsub.
  apply bind_ext_l. apply (_clean_operand_number dp h m o scalar Hm Hnum).
Qed.

Lemma rsub_subtracts_receiver_from_scalar_witness :
  fst (Money_rsub DefaultCurrenciesProvider 0%nat (VInt 5) usd_eur_heap) =
  inr 6%nat.
Proof.
  rewrite (proj1 rsub_subtracts_receiver_from_scalar DefaultCurrenciesProvider
             usd_eur_heap 0%nat
             {| currency := USD; amount := Finite false 100 (-2);
                operations := Some 0%nat |} (VInt 5)).
  - vm_compute. reflexivity.
  - reflexivity.
  - reflexivity.
Defined.

(** C2.  The default provider answers [ROUND_UP] for every code.  Under it
    [Currency('USD').quantize_amount(Decimal('4.191'))] is
    [Decimal('4.20')], and [Decimal('4.201')] with [ROUND_DOWN] forced is
    [Decimal('4.20')].  For every currency of the default provider and
    every finite amount, the quantized amount has the sign of the amount,
    two decimal places, and the least magnitude at two places that is not
    below the magnitude of the amount: it is rounded away from zero. *)
Theorem default_rounding_is_away_from_zero :
  (forall code, get_rounding DefaultCurrenciesProvider code = ROUND_UP) /\
  Currency_init DefaultCurrenciesProvider (AStr "USD") None = inr USD /\
  option_map (fun d => quantize_amount USD d None) (of_string "4.191") =
    option_map inr (of_string "4.20") /\
  option_map (fun d => quantize_amount USD d (Some ROUND_DOWN))
    (of_string "4.201") = option_map inr (of_string "4.20") /\
  (forall (c : Currency) (sign : bool) (coeff : N) (exp : Z) (q : Decimal),
     _provider c = DefaultCurrenciesProvider ->
     quantize_amount c (Finite sign coeff exp) None = inr q ->
     exists coeff',
       q = Finite sign coeff' (-2) /\
       (coeff * pow10 (exp - Z.min exp (-2))
        <= coeff' * pow10 (-2 - Z.min exp (-2))
        < coeff * pow10 (exp - Z.min exp (-2)) + pow10 (-2 - Z.min exp (-2)))%N).
Proof.
  split; [reflexivity|]. split; [reflexivity|].
  split; [vm_compute; reflexivity|]. split; [vm_compute; reflexivity|].
  intros c sign coeff exp q Hp Hq.
  unfold quantize_amount, _get_quantizer in Hq. rewrite Hp in Hq.
  cbn [get_decimal_places get_rounding DefaultCurrenciesProvider] in Hq.
  change (pow10_neg (DefaultCurrenciesProvider_get_decimal_places (isocode c)))
    with (@inr Signal Decimal (Finite false 1 (-2))) in Hq.
  cbv iota in Hq. unfold CurrenciesProvider_get_rounding in Hq.
  pose proof (quantize_rescale _ _ _ _ _ _ _ _ Hq) as Hr.
  destruct (quantize_finite _ _ _ _ _ _ _ _ Hq) as [coeff' ->].
  exists coeff'. split; [reflexivity|].
  apply (_rescale_round_up sign). symmetry. exact Hr.
Qed.

Lemma default_rounding_is_away_from_zero_witness :
  exists coeff',
    Finite false 420 (-2) = Finite false coeff' (-2) /\
    (4191 * pow10 (-3 - Z.min (-3) (-2))
     <= coeff' * pow10 (-2 - Z.min (-3) (-2))
     < 4191 * pow10 (-3 - Z.min (-3) (-2)) + pow10 (-2 - Z.min (-3) (-2)))%N.
Proof.
  apply (proj2 (proj2 (proj2 (proj2 default_rounding_is_away_from_zero))) USD
           false 4191%N (-3) (Finite false 420 (-2))).
  - reflexivity.
  - vm_compute. reflexivity.
Defined.

(** [a * v] for a [v] that is no number raises [InvalidOperand], and the
    heap is as it was. *)
Lemma Money_mul_not_number (dp : CurrenciesProvider) (h : Heap) (a : ref)
    (v : PyValue) :
  is_Number v = false -> Money_mul dp a v h = (inl (InvalidOperand v), h).
Proof. intros Hv. unfold Money_mul. rewrite Hv. reflexivity. Qed.

(** C4.  [Money(25, 'USD') * '5'] raises [InvalidOperand], but
    [Money(25, 'USD') / '5'] returns [USD$5.00]: [__truediv__] has no
    [isinstance] check and hands any operand to [clean_amount], so a text
    that reads as a number divides, and one that does not raises
    [InvalidAmount], not [InvalidOperand]. *)
Theorem truediv_accepts_what_mul_refuses :
  fst (mul_str_example empty_heap) = inl (InvalidOperand (VStr "5")) /\
  fst (truediv_str_example empty_heap) = inr "USD$5.00"%string /\
  fst (truediv_text_example empty_heap) = inl (InvalidAmount (VStr "abc")).
Proof. repeat split; vm_compute; reflexivity. Qed.


Lemma is_result_log (h' : Heap) (r : ref) (c : Currency) (value : Decimal)
    (op : MoneyOperator) :
  is_result h' r c value op ->
  exists init o,
    log_of h' r = Some [init; o] /\
    operator init = INITIALIZATION /\ operator o = op.
Proof.
  intros (q & l & recorded & _ & Hr & Hl).
  eexists _, _. split.
  { unfold log_of. rewrite Hr. cbn [operations]. exact Hl. }
  split; reflexivity.
Qed.

Lemma in_place_log (h1 h : Heap) (a l : ref) (oa ob : Money)
    (ops ops' : list MoneyOperation) (op : MoneyOperator) (s : Decimal) :
  moneys h !! a = Some oa -> moneys h1 !! a = Some oa ->
  operations oa = Some l -> lists h1 !! l = Some ops' ->
  (forall l ops, lists h !! l = Some ops -> lists h1 !! l = Some ops) ->
  log_of h a = Some ops ->
  exists o,
    log_of (rebound_heap (recorded_heap h1 l ops' op oa ob) a s oa) a =
      Some (ops ++ [o]) /\
    operator o = op.
Proof.
  intros Ha Ha1 Hl Hops' Hframe Hlog.
  unfold log_of in Hlog. rewrite Ha, Hl in Hlog.
  pose proof (Hframe _ _ Hlog) as Hlog1.
  assert (Hsame : Some ops' = Some ops)
    by (transitivity (lists h1 !! l); [symmetry; exact Hops'|exact Hlog1]).
  inversion Hsame. subst ops'.
  destruct (rebound_heap_lookup h1 l ops op oa ob a s Ha1 Hl Hops') as [Hm Hlist].
  eexists. split.
  { unfold log_of. rewrite Hm. cbn [operations]. exact Hlist. }
  reflexivity.
Qed.

(** C7.  A [Money] just built has a log of one operation, an
    [INITIALIZATION].  Each operator that returns a new object ([+], its
    reflection, [-], its reflection, [*], its reflection, [/], unary [-])
    returns, where it returns, an object whose log is the [INITIALIZATION]
    and one operation of the operator; each in-place operator ([+=], [-=])
    returns the receiver with one operation appended to the log it had. *)
Theorem operation_log_grows_by_one (dp : CurrenciesProvider) (h : Heap) :
  (forall v c r h',
     Money_init dp v c h = (inr r, h') ->
     exists o, log_of h' r = Some [o] /\ operator o = INITIALIZATION) /\
  (forall a v,
     returns_with_log (Money_add dp a v) h ADDITION /\
     returns_with_log (Money_radd dp a v) h ADDITION /\
     returns_with_log (Money_sub dp a v) h SUBSTRACTION /\
     returns_with_log (Money_rsub dp a v) h SUBSTRACTION /\
     returns_with_log (Money_mul dp a v) h MULTIPLICATION /\
     returns_with_log (Money_rmul dp a v) h MULTIPLICATION /\
     returns_with_log (Money_truediv dp a v) h DIVISION /\
     returns_with_log (Money_neg dp a) h MULTIPLICATION /\
     appends_to_log (Money_iadd dp a v) h a ADDITION /\
     appends_to_log (Money_isub dp a v) h a SUBSTRACTION).
Proof.
  split.
  - intros v c r h' H. apply Money_init_inv in H.
    destruct H as (c' & q & _ & _ & -> & ->).
    eexists. split; [apply init_heap_log|reflexivity].
  - intros a v.
    assert (Hadd : returns_with_log (Money_add dp a v) h ADDITION).
    { intros r h' H. apply Money_add_inv in H.
      destruct H as (oa & ob & b & h1 & s & _ & _ & _ & _ & _ & Hres & _).
      eapply is_result_log, Hres. }
    assert (Hmul : forall v', returns_with_log (Money_mul dp a v') h MULTIPLICATION).
    { intros v' r h' H. apply Money_mul_inv in H.
      destruct H as (oa & cl & p & _ & _ & _ & _ & Hres & _).
      eapply is_result_log, Hres. }
    split; [exact Hadd|]. split; [exact Hadd|].
    split.
    { intros r h' H. apply Money_sub_inv in H.
      destruct H as (oa & ob & b & h1 & s & _ & _ & _ & _ & _ & Hres & _).
      eapply is_result_log, Hres. }
    split.
    { intros r h' H. unfold Money_rsub in H. apply bind_inv in H.
      destruct H as (b & h1 & _ & H). apply Money_sub_inv in H.
      destruct H as (oa & ob & b' & h2 & s & _ & _ & _ & _ & _ & Hres & _).
      eapply is_result_log, Hres. }
    split; [apply Hmul|]. split; [apply Hmul|].
    split.
    { intros r h' H. apply Money_truediv_inv in H.
      destruct H as (oa & cl & p & _ & _ & _ & Hres & _).
      eapply is_result_log, Hres. }
    split; [apply Hmul|].
    split.
    + intros r h' ops Hlog H. apply Money_iadd_inv in H.
      destruct H as (oa & ob & b & h1 & l & ops' & s & Hclean & Ha & Ha1 & _
                     & Hl & Hops' & _ & -> & ->).
      split; [reflexivity|].
      destruct (_clean_operand_facts dp h h1 a b v Hclean)
        as (oa' & ob' & _ & _ & _ & _ & _ & Hframe).
      exact (in_place_log h1 h a l oa ob ops ops' ADDITION s
               Ha Ha1 Hl Hops' Hframe Hlog).
    + intros r h' ops Hlog H. apply Money_isub_inv in H.
      destruct H as (oa & ob & b & h1 & l & ops' & s & Hclean & Ha & Ha1 & _
                     & Hl & Hops' & _ & -> & ->).
      split; [reflexivity|].
      destruct (_clean_operand_facts dp h h1 a b v Hclean)
        as (oa' & ob' & _ & _ & _ & _ & _ & Hframe).
      exact (in_place_log h1 h a l oa ob ops ops' SUBSTRACTION s
               Ha Ha1 Hl Hops' Hframe Hlog).
Qed.

Lemma surjective_outcome {A : Type} (x : (Exception + A) * Heap) (a : A) :
  fst x = inr a -> x = (inr a, snd x).
Proof. destruct x as [r h]. cbn [fst snd]. intros ->. reflexivity. Defined.

Lemma operation_log_grows_by_one_witness :
  0%nat = 0%nat /\
  exists o,
    log_of (snd (Money_iadd DefaultCurrenciesProvider 0%nat (VInt 1)
                   usd_eur_heap)) 0%nat =
      Some ([init_operation 1%nat] ++ [o]) /\
    operator o = ADDITION.
Proof.
  destruct (operation_log_grows_by_one DefaultCurrenciesProvider usd_eur_heap)
    as [_ H].
  destruct (H 0%nat (VInt 1)) as (_ & _ & _ & _ & _ & _ & _ & _ & Hiadd & _).
  apply (Hiadd 0%nat
           (snd (Money_iadd DefaultCurrenciesProvider 0%nat (VInt 1)
                   usd_eur_heap))
           [init_operation 1%nat]).
  - vm_compute. reflexivity.
  - apply surjective_outcome. vm_compute. reflexivity.
Defined.


(** The counterexample to C5 as stated: [0] cleans to [0.00] in USD, and
    [Money('NaN', 'USD') / 0] raises nothing: it returns a [Money] whose
    amount is the NaN. *)
Lemma division_of_nan_by_zero_returns :
  fst (clean_amount (VInt 0) USD empty_heap) = inr (Finite false 0 (-2)) /\
  fst (nan_by_zero_example empty_heap) = inr (NaN false false 0).
Proof. split; vm_compute; reflexivity. Qed.

Lemma quantize_amount_infinity (c : Currency) (sign : bool) :
  exists sig, quantize_amount c (Infinity sign) None = inl sig.
Proof.
  unfold quantize_amount.
  destruct (_get_quantizer c) as [sig|q] eqn:Hq; [eauto|].
  unfold _get_quantizer in Hq. apply pow10_neg_finite in Hq.
  destruct Hq as (qc & qe & ->). rewrite quantize_inf. eauto.
Qed.

(** C5, amended.  For every [Money] whose amount is not a NaN, dividing
    it by an operand that cleans to zero raises a [decimal] exception (an
    [ArithmeticError], none of the library's own), and the heap is as it
    was: [DivisionByZero] for a finite amount that is not zero,
    [InvalidOperation] for a zero amount. *)
Theorem division_by_zero_raises (dp : CurrenciesProvider) (h : Heap) (m : ref)
    (o : Money) (v : PyValue) (sign : bool) (exp : Z) :
  moneys h !! m = Some o ->
  is_nan (amount o) = false ->
  fst (clean_amount v (currency o) h) = inr (Finite sign 0 exp) ->
  exists sig,
    Money_truediv dp m v h = (inl (DecimalException sig), h) /\
    is_ArithmeticError (DecimalException sig) = true /\
    is_InvalidMoneyOperation (DecimalException sig) = false /\
    match amount o with
    | Finite _ c _ =>
        sig = if (c =? 0)%N then InvalidOperation else DivisionByZero
    | _ => True
    end.
Proof.
  intros Hm Hnan Hclean.
  rewrite (Money_truediv_eval dp h m o v Hm). rewrite Hclean.
  pose proof (truediv_zero (amount o) sign exp Hnan) as Hdiv.
  destruct (amount o) as [s c e|s|s g d]; [| |contradiction].
  - rewrite Hdiv. eexists. repeat split.
  - rewrite Hdiv. rewrite (new_result_money_decimal dp h _ _ _ _ m o Hm).
    destruct (quantize_amount_infinity (currency o) (xorb s sign)) as [sig Hq].
    rewrite Hq. exists sig. repeat split.
Qed.

Lemma division_by_zero_raises_witness :
  exists sig,
    Money_truediv DefaultCurrenciesProvider 0%nat (VInt 0) usd_eur_heap =
      (inl (DecimalException sig), usd_eur_heap) /\
    is_ArithmeticError (DecimalException sig) = true /\
    is_InvalidMoneyOperation (DecimalException sig) = false /\
    sig = DivisionByZero.
Proof.
  apply (division_by_zero_raises DefaultCurrenciesProvider usd_eur_heap 0%nat
           {| currency := USD; amount := Finite false 100 (-2);
              operations := Some 0%nat |} (VInt 0) false (-2)).
  - reflexivity.
  - reflexivity.
  - vm_compute. reflexivity.
Defined.


(** The counterexample to C10 as stated: the amount of
    [Money('NaN', 'USD')] is the NaN, which has no exponent. *)
Lemma nan_amount_is_not_quantized :
  fst (nan_amount_example empty_heap) = inr (NaN false false 0) /\
  ~ quantized_to USD (NaN false false 0).
Proof. split; [vm_compute; reflexivity|]. intros H. exact H. Qed.

(** What [quantize_amount] returns is a NaN or has the exponent of the
    quantizer. *)
Lemma quantize_amount_quantized (c : Currency) (d q : Decimal) :
  quantize_amount c d None = inr q ->
  is_nan q = true \/ quantized_to c q.
Proof.
  unfold quantize_amount, quantized_to.
  destruct (_get_quantizer c) as [sig|quantizer] eqn:Hq; [discriminate|].
  pose proof Hq as Hfin. unfold _get_quantizer in Hfin.
  apply pow10_neg_finite in Hfin. destruct Hfin as (qc & qe & ->).
  destruct d as [s coef e|s|s [] g].
  - intros H. apply quantize_finite in H. destruct H as [c' ->].
    right. reflexivity.
  - rewrite quantize_inf. discriminate.
  - rewrite quantize_snan. discriminate.
  - destruct (_fix_nan_is_nan s g) as [g' Hg].
    rewrite quantize_nan, Hg. intros H. injection H as <-.
    left. reflexivity.
Qed.

Lemma quantize_amount_not_nan (c : Currency) (d q : Decimal) :
  is_nan d = false -> quantize_amount c d None = inr q -> is_nan q = false.
Proof.
  unfold quantize_amount.
  destruct (_get_quantizer c) as [sig|quantizer] eqn:Hq; [discriminate|].
  unfold _get_quantizer in Hq.
  apply pow10_neg_finite in Hq. destruct Hq as (qc & qe & ->).
  destruct d as [s coef e|s|s g dg]; [| |discriminate].
  - intros _ H. apply quantize_finite in H. destruct H as [c' ->]. reflexivity.
  - rewrite quantize_inf. discriminate.
Qed.

(** A successful [clean_amount] ends in a successful [quantize_amount]. *)
Lemma clean_amount_inv (v : PyValue) (c : Currency) (h : Heap) (a : Decimal) :
  fst (clean_amount v c h) = inr a ->
  exists d, quantize_amount c d None = inr a.
Proof.
  unfold clean_amount. destruct (py_str v h) as [[e|text] h1].
  - destruct e; discriminate.
  - destruct (of_string text) as [d|]; [|discriminate].
    cbn [fst]. destruct (quantize_amount c d None) as [sig|q] eqn:Hq;
      [discriminate|].
    intros H. inversion H. subst. eauto.
Qed.

Lemma is_result_quantized (h' : Heap) (r : ref) (c : Currency)
    (value : Decimal) (op : MoneyOperator) :
  is_result h' r c value op ->
  exists o,
    moneys h' !! r = Some o /\
    (is_nan (amount o) = true \/ quantized_to (currency o) (amount o)).
Proof.
  intros (q & l & recorded & Hq & Hr & _).
  eexists. split; [exact Hr|]. cbn [amount currency].
  eapply quantize_amount_quantized, Hq.
Qed.

(** C10, amended.  Every [Money] that [__init__] builds, and every one
    that [+], [-], [*], [/], unary [-] and the reflected operators return,
    has an amount that is a NaN or has the exponent of the quantizer of its
    currency, which is minus the decimal places of the currency.  The
    in-place operators store the [Decimal] sum or difference as it is; the
    sum or difference of two finite amounts of one exponent has no smaller
    exponent. *)
Theorem results_are_nan_or_quantized (dp : CurrenciesProvider) (h : Heap) :
  (forall v c, returns_quantized (Money_init dp v c) h) /\
  (forall a v,
     returns_quantized (Money_add dp a v) h /\
     returns_quantized (Money_radd dp a v) h /\
     returns_quantized (Money_sub dp a v) h /\
     returns_quantized (Money_rsub dp a v) h /\
     returns_quantized (Money_mul dp a v) h /\
     returns_quantized (Money_rmul dp a v) h /\
     returns_quantized (Money_truediv dp a v) h /\
     returns_quantized (Money_neg dp a) h) /\
  (forall c sign coeff exp,
     0 <= get_decimal_places (_provider c) (isocode c) <= - Etiny ->
     (quantized_to c (Finite sign coeff exp) <->
      exp = - get_decimal_places (_provider c) (isocode c))) /\
  (forall a v r h',
     Money_iadd dp a v h = (inr r, h') ->
     exists oa ob b h1 o',
       _clean_operand dp a v h = (inr b, h1) /\
       moneys h !! a = Some oa /\ moneys h1 !! b = Some ob /\
       moneys h' !! a = Some o' /\
       add (amount oa) (amount ob) = inr (amount o')) /\
  (forall a v r h',
     Money_isub dp a v h = (inr r, h') ->
     exists oa ob b h1 o',
       _clean_operand dp a v h = (inr b, h1) /\
       moneys h !! a = Some oa /\ moneys h1 !! b = Some ob /\
       moneys h' !! a = Some o' /\
       sub (amount oa) (amount ob) = inr (amount o')) /\
  (forall s1 s2 c1 c2 e d,
     Etiny <= e <= Emax ->
     add (Finite s1 c1 e) (Finite s2 c2 e) = inr d \/
     sub (Finite s1 c1 e) (Finite s2 c2 e) = inr d ->
     exists s c e', d = Finite s c e' /\ e <= e').
Proof.
  split; [|split; [|split; [|split; [|split]]]].
  - intros v c r h' H. apply Money_init_inv in H.
    destruct H as (c' & q & _ & Hq & -> & ->).
    eexists. split; [apply init_heap_lookup_new|]. cbn [amount currency].
    apply clean_amount_inv in Hq. destruct Hq as [d Hd].
    eapply quantize_amount_quantized, Hd.
  - intros a v.
    assert (Hadd : returns_quantized (Money_add dp a v) h).
    { intros r h' H. apply Money_add_inv in H.
      destruct H as (oa & ob & b & h1 & s & _ & _ & _ & _ & _ & Hres & _).
      eapply is_result_quantized, Hres. }
    assert (Hmul : forall v', returns_quantized (Money_mul dp a v') h).
    { intros v' r h' H. apply Money_mul_inv in H.
      destruct H as (oa & cl & p & _ & _ & _ & _ & Hres & _).
      eapply is_result_quantized, Hres. }
    split; [exact Hadd|]. split; [exact Hadd|].
    split.
    { intros r h' H. apply Money_sub_inv in H.
      destruct H as (oa & ob & b & h1 & s & _ & _ & _ & _ & _ & Hres & _).
      eapply is_result_quantized, Hres. }
    split.
    { intros r h' H. unfold Money_rsub in H. apply bind_inv in H.
      destruct H as (b & h1 & _ & H). apply Money_sub_inv in H.
      destruct H as (oa & ob & b' & h2 & s & _ & _ & _ & _ & _ & Hres & _).
      eapply is_result_quantized, Hres. }
    split; [apply Hmul|]. split; [apply Hmul|].
    split; [|apply Hmul].
    intros r h' H. apply Money_truediv_inv in H.
    destruct H as (oa & cl & p & _ & _ & _ & Hres & _).
    eapply is_result_quantized, Hres.
  - intros c sign coeff exp Hplaces. unfold quantized_to, _get_quantizer.
    rewrite pow10_neg_places by exact Hplaces. reflexivity.
  - intros a v r h' H. apply Money_iadd_inv in H.
    destruct H as (oa & ob & b & h1 & l & ops & s & Hclean & Ha & Ha1 & Hb1
                   & Hl & Hops & Hs & -> & ->).
    destruct (rebound_heap_lookup h1 l ops ADDITION oa ob a s Ha1 Hl Hops)
      as [Hm _].
    eexists oa, ob, b, h1, _. repeat split; try eassumption.
  - intros a v r h' H. apply Money_isub_inv in H.
    destruct H as (oa & ob & b & h1 & l & ops & s & Hclean & Ha & Ha1 & Hb1
                   & Hl & Hops & Hs & -> & ->).
    destruct (rebound_heap_lookup h1 l ops SUBSTRACTION oa ob a s Ha1 Hl Hops)
      as [Hm _].
    eexists oa, ob, b, h1, _. repeat split; try eassumption.
  - intros s1 s2 c1 c2 e d He H.
    assert (Hfix : exists s c, _fix (Finite s c e) = inr d).
    { destruct H as [H|H].
      - destruct (add_same_exp s1 s2 c1 c2 e) as (s & c & Heq).
        rewrite Heq in H. eauto.
      - destruct (sub_same_exp s1 s2 c1 c2 e) as (s & c & Heq).
        rewrite Heq in H. eauto. }
    destruct Hfix as (s & c & Hfix).
    destruct (_fix_exp s c e d) as (c' & e' & -> & Hcase);
      [lia|lia|exact Hfix|].
    exists s, c', e'. split; [reflexivity|].
    destruct Hcase as [[-> _]|[Hlt _]]; lia.
Qed.

Lemma results_are_nan_or_quantized_witness :
  exists o,
    moneys (snd (Money_add DefaultCurrenciesProvider 0%nat (VInt 1)
                   usd_eur_heap)) !! 6%nat = Some o /\
    (is_nan (amount o) = true \/ quantized_to (currency o) (amount o)).
Proof.
  destruct (results_are_nan_or_quantized DefaultCurrenciesProvider usd_eur_heap)
    as (_ & H & _).
  destruct (H 0%nat (VInt 1)) as (Hadd & _).
  apply (Hadd 6%nat). apply surjective_outcome. vm_compute. reflexivity.
Defined.


(** The counterexample to C9 as stated: for [a = Money('NaN', 'USD')] and
    [b = Money(1, 'USD')], [a + b == b + a] is [False]: both sums are
    NaN, and a NaN equals nothing. *)
Lemma addition_of_nan_does_not_commute :
  fst (nan_commutativity_example empty_heap) = inr false.
Proof. vm_compute. reflexivity. Qed.

(** Another one: two currencies of one code and two providers are equal,
    but [a + b] is quantized by the provider of [a], [b + a] by that of
    [b]. *)
Lemma addition_across_providers_does_not_commute :
  fst (two_providers_commutativity_example empty_heap) = inr false.
Proof. vm_compute. reflexivity. Qed.

Lemma _fix_finite_not_nan (s : bool) (c : N) (e : Z) (d : Decimal) :
  _fix (Finite s c e) = inr d -> is_nan d = false.
Proof.
  unfold _fix.
  repeat match goal with |- context [if ?b then _ else _] => destruct b end;
    intros H; inversion H; reflexivity.
Qed.

(** The sum of two values that are not NaN is not a NaN. *)
Lemma add_not_nan (x y s : Decimal) :
  is_nan x = false -> is_nan y = false -> add x y = inr s -> is_nan s = false.
Proof.
  intros Hx Hy.
  destruct x as [s1 c1 e1|s1|s1 g1 d1], y as [s2 c2 e2|s2|s2 g2 d2];
    try discriminate.
  - unfold add. cbn [_check_nans].
    destruct (_rescale_finite s2 c2 e2 (Z.max (Z.min e1 e2) (e2 - prec - 1))
                context_rounding) as [c2' ->].
    destruct (_rescale_finite s1 c1 e1 (Z.max (Z.min e1 e2) (e1 - prec - 1))
                context_rounding) as [c1' ->].
    destruct (_normalize (c1, e1) (c2, e2)) as [[i1 x1] [i2 x2]].
    repeat match goal with |- context [if ?b then _ else _] => destruct b end;
      apply _fix_finite_not_nan.
  - intros H. inversion H. reflexivity.
  - intros H. inversion H. reflexivity.
  - unfold add. cbn [_check_nans]. destruct (negb (eqb s1 s2)); [discriminate|].
    intros H. inversion H. reflexivity.
Qed.

(** [quantize_amount] looks at the decimal places and the rounding of the
    currency, and at nothing else of it. *)
Lemma quantize_amount_policy (c1 c2 : Currency) (d : Decimal) :
  get_decimal_places (_provider c1) (isocode c1) =
    get_decimal_places (_provider c2) (isocode c2) ->
  get_rounding (_provider c1) (isocode c1) =
    get_rounding (_provider c2) (isocode c2) ->
  quantize_amount c1 d None = quantize_amount c2 d None.
Proof.
  intros Hp Hr. unfold quantize_amount, _get_quantizer. rewrite Hp, Hr.
  reflexivity.
Qed.

(** C9, amended.  For two [Money] objects of one currency code whose
    currencies quantize alike (the same decimal places and rounding, as
    with one provider) and whose amounts are not NaN: where [a + b]
    returns, [b + a] returns too, and [a + b == b + a] is [True]. *)
Theorem addition_commutes (dp : CurrenciesProvider) (h h1 : Heap)
    (a b r1 : ref) (oa ob : Money) :
  moneys h !! a = Some oa -> moneys h !! b = Some ob ->
  isocode (currency oa) = isocode (currency ob) ->
  get_decimal_places (_provider (currency oa)) (isocode (currency oa)) =
    get_decimal_places (_provider (currency ob)) (isocode (currency ob)) ->
  get_rounding (_provider (currency oa)) (isocode (currency oa)) =
    get_rounding (_provider (currency ob)) (isocode (currency ob)) ->
  is_nan (amount oa) = false -> is_nan (amount ob) = false ->
  Money_add dp a (VMoney b) h = (inr r1, h1) ->
  exists r2 h2,
    Money_add dp b (VMoney a) h1 = (inr r2, h2) /\
    Money_eq r1 (VMoney r2) h2 = (inr true, h2).
Proof.
  intros Ha Hb Hcode Hplaces Hrounding Hna Hnb H1.
  assert (Heq : Currency_eq (currency ob) (currency oa) = true).
  { unfold Currency_eq. rewrite Hcode. apply String.eqb_refl. }
  assert (Heq' : Currency_eq (currency oa) (currency ob) = true).
  { rewrite Currency_eq_sym. exact Heq. }
  rewrite (Money_add_money_eval dp h a b oa ob Ha Hb Heq) in H1.
  destruct (add (amount oa) (amount ob)) as [sig|s] eqn:Hs; [discriminate|].
  rewrite (new_result_money_money dp h s _ _ a b oa ob Ha Hb) in H1.
  destruct (quantize_amount (currency oa) s None) as [sig|q] eqn:Hq;
    [discriminate|].
  inversion H1. subst r1 h1. clear H1.
  set (h1 := result_heap h (currency oa) q ADDITION [oa; ob]
               [OMoney (S (S (length (moneys h))));
                OMoney (S (S (S (length (moneys h)))))]).
  assert (Ha1 : moneys h1 !! a = Some oa)
    by (apply result_heap_lookup_old, Ha).
  assert (Hb1 : moneys h1 !! b = Some ob)
    by (apply result_heap_lookup_old, Hb).
  assert (Hr1 : moneys h1 !! length (moneys h) =
                Some {| currency := currency oa; amount := q;
                        operations := Some (length (lists h)) |})
    by apply result_heap_lookup_new.
  rewrite (Money_add_money_eval dp h1 b a ob oa Hb1 Ha1 Heq').
  rewrite (add_comm (amount ob) (amount oa) Hnb Hna), Hs.
  rewrite (new_result_money_money dp h1 s _ _ b a ob oa Hb1 Ha1).
  rewrite <- (quantize_amount_policy (currency oa) (currency ob) s
                Hplaces Hrounding), Hq.
  eexists _, _. split; [reflexivity|].
  unfold Money_eq.
  rewrite (bind_inr _ _ _ _ _ (get_money_Some _ _ _
             (result_heap_lookup_old h1 _ _ _ _ _ _ _ Hr1))).
  rewrite (bind_inr _ _ _ _ _ (get_money_Some _ _ _
             (result_heap_lookup_new h1 _ _ _ _ _))).
  cbn [amount currency].
  rewrite eq_refl_not_nan.
  - cbn [lift_signal]. rewrite bind_lift_inr. rewrite Heq'. reflexivity.
  - eapply quantize_amount_not_nan; [|exact Hq].
    eapply add_not_nan; [exact Hna|exact Hnb|exact Hs].
Qed.

Lemma addition_commutes_witness :
  exists r2 h2,
    Money_add DefaultCurrenciesProvider 4%nat (VMoney 0%nat)
      (snd (Money_add DefaultCurrenciesProvider 0%nat (VMoney 4%nat)
              (snd (Money_init DefaultCurrenciesProvider (VInt 2) (AStr "USD")
                      usd_eur_heap)))) = (inr r2, h2) /\
    Money_eq 6%nat (VMoney r2) h2 = (inr true, h2).
Proof.
  apply (addition_commutes DefaultCurrenciesProvider
           (snd (Money_init DefaultCurrenciesProvider (VInt 2) (AStr "USD")
                   usd_eur_heap)) _ 0%nat 4%nat 6%nat
           {| currency := USD; amount := Finite false 100 (-2);
              operations := Some 0%nat |}
           {| currency := USD; amount := Finite false 200 (-2);
              operations := Some 2%nat |}).
  - reflexivity.
  - reflexivity.
  - reflexivity.
  - reflexivity.
  - reflexivity.
  - reflexivity.
  - reflexivity.
  - apply surjective_outcome. vm_compute. reflexivity.
Defined.


(** The counterexample to C1 as stated: for [a = Money('1', 'USD')] and
    [b = Money('1.001', Currency('USD', ThreePlacesProvider()))], two
    [Money] of one currency code, [a.amount + b.amount] is [2.001] and
    [a + b] stores [2.01]: the sum was quantized again, to the two places
    of the currency of [a]. *)
Lemma addition_quantizes_the_sum_again :
  fst (two_providers_sum_example empty_heap) =
  inr (Finite false 201 (-2), inr (Finite false 2001 (-3))).
Proof. vm_compute. reflexivity. Qed.

(** The quantization of a sum or difference of two amounts that have the
    exponent of the quantizer is the sum or difference itself. *)
Lemma quantize_amount_of_quantized (c : Currency) (x y s q : Decimal) :
  quantized_to c x -> quantized_to c y ->
  add x y = inr s \/ sub x y = inr s ->
  quantize_amount c s None = inr q ->
  q = s.
Proof.
  unfold quantized_to, quantize_amount.
  destruct (_get_quantizer c) as [sig|[qs qc qe|qs|qs qg qd]];
    destruct x as [s1 c1 e1|s1|s1 g1 d1]; try contradiction;
    destruct y as [s2 c2 e2|s2|s2 g2 d2]; try contradiction.
  intros -> -> Hs Hq.
  assert (Hfix : exists s' c', _fix (Finite s' c' qe) = inr s).
  { destruct Hs as [Hs|Hs].
    - destruct (add_same_exp s1 s2 c1 c2 qe) as (s' & c' & Heq).
      rewrite Heq in Hs. eauto.
    - destruct (sub_same_exp s1 s2 c1 c2 qe) as (s' & c' & Heq).
      rewrite Heq in Hs. eauto. }
  destruct Hfix as (s' & c' & Hfix).
  eapply quantize_of_fix; eassumption.
Qed.

Lemma is_result_value (h' : Heap) (r : ref) (c : Currency) (s : Decimal)
    (op : MoneyOperator) (raw : Prop) :
  is_result h' r c s op ->
  (forall q, raw -> quantize_amount c s None = inr q -> q = s) ->
  exists s' q o,
    @inr Signal Decimal s = inr s' /\
    quantize_amount c s' None = inr q /\
    moneys h' !! r = Some o /\
    currency o = c /\ amount o = q /\
    (raw -> q = s').
Proof.
  intros (q & l & recorded & Hq & Hr & _) Hraw.
  exists s, q. eexists. split; [reflexivity|]. split; [exact Hq|].
  split; [exact Hr|]. split; [reflexivity|]. split; [reflexivity|].
  intros H. apply Hraw; assumption.
Qed.

(** C1, amended.  For two [Money] objects [a] and [b] of one currency
    code, [a + b] (and [a - b]) returns, where it returns, a new [Money] in
    the currency of [a] whose amount is [a.amount + b.amount]
    ([a.amount - b.amount]) quantized again to that currency by the
    constructor; when both amounts already have the exponent of that
    currency's quantizer, the stored amount is the [Decimal] sum
    (difference) itself. *)
Theorem sum_is_stored_quantized (dp : CurrenciesProvider) (h : Heap)
    (a b : ref) (oa ob : Money) :
  moneys h !! a = Some oa -> moneys h !! b = Some ob ->
  returns_quantized_value (Money_add dp a (VMoney b)) h (currency oa)
    (add (amount oa) (amount ob))
    (quantized_to (currency oa) (amount oa) /\
     quantized_to (currency oa) (amount ob)) /\
  returns_quantized_value (Money_sub dp a (VMoney b)) h (currency oa)
    (sub (amount oa) (amount ob))
    (quantized_to (currency oa) (amount oa) /\
     quantized_to (currency oa) (amount ob)).
Proof.
  intros Ha Hb. split.
  - intros r h' H. apply Money_add_inv in H.
    destruct H as (oa' & ob' & b' & h1 & s & Hclean & Ha' & _ & Hb1 & Hs
                   & Hres & _).
    apply _clean_operand_inv in Hclean.
    destruct Hclean as (oa'' & _ & [[Hnum _]|(ob'' & Hv & -> & Hb' & _)]);
      [discriminate|].
    inversion Hv. subst b'.
    assert (oa' = oa) by congruence. assert (ob' = ob) by congruence.
    subst oa' ob'. rewrite Hs.
    apply (is_result_value h' r (currency oa) s ADDITION _ Hres).
    intros q [Hqa Hqb] Hq.
    exact (quantize_amount_of_quantized (currency oa) (amount oa) (amount ob)
             s q Hqa Hqb (or_introl Hs) Hq).
  - intros r h' H. apply Money_sub_inv in H.
    destruct H as (oa' & ob' & b' & h1 & s & Hclean & Ha' & _ & Hb1 & Hs
                   & Hres & _).
    apply _clean_operand_inv in Hclean.
    destruct Hclean as (oa'' & _ & [[Hnum _]|(ob'' & Hv & -> & Hb' & _)]);
      [discriminate|].
    inversion Hv. subst b'.
    assert (oa' = oa) by congruence. assert (ob' = ob) by congruence.
    subst oa' ob'. rewrite Hs.
    apply (is_result_value h' r (currency oa) s SUBSTRACTION _ Hres).
    intros q [Hqa Hqb] Hq.
    exact (quantize_amount_of_quantized (currency oa) (amount oa) (amount ob)
             s q Hqa Hqb (or_intror Hs) Hq).
Qed.

Lemma sum_is_stored_quantized_witness :
  exists s q o,
    add (Finite false 100 (-2)) (Finite false 200 (-2)) = inr s /\
    quantize_amount USD s None = inr q /\
    moneys (snd (Money_add DefaultCurrenciesProvider 0%nat (VMoney 4%nat)
                   (snd (Money_init DefaultCurrenciesProvider (VInt 2)
                           (AStr "USD") usd_eur_heap)))) !! 6%nat = Some o /\
    currency o = USD /\ amount o = q /\
    (quantized_to USD (Finite false 100 (-2)) /\
     quantized_to USD (Finite false 200 (-2)) -> q = s).
Proof.
  apply (proj1 (sum_is_stored_quantized DefaultCurrenciesProvider
                  (snd (Money_init DefaultCurrenciesProvider (VInt 2)
                          (AStr "USD") usd_eur_heap)) 0%nat 4%nat
                  {| currency := USD; amount := Finite false 100 (-2);
                     operations := Some 0%nat |}
                  {| currency := USD; amount := Finite false 200 (-2);
                     operations := Some 2%nat |} eq_refl eq_refl) 6%nat).
  apply surjective_outcome. vm_compute. reflexivity.
Defined.


(** C8.  The copy of an operand that an operation records is a shallow
    one: it is a new object, so the amount it holds stays [5.00] when the
    operand is changed in place to [6.00], but its [operations] is the
    list of the operand itself, and the log the copy captured has one
    operation before [m += one] and two after it. *)
Theorem recorded_copy_shares_the_log :
  fst (shared_log_example empty_heap) =
  inr (Finite false 500 (-2), 1%nat, (Finite false 500 (-2), 2%nat),
       Finite false 600 (-2)).
Proof. vm_compute. reflexivity. Qed.

End Claims.

(** ** Further properties of the two files *)

Module MoreFacts.
Import PyDecimal PyDecimalFacts PyDecimalStrings PyDecimalArith.
Import Monon MononFacts MononInv.

(** *** Text *)








Lemma ndigits_mul_pow10 (c : N) (j : Z) :
  (0 < c)%N -> 0 <= j -> ndigits (c * pow10 j) = ndigits c + j.
Proof.
  intros Hc Hj. pose proof (ndigits_pos c) as Hp.
  destruct (ndigits_bounds c Hc) as [Hlo Hhi].
  pose proof (pow10_pos j) as HP.
  apply ndigits_unique; [lia| |nia].
  replace (ndigits c + j - 1) with ((ndigits c - 1) + j) by lia.
  rewrite !pow10_add by lia.
  generalize dependent (pow10 (ndigits c - 1)). intros a.
  generalize dependent (pow10 (ndigits c)). intros b.
  generalize dependent (pow10 j). intros P. intros. split; nia.
Qed.

(** Where [_rescale] drops digits, it keeps the quotient and increments it
    or not, as the rounding asks. *)
Lemma _rescale_drop (sign : bool) (c : N) (e qe : Z) (r : Rounding) :
  e < qe -> c <> 0%N ->
  exists up : bool,
    _rescale (Finite sign c e) qe r =
      Finite sign (c / pow10 (qe - e) + (if up then 1 else 0)) qe /\
    up =
    let P := pow10 (qe - e) in
    let rem := (c mod P)%N in
    match r with
    | ROUND_DOWN => false
    | ROUND_UP => negb (rem =? 0)%N
    | ROUND_HALF_UP => (P <=? 2 * rem)%N
    | ROUND_HALF_DOWN => (P <? 2 * rem)%N
    | ROUND_HALF_EVEN =>
        (P <? 2 * rem)%N || ((P =? 2 * rem)%N && N.odd (c / P))
    | ROUND_CEILING => negb sign && negb (rem =? 0)%N
    | ROUND_FLOOR => sign && negb (rem =? 0)%N
    | ROUND_05UP =>
        negb (rem =? 0)%N &&
        (((c / P) mod 10 =? 0)%N || ((c / P) mod 10 =? 5)%N)
    end.
Proof.
  intros Hlt Hc. unfold _rescale.
  apply N.eqb_neq in Hc. rewrite Hc. apply N.eqb_neq in Hc.
  assert (Hle : (qe <=? e) = false) by (apply Z.leb_gt; lia). rewrite Hle.
  cbv zeta.
  pose proof (pow10_pos (qe - e)) as HP.
  destruct (ndigits c + e - qe <? 0) eqn:Hfew.
  - apply Z.ltb_lt in Hfew.
    destruct (ndigits_bounds c ltac:(lia)) as [_ Hhi].
    pose proof (pow10_le (ndigits c) (qe - e - 1) ltac:(lia)) as Hle1.
    pose proof (pow10_succ (qe - e - 1) ltac:(lia)) as Hs.
    replace (qe - e - 1 + 1) with (qe - e) in Hs by lia.
    assert (Hsmall : (10 * c < pow10 (qe - e))%N) by lia.
    rewrite (N.div_small c (pow10 (qe - e))) by lia.
    rewrite (N.mod_small c (pow10 (qe - e))) by lia.
    change (0 mod 10)%N with 0%N. change (N.odd 0) with false.
    assert (H1 : (pow10 (qe - e) <=? 2 * c)%N = false) by (apply N.leb_gt; lia).
    assert (H2 : (pow10 (qe - e) <? 2 * c)%N = false) by (apply N.ltb_ge; lia).
    assert (H3 : (c =? 0)%N = false) by (apply N.eqb_neq; lia).
    rewrite H1, H2, H3, andb_false_r.
    destruct r, sign; (exists true; split; reflexivity) || (exists false; split; reflexivity).
  - exists (_pick_rounding_function r sign c (qe - e) =? 1). split.
    + destruct (_pick_rounding_function r sign c (qe - e) =? 1).
      * reflexivity.
      * rewrite N.add_0_r. reflexivity.
    + unfold _pick_rounding_function, _round_up, _round_half_down,
        _round_half_even, _round_ceiling, _round_floor, _round_05up,
        _round_half_up, _exact_half, _round_down.
      generalize dependent (c / pow10 (qe - e))%N. intros q.
      generalize dependent (c mod pow10 (qe - e))%N. intros rem.
      generalize dependent (pow10 (qe - e)). intros P HP.
      rewrite <- (N.negb_even q).
      destruct r, sign;
        repeat match goal with
               | |- context [if ?b then _ else _] => destruct b eqn:?
               end; cbn [negb andb orb Z.opp Z.eqb Pos.eqb];
        repeat match goal with
               | E : (_ =? _)%N = true |- _ => apply N.eqb_eq in E
               | E : (_ =? _)%N = false |- _ => apply N.eqb_neq in E
               | E : (_ <=? _)%N = true |- _ => apply N.leb_le in E
               | E : (_ <=? _)%N = false |- _ => apply N.leb_gt in E
               | E : andb _ _ = true |- _ => apply andb_true_iff in E; destruct E
               | E : andb _ _ = false |- _ => apply andb_false_iff in E
               | E : negb _ = true |- _ => apply negb_true_iff in E
               | E : negb _ = false |- _ => apply negb_false_iff in E
               end;
        repeat match goal with
               | |- context [(?a =? ?b)%N] =>
                   let E := fresh in destruct (a =? b)%N eqn:E;
                   [apply N.eqb_eq in E|apply N.eqb_neq in E]
               | |- context [(?a <? ?b)%N] =>
                   let E := fresh in destruct (a <? b)%N eqn:E;
                   [apply N.ltb_lt in E|apply N.ltb_ge in E]
               | |- context [(?a <=? ?b)%N] =>
                   let E := fresh in destruct (a <=? b)%N eqn:E;
                   [apply N.leb_le in E|apply N.leb_gt in E]
               | |- context [N.even ?a] => destruct (N.even a) eqn:?
               end; cbn [negb andb orb]; try reflexivity; try lia;
        try (exfalso;
             intuition (try congruence; try lia;
                        repeat match goal with
                               | E : (_ =? _)%N = false |- _ =>
                                   apply N.eqb_neq in E
                               | E : (_ =? _)%N = true |- _ =>
                                   apply N.eqb_eq in E
                               end; try congruence; lia)).
Qed.

(** A successful [quantize] of a finite value, read backwards. *)
Lemma quantize_finite_inv (sign qs : bool) (c qc : N) (e qe : Z)
    (r : Rounding) (d : Decimal) :
  quantize (Finite sign c e) (Finite qs qc qe) r = inr d ->
  Etiny <= qe <= Emax /\
  exists c',
    d = Finite sign c' qe /\
    _rescale (Finite sign c e) qe r = Finite sign c' qe /\
    (c' <> 0%N -> ndigits c' <= prec /\ adjusted c' qe <= Emax).
Proof.
  unfold quantize. cbn [_check_nans].
  destruct ((Etiny <=? qe) && (qe <=? Emax)) eqn:Hrange; cbn [negb];
    [|discriminate].
  apply andb_true_iff in Hrange. destruct Hrange as [Hlo Hhi].
  apply Z.leb_le in Hlo. apply Z.leb_le in Hhi.
  intros H. split; [lia|]. revert H.
  destruct (c =? 0)%N eqn:Hc.
  - rewrite _fix_fits by (try exact Hlo; exact Hhi).
    unfold _rescale. rewrite Hc. intros H. inversion H.
    exists 0%N. repeat split; congruence.
  - destruct (Emax <? adjusted c e); [discriminate|].
    destruct (prec <? adjusted c e - qe + 1); [discriminate|].
    destruct (_rescale_finite sign c e qe r) as [c' Hr]. rewrite Hr.
    destruct (Emax <? adjusted c' qe) eqn:Ha; [discriminate|].
    destruct (prec <? ndigits c') eqn:Hd; [discriminate|].
    apply Z.ltb_ge in Ha. apply Z.ltb_ge in Hd.
    rewrite _fix_fits.
    + intros H. inversion H. exists c'. repeat split; assumption.
    + exact Hlo.
    + destruct (c' =? 0)%N; [exact Hhi|split; assumption].
Qed.

(** A finite value that has the exponent asked for and fits the precision
    is what [quantize] returns for it. *)
Lemma quantize_stable (sign qs : bool) (c qc : N) (qe : Z) (r : Rounding) :
  Etiny <= qe <= Emax ->
  (c <> 0%N -> ndigits c <= prec /\ adjusted c qe <= Emax) ->
  quantize (Finite sign c qe) (Finite qs qc qe) r = inr (Finite sign c qe).
Proof.
  intros [Hlo Hhi] Hfit. unfold quantize. cbn [_check_nans].
  assert (Hrange : (Etiny <=? qe) && (qe <=? Emax) = true).
  { apply andb_true_iff. split; apply Z.leb_le; assumption. }
  rewrite Hrange. cbn [negb].
  destruct (c =? 0)%N eqn:Hc.
  - apply N.eqb_eq in Hc. subst c. apply _fix_fits; assumption.
  - apply N.eqb_neq in Hc. destruct (Hfit Hc) as [Hd Ha].
    assert (H1 : (Emax <? adjusted c qe) = false) by (apply Z.ltb_ge; exact Ha).
    assert (H2 : (prec <? adjusted c qe - qe + 1) = false).
    { apply Z.ltb_ge. unfold adjusted. lia. }
    assert (H3 : (prec <? ndigits c) = false) by (apply Z.ltb_ge; exact Hd).
    rewrite H1, H2, _rescale_same_exp, H1, H3.
    apply _fix_fits; [exact Hlo|].
    apply N.eqb_neq in Hc. rewrite Hc. split; assumption.
Qed.

Lemma _fix_nan_idem (d : Decimal) : _fix_nan (_fix_nan d) = _fix_nan d.
Proof.
  destruct d as [s c e|s|s g diag]; try reflexivity.
  unfold _fix_nan. destruct (prec <? ndigits diag) eqn:H.
  - assert (Hs : (prec <? ndigits (diag mod pow10 prec)) = false).
    { apply Z.ltb_ge.
      destruct (N.eq_dec (diag mod pow10 prec)%N 0%N) as [->|Hnz]; [discriminate|].
      apply ndigits_le_pow10; [discriminate| |apply N.neq_0_lt_0; exact Hnz].
      apply N.mod_lt. pose proof (pow10_pos prec). lia. }
    rewrite Hs. reflexivity.
  - rewrite H. reflexivity.
Qed.

(** [Currency.quantize_amount] changes nothing in what it has returned,
    whatever the rounding of the second call. *)
Lemma quantize_amount_idem (c : Currency) (d q : Decimal)
    (r r' : option Rounding) :
  quantize_amount c d r = inr q -> quantize_amount c q r' = inr q.
Proof.
  unfold quantize_amount.
  destruct (_get_quantizer c) as [sig|quantizer] eqn:Hq; [discriminate|].
  destruct (pow10_neg_finite _ _ Hq) as (qc & qe & ->).
  destruct d as [s k e|s|s g diag].
  - intros H. apply quantize_finite_inv in H.
    destruct H as (Hrange & c' & -> & _ & Hfit).
    apply quantize_stable; assumption.
  - rewrite quantize_inf. discriminate.
  - destruct g; [rewrite quantize_snan; discriminate|].
    rewrite quantize_nan.
    pose proof (_fix_nan_idem (NaN s false diag)) as Hi.
    destruct (_fix_nan_is_nan s diag) as [diag' Hn]. rewrite Hn in *.
    intros H. injection H as <-. rewrite quantize_nan. f_equal. exact Hi.
Qed.

(** [quantize] of a value that has no more decimal places than asked
    for: the coefficient is padded with zeros, whatever the rounding, and
    what does not fit the precision is refused. *)
Lemma quantize_pad (sign qs : bool) (c qc : N) (e qe : Z) (r : Rounding) :
  Etiny <= qe <= Emax -> qe <= e ->
  quantize (Finite sign c e) (Finite qs qc qe) r =
  if (c =? 0)%N then inr (Finite sign 0 qe)
  else if (Emax <? adjusted c e) || (prec <? ndigits c + (e - qe))
       then inl InvalidOperation
       else inr (Finite sign (c * pow10 (e - qe)) qe).
Proof.
  intros [Hlo Hhi] Hle. unfold quantize. cbn [_check_nans].
  assert (Hrange : (Etiny <=? qe) && (qe <=? Emax) = true).
  { apply andb_true_iff. split; apply Z.leb_le; assumption. }
  rewrite Hrange. cbn [negb].
  destruct (c =? 0)%N eqn:Hc.
  - apply _fix_fits; assumption.
  - destruct (Emax <? adjusted c e) eqn:H1; [reflexivity|]. cbn [orb].
    replace (adjusted c e - qe + 1) with (ndigits c + (e - qe))
      by (unfold adjusted; lia).
    destruct (prec <? ndigits c + (e - qe)) eqn:H2; [reflexivity|].
    unfold _rescale. rewrite Hc.
    assert (H3 : (qe <=? e) = true) by (apply Z.leb_le; exact Hle). rewrite H3.
    apply N.eqb_neq in Hc. apply Z.ltb_ge in H1. apply Z.ltb_ge in H2.
    assert (Hnd : ndigits (c * pow10 (e - qe)) = ndigits c + (e - qe))
      by (apply ndigits_mul_pow10; lia).
    assert (H4 : (Emax <? adjusted (c * pow10 (e - qe)) qe) = false).
    { apply Z.ltb_ge. unfold adjusted in *. lia. }
    assert (H5 : (prec <? ndigits (c * pow10 (e - qe))) = false).
    { apply Z.ltb_ge. lia. }
    rewrite H4, H5. apply _fix_fits; [exact Hlo|].
    pose proof (pow10_pos (e - qe)) as HP.
    assert (H6 : (c * pow10 (e - qe) =? 0)%N = false) by (apply N.eqb_neq; nia).
    rewrite H6. unfold adjusted in *. lia.
Qed.

(** The exponent of a quantizer is one [quantize] accepts. *)
Lemma pow10_neg_range (places : Z) (s : bool) (qc : N) (qe : Z) :
  pow10_neg places = inr (Finite s qc qe) -> Etiny <= qe <= Emax.
Proof.
  unfold pow10_neg. destruct context_bounds as (Hp & Hmax & Htiny & Htop).
  destruct (0 <=? places) eqn:H0.
  - apply Z.leb_le in H0. destruct (- places <? Etiny) eqn:H1.
    + intros H. inversion H. lia.
    + apply Z.ltb_ge in H1. intros H. inversion H. lia.
  - apply Z.leb_gt in H0. destruct (Emax <? - places) eqn:H1; [discriminate|].
    apply Z.ltb_ge in H1. destruct (- places <? prec) eqn:H2.
    + intros H. inversion H. lia.
    + apply Z.ltb_ge in H2. intros H. inversion H. lia.
Qed.

(** An increment is asked for only where digits that are not all zero are
    dropped, and [ROUND_DOWN] asks for none. *)
Lemma _rescale_near (sign : bool) (c : N) (e qe : Z) (r : Rounding) (c' : N) :
  _rescale (Finite sign c e) qe r = Finite sign c' qe ->
  (c' * pow10 (qe - Z.min e qe)
     < c * pow10 (e - Z.min e qe) + pow10 (qe - Z.min e qe) /\
   c * pow10 (e - Z.min e qe)
     < c' * pow10 (qe - Z.min e qe) + pow10 (qe - Z.min e qe) /\
   ((c * pow10 (e - Z.min e qe)) mod pow10 (qe - Z.min e qe) = 0 ->
    c' * pow10 (qe - Z.min e qe) = c * pow10 (e - Z.min e qe)))%N.
Proof.
  destruct (N.eq_dec c 0%N) as [->|Hc].
  - unfold _rescale. cbn [N.eqb]. intros H. inversion H.
    pose proof (pow10_pos (qe - Z.min e qe)). lia.
  - destruct (Z.le_gt_cases qe e) as [Hle|Hlt].
    + unfold _rescale. apply N.eqb_neq in Hc. rewrite Hc.
      assert (H1 : (qe <=? e) = true) by (apply Z.leb_le; exact Hle).
      rewrite H1. intros H. inversion H.
      replace (Z.min e qe) with qe by lia. rewrite Z.sub_diag.
      change (pow10 0) with 1%N. rewrite N.mod_1_r. lia.
    + destruct (_rescale_drop sign c e qe r Hlt Hc) as (up & -> & Hup).
      intros H. inversion H as [Hc']. clear H.
      replace (Z.min e qe) with e by lia. rewrite Z.sub_diag.
      change (pow10 0) with 1%N. rewrite !N.mul_1_r.
      pose proof (pow10_pos (qe - e)) as HP.
      pose proof (N.div_mod c (pow10 (qe - e)) ltac:(lia)) as Hdm.
      pose proof (N.mod_lt c (pow10 (qe - e)) ltac:(lia)) as Hm.
      cbv zeta in Hup.
      generalize dependent (c / pow10 (qe - e))%N. intros q.
      generalize dependent (c mod pow10 (qe - e))%N. intros rem.
      generalize dependent (pow10 (qe - e)). intros P.
      intros.
      assert (Hneed : up = true -> rem <> 0%N).
      { intros ->. intros ->. destruct r, sign; cbn in Hup;
          try discriminate;
          repeat match goal with
                 | E : true = (_ <=? _)%N |- _ => symmetry in E; apply N.leb_le in E
                 | E : true = (_ <? _)%N |- _ => symmetry in E; apply N.ltb_lt in E
                 | E : true = orb _ _ |- _ =>
                     symmetry in E; apply orb_true_iff in E; destruct E as [E|E]
                 | E : andb _ _ = true |- _ => apply andb_true_iff in E; destruct E
                 | E : (_ <? _)%N = true |- _ => apply N.ltb_lt in E
                 | E : (_ =? _)%N = true |- _ => apply N.eqb_eq in E
                 end; lia. }
      destruct up; subst c'; [specialize (Hneed eq_refl)|]; nia.
Qed.

(** The direction each rounding moves in.  [v] is the magnitude rescaled
    and [u] the unit of the result, both counted in units of the smaller
    exponent. *)
Lemma _rescale_direction (sign : bool) (c : N) (e qe : Z) (r : Rounding)
    (c' : N) :
  _rescale (Finite sign c e) qe r = Finite sign c' qe ->
  let v := (c * pow10 (e - Z.min e qe))%N in
  let u := pow10 (qe - Z.min e qe) in
  match r with
  | ROUND_DOWN => (c' * u <= v)%N
  | ROUND_UP => (v <= c' * u)%N
  | ROUND_HALF_UP => (2 * (c' * u) <= 2 * v + u /\ 2 * v < 2 * (c' * u) + u)%N
  | ROUND_HALF_DOWN => (2 * (c' * u) < 2 * v + u /\ 2 * v <= 2 * (c' * u) + u)%N
  | ROUND_HALF_EVEN =>
      (2 * (c' * u) <= 2 * v + u /\ 2 * v <= 2 * (c' * u) + u)%N /\
      ((2 * (c' * u) = 2 * v + u \/ 2 * v = 2 * (c' * u) + u)%N ->
       N.even c' = true)
  | ROUND_CEILING => if sign then (c' * u <= v)%N else (v <= c' * u)%N
  | ROUND_FLOOR => if sign then (v <= c' * u)%N else (c' * u <= v)%N
  | ROUND_05UP => True
  end.
Proof.
  cbv zeta.
  destruct (N.eq_dec c 0%N) as [->|Hc].
  - unfold _rescale. cbn [N.eqb]. intros H. inversion H.
    pose proof (pow10_pos (qe - Z.min e qe)).
    destruct r, sign; try exact I; cbn [N.mul N.even]; try lia; (split; [lia|auto]).
  - destruct (Z.le_gt_cases qe e) as [Hle|Hlt].
    + unfold _rescale. apply N.eqb_neq in Hc. rewrite Hc.
      assert (H1 : (qe <=? e) = true) by (apply Z.leb_le; exact Hle).
      rewrite H1. intros H. inversion H.
      replace (Z.min e qe) with qe by lia. rewrite Z.sub_diag.
      change (pow10 0) with 1%N.
      destruct r, sign; try exact I; try lia; (split; [lia|intros; lia]).
    + destruct (_rescale_drop sign c e qe r Hlt Hc) as (up & -> & Hup).
      intros H. inversion H as [Hc']. clear H.
      replace (Z.min e qe) with e by lia. rewrite Z.sub_diag.
      change (pow10 0) with 1%N. rewrite !N.mul_1_r.
      pose proof (pow10_pos (qe - e)) as HP.
      pose proof (N.div_mod c (pow10 (qe - e)) ltac:(lia)) as Hdm.
      pose proof (N.mod_lt c (pow10 (qe - e)) ltac:(lia)) as Hm.
      cbv zeta in Hup.
      generalize dependent (c / pow10 (qe - e))%N. intros q.
      generalize dependent (c mod pow10 (qe - e))%N. intros rem.
      generalize dependent (pow10 (qe - e)). intros P.
      intros. subst c'.
      destruct r; try exact I; subst up;
        repeat match goal with
               | |- context [(?a =? ?b)%N] =>
                   let E := fresh in destruct (a =? b)%N eqn:E;
                   [apply N.eqb_eq in E|apply N.eqb_neq in E]
               | |- context [(?a <? ?b)%N] =>
                   let E := fresh in destruct (a <? b)%N eqn:E;
                   [apply N.ltb_lt in E|apply N.ltb_ge in E]
               | |- context [(?a <=? ?b)%N] =>
                   let E := fresh in destruct (a <=? b)%N eqn:E;
                   [apply N.leb_le in E|apply N.leb_gt in E]
               | |- context [if ?s then _ else _] => destruct s eqn:?
               end; cbn [negb andb orb]; try nia.
      all: try (split; [nia|]).
      all: try (intros [Ht|Ht]; try nia).
      all: try (rewrite N.add_0_r in *).
      all: try (rewrite N.even_add; rewrite <- N.negb_odd).
      all: try match goal with
               | E : N.odd _ = _ |- _ => rewrite E
               end; try reflexivity.
      all: try nia.
      all: cbn [orb andb] in *; try rewrite <- N.negb_odd;
        match goal with
        | E : N.odd _ = _ |- _ => rewrite E
        end; reflexivity.
Qed.



(** The quantizer of a currency, where there is one. *)
Lemma _get_quantizer_inv (c : Currency) (quantizer : Decimal) :
  _get_quantizer c = inr quantizer ->
  exists qc qe, quantizer = Finite false qc qe /\ Etiny <= qe <= Emax.
Proof.
  unfold _get_quantizer. intros H.
  destruct (pow10_neg_finite _ _ H) as (qc & qe & ->).
  exists qc, qe. split; [reflexivity|]. exact (pow10_neg_range _ _ _ _ H).
Qed.

Lemma _get_quantizer_places (c : Currency) :
  0 <= get_decimal_places (_provider c) (isocode c) <= - Etiny ->
  _get_quantizer c =
  inr (Finite false 1 (- get_decimal_places (_provider c) (isocode c))).
Proof. intros H. unfold _get_quantizer. apply pow10_neg_places. exact H. Qed.

(** A successful [quantize_amount] of a finite amount, read backwards. *)
Lemma quantize_amount_finite_inv (c : Currency) (force : option Rounding)
    (sign : bool) (coeff : N) (exp : Z) (q : Decimal) :
  quantize_amount c (Finite sign coeff exp) force = inr q ->
  exists qc qe coeff',
    _get_quantizer c = inr (Finite false qc qe) /\
    Etiny <= qe <= Emax /\
    q = Finite sign coeff' qe /\
    _rescale (Finite sign coeff exp) qe
      (match force with
       | Some r => r
       | None => get_rounding (_provider c) (isocode c)
       end) = Finite sign coeff' qe /\
    (coeff' <> 0%N -> ndigits coeff' <= prec /\ adjusted coeff' qe <= Emax).
Proof.
  unfold quantize_amount.
  destruct (_get_quantizer c) as [sig|quantizer] eqn:Hq; [discriminate|].
  destruct (_get_quantizer_inv c quantizer Hq) as (qc & qe & -> & Hrange).
  intros H. apply quantize_finite_inv in H.
  destruct H as (_ & c' & -> & Hr & Hfit).
  exists qc, qe, c'. auto.
Qed.

(** *** The text of the default provider *)

Lemma lt_zero (sign : bool) (c : N) (e : Z) :
  lt (Finite sign c e) (of_int 0) = inr (sign && negb (c =? 0)%N).
Proof.
  unfold lt, of_int. cbn [is_nan orb _cmp Z.ltb Z.compare Z.abs_N N.eqb].
  destruct (c =? 0)%N; [rewrite andb_false_r; reflexivity|].
  destruct sign; reflexivity.
Qed.

(** The text of a non-negative value of two decimal places: the whole
    part, the point, and two digits. *)
Lemma to_chars_two_places (k : N) :
  to_chars (Finite false k (-2)) =
  digits (k / 100) ++
  ["."%char; digit_char ((k / 10) mod 10); digit_char (k mod 10)].
Proof.
  destruct (N.lt_ge_cases k 10) as [H1|H1].
  - unfold to_chars. rewrite (ndigits_small k H1).
    rewrite (digits_eq k). apply N.ltb_lt in H1. rewrite H1.
    apply N.ltb_lt in H1.
    rewrite (N.div_small k 100) by lia. rewrite (N.div_small k 10) by lia.
    rewrite (N.mod_small k 10) by lia. reflexivity.
  - destruct (N.lt_ge_cases k 100) as [H2|H2].
    + unfold to_chars. rewrite (ndigits_step k H1).
      assert (Hq : (k / 10 < 10)%N) by (apply N.Div0.div_lt_upper_bound; lia).
      rewrite (ndigits_small _ Hq).
      rewrite (digits_eq k). apply N.ltb_ge in H1. rewrite H1.
      rewrite (digits_eq (k / 10)). apply N.ltb_lt in Hq. rewrite Hq.
      apply N.ltb_lt in Hq.
      rewrite (N.div_small k 100) by lia.
      rewrite (N.mod_small (k / 10) 10) by lia. reflexivity.
    + assert (Hq : (10 <= k / 10)%N) by (apply N.div_le_lower_bound; lia).
      assert (Hqq : (k / 10 / 10 = k / 100)%N)
        by (rewrite N.Div0.div_div; reflexivity).
      assert (Hd : digits k =
                   digits (k / 100) ++
                   [digit_char ((k / 10) mod 10); digit_char (k mod 10)]).
      { rewrite (digits_eq k). apply N.ltb_ge in H1. rewrite H1.
        rewrite (digits_eq (k / 10)). apply N.ltb_ge in Hq. rewrite Hq.
        rewrite Hqq. rewrite <- app_assoc. reflexivity. }
      assert (Hn : ndigits k = ndigits (k / 100) + 2).
      { rewrite (ndigits_step k H1), (ndigits_step _ Hq), Hqq. lia. }
      pose proof (ndigits_pos (k / 100)) as Hp.
      unfold to_chars. rewrite Hn. cbv zeta.
      replace (-2 + (ndigits (k / 100) + 2)) with (ndigits (k / 100)) by lia.
      assert (E1 : (-2 <=? 0) && (-6 <? ndigits (k / 100)) = true).
      { apply andb_true_iff. split; [reflexivity|apply Z.ltb_lt; lia]. }
      assert (E2 : (ndigits (k / 100) <=? 0) = false) by (apply Z.leb_gt; lia).
      assert (E3 : (ndigits (k / 100) + 2 <=? ndigits (k / 100)) = false)
        by (apply Z.leb_gt; lia).
      rewrite E1, E2, E3, Z.eqb_refl. cbn [sign_chars app].
      rewrite Hd. unfold ndigits. rewrite Nat2Z.id.
      rewrite firstn_app, Nat.sub_diag, firstn_all. cbn [firstn].
      rewrite skipn_app, Nat.sub_diag, skipn_all. cbn [skipn app].
      rewrite !app_nil_r. reflexivity.
Qed.

(** [DefaultCurrenciesProvider.format_amount] on a value of two decimal
    places that fits the precision. *)
Lemma default_format_two_places (code : string) (sign : bool) (k : N) :
  (k <> 0%N -> ndigits k <= prec) ->
  DefaultCurrenciesProvider_format_amount code (Finite sign k (-2)) =
  inr ((if sign && negb (k =? 0)%N then "-" else "") ++ "$" ++
       string_of_list_ascii
         (digits (k / 100) ++
          ["."%char; digit_char ((k / 10) mod 10); digit_char (k mod 10)]))%string.
Proof.
  intros Hfit. unfold DefaultCurrenciesProvider_format_amount.
  rewrite lt_zero. unfold abs. cbn [copy_abs].
  destruct context_bounds as (Hp & Hmax & Htiny & Htop).
  rewrite _fix_fits.
  - unfold to_string. rewrite to_chars_two_places. reflexivity.
  - lia.
  - destruct (k =? 0)%N eqn:Hk; [lia|]. apply N.eqb_neq in Hk.
    specialize (Hfit Hk). unfold adjusted. lia.
Qed.

(** The default provider formats no NaN: the comparison with zero raises. *)
Lemma default_format_nan (code : string) (d : Decimal) :
  is_nan d = true ->
  DefaultCurrenciesProvider_format_amount code d = inl InvalidOperation.
Proof.
  intros H. unfold DefaultCurrenciesProvider_format_amount, lt. rewrite H.
  reflexivity.
Qed.

Lemma formatted_eval (h : Heap) (m : ref) (o : Money) :
  moneys h !! m = Some o ->
  formatted m h =
  (lift_signal (format_amount_as_is (currency o) (amount o)), h).
Proof.
  intros H. unfold formatted, bind. rewrite (get_money_Some h m o H).
  reflexivity.
Qed.

Lemma Money_repr_eval (h : Heap) (m : ref) (o : Money) :
  moneys h !! m = Some o ->
  Money_repr m h =
  (match format_amount_as_is (currency o) (amount o) with
   | inl sig => inl (DecimalException sig)
   | inr text => inr (isocode (currency o) ++ text)%string
   end, h).
Proof.
  intros H. unfold Money_repr, bind. rewrite (get_money_Some h m o H).
  rewrite (formatted_eval h m o H).
  destruct (format_amount_as_is (currency o) (amount o)); reflexivity.
Qed.

(** *** What the operators leave alone *)

Lemma extends_refl (h : Heap) : extends h h.
Proof. exists [], []. rewrite !app_nil_r. auto. Qed.

Lemma extends_trans (h1 h2 h3 : Heap) :
  extends h1 h2 -> extends h2 h3 -> extends h1 h3.
Proof.
  intros (ms & ls & Hm & Hl) (ms' & ls' & Hm' & Hl').
  exists (ms ++ ms'), (ls ++ ls'). rewrite Hm', Hl', Hm, Hl, !app_assoc. auto.
Qed.

Lemma extends_init_heap (h : Heap) (c : Currency) (a : Decimal) :
  extends h (init_heap h c a).
Proof. eexists _, _. split; reflexivity. Qed.

Lemma extends_result_heap (h : Heap) (c : Currency) (q : Decimal)
    (op : MoneyOperator) (copies : list Money) (recorded : list Operand) :
  extends h (result_heap h c q op copies recorded).
Proof. eexists _, _. split; reflexivity. Qed.

Lemma extends_lookup (h h' : Heap) :
  extends h h' ->
  (forall m o, moneys h !! m = Some o -> moneys h' !! m = Some o) /\
  (forall l ops, lists h !! l = Some ops -> lists h' !! l = Some ops) /\
  (forall m ops, log_of h m = Some ops -> log_of h' m = Some ops).
Proof.
  intros (ms & ls & Hm & Hl).
  assert (H1 : forall m o, moneys h !! m = Some o -> moneys h' !! m = Some o).
  { intros m o H. rewrite Hm. apply lookup_app_l_Some. exact H. }
  assert (H2 : forall l ops, lists h !! l = Some ops -> lists h' !! l = Some ops).
  { intros l ops H. rewrite Hl. apply lookup_app_l_Some. exact H. }
  split; [exact H1|]. split; [exact H2|].
  intros m ops. unfold log_of.
  destruct (moneys h !! m) as [o|] eqn:Ho; [|discriminate].
  pose proof (H1 m o Ho) as Ho'.
  destruct (moneys h' !! m) as [o'|] eqn:Ho'';
    pose proof (eq_trans (eq_sym Ho'') Ho') as E; [|discriminate].
  injection E as ->. destruct (operations o) as [l|]; [|discriminate].
  apply H2.
Qed.

Lemma get_money_None (h : Heap) (m : ref) :
  moneys h !! m = None -> get_money m h = (inl Stuck, h).
Proof. intros H. unfold get_money. rewrite H. reflexivity. Qed.

(** [Money.__init__] for any currency argument. *)
Lemma Money_init_any (dp : CurrenciesProvider) (v : PyValue)
    (carg : CurrencyArg) (h : Heap) :
  Money_init dp v carg h =
  match clean_currency dp carg with
  | inl e => (inl e, h)
  | inr c => Money_init dp v (ACurrency c) h
  end.
Proof.
  unfold Money_init at 1.
  destruct (clean_currency dp carg) as [e|c] eqn:Hc.
  - apply bind_lift_inl.
  - rewrite bind_lift_inr. unfold Money_init. cbn [clean_currency].
    rewrite bind_lift_inr. reflexivity.
Qed.

Lemma Money_init_extends (dp : CurrenciesProvider) (v : PyValue)
    (carg : CurrencyArg) (h : Heap) :
  extends h (snd (Money_init dp v carg h)).
Proof.
  rewrite Money_init_any.
  destruct (clean_currency dp carg) as [e|c]; [apply extends_refl|].
  rewrite Money_init_eval.
  destruct (fst (clean_amount v c h)); [apply extends_refl|].
  apply extends_init_heap.
Qed.

(** [Money._clean_operand], evaluated. *)
Lemma _clean_operand_eval (dp : CurrenciesProvider) (a : ref) (v : PyValue)
    (h : Heap) :
  _clean_operand dp a v h =
  match moneys h !! a with
  | None => (inl Stuck, h)
  | Some oa =>
      if is_Number v then Money_init dp v (ACurrency (currency oa)) h
      else
        match v with
        | VMoney b =>
            match moneys h !! b with
            | None => (inl Stuck, h)
            | Some ob =>
                if Currency_eq (currency ob) (currency oa) then (inr b, h)
                else (inl (CurrencyMismatch (currency oa) (currency ob)), h)
            end
        | _ => (inl (InvalidOperand v), h)
        end
  end.
Proof.
  destruct (moneys h !! a) as [oa|] eqn:Ha.
  - destruct (is_Number v) eqn:Hv.
    + apply (_clean_operand_number dp h a oa v Ha Hv).
    + destruct v as [n|d|t|s|b|t]; try discriminate;
        try (apply (_clean_operand_other dp h a oa _ Ha); [reflexivity|congruence]).
      destruct (moneys h !! b) as [ob|] eqn:Hb.
      * destruct (Currency_eq (currency ob) (currency oa)) eqn:Heq.
        -- apply (_clean_operand_money dp h a b oa ob Ha Hb Heq).
        -- apply (_clean_operand_mismatch dp h a b oa ob Ha Hb Heq).
      * unfold _clean_operand. rewrite (bind_inr _ _ h h oa (get_money_Some _ _ _ Ha)).
        cbn [is_Number]. apply bind_inl. apply get_money_None. exact Hb.
  - unfold _clean_operand. apply bind_inl. apply get_money_None. exact Ha.
Qed.

Lemma _clean_operand_extends (dp : CurrenciesProvider) (a : ref) (v : PyValue)
    (h : Heap) :
  extends h (snd (_clean_operand dp a v h)).
Proof.
  rewrite _clean_operand_eval.
  destruct (moneys h !! a) as [oa|]; [|apply extends_refl].
  destruct (is_Number v); [apply Money_init_extends|].
  destruct v; try apply extends_refl.
  destruct (moneys h !! m) as [ob|]; [|apply extends_refl].
  destruct (Currency_eq (currency ob) (currency oa)); apply extends_refl.
Qed.

(** Once the operand is cleaned, an operator goes on as for the [Money]
    the cleaning has returned. *)
Lemma via_operand {B : Type} (dp : CurrenciesProvider) (a b : ref)
    (v : PyValue) (h h1 : Heap) (K : ref -> M B) :
  _clean_operand dp a v h = (inr b, h1) ->
  bind (_clean_operand dp a v) K h = bind (_clean_operand dp a (VMoney b)) K h1.
Proof.
  intros H. rewrite (bind_inr _ _ _ _ _ H).
  destruct (_clean_operand_facts dp h h1 a b v H)
    as (oa & ob & _ & Ha1 & Hb1 & Heq & _).
  rewrite (bind_inr _ _ h1 h1 b); [reflexivity|].
  apply (_clean_operand_money dp h1 a b oa ob Ha1 Hb1 Heq).
Qed.

Lemma new_result_money_money_extends (dp : CurrenciesProvider) (h : Heap)
    (value : Decimal) (c : Currency) (op : MoneyOperator) (a b : ref)
    (oa ob : Money) :
  moneys h !! a = Some oa -> moneys h !! b = Some ob ->
  extends h (snd (new_result dp value c op [VMoney a; VMoney b] h)).
Proof.
  intros Ha Hb. rewrite (new_result_money_money dp h value c op a b oa ob Ha Hb).
  destruct (quantize_amount c value None);
    [apply extends_refl|apply extends_result_heap].
Qed.

Lemma new_result_money_decimal_extends (dp : CurrenciesProvider) (h : Heap)
    (value d : Decimal) (c : Currency) (op : MoneyOperator) (a : ref)
    (oa : Money) :
  moneys h !! a = Some oa ->
  extends h (snd (new_result dp value c op [VMoney a; VDecimal d] h)).
Proof.
  intros Ha. rewrite (new_result_money_decimal dp h value d c op a oa Ha).
  destruct (quantize_amount c value None);
    [apply extends_refl|apply extends_result_heap].
Qed.

Lemma Money_add_money_extends (dp : CurrenciesProvider) (a b : ref) (h : Heap) :
  extends h (snd (Money_add dp a (VMoney b) h)).
Proof.
  destruct (_clean_operand dp a (VMoney b) h) as [[e|b'] h1] eqn:Hco.
  - unfold Money_add. rewrite (bind_inl _ _ _ _ _ Hco).
    pose proof (_clean_operand_extends dp a (VMoney b) h) as He.
    rewrite Hco in He. exact He.
  - destruct (_clean_operand_inv dp h h1 a b' (VMoney b) Hco)
      as (oa & Ha & [[Hn _]|(ob & Hv & -> & Hb & Heq)]); [discriminate|].
    injection Hv as Hv. subst b'.
    rewrite (Money_add_money_eval dp h a b oa ob Ha Hb Heq).
    destruct (add (amount oa) (amount ob)); [apply extends_refl|].
    apply (new_result_money_money_extends dp h _ _ _ a b oa ob Ha Hb).
Qed.

Lemma Money_sub_money_extends (dp : CurrenciesProvider) (a b : ref) (h : Heap) :
  extends h (snd (Money_sub dp a (VMoney b) h)).
Proof.
  destruct (_clean_operand dp a (VMoney b) h) as [[e|b'] h1] eqn:Hco.
  - unfold Money_sub. rewrite (bind_inl _ _ _ _ _ Hco).
    pose proof (_clean_operand_extends dp a (VMoney b) h) as He.
    rewrite Hco in He. exact He.
  - destruct (_clean_operand_inv dp h h1 a b' (VMoney b) Hco)
      as (oa & Ha & [[Hn _]|(ob & Hv & -> & Hb & Heq)]); [discriminate|].
    injection Hv as Hv. subst b'.
    rewrite (Money_sub_money_eval dp h a b oa ob Ha Hb Heq).
    destruct (sub (amount oa) (amount ob)); [apply extends_refl|].
    apply (new_result_money_money_extends dp h _ _ _ a b oa ob Ha Hb).
Qed.

(** An operator that cleans its operand and goes on with [K] extends the
    heap if [K] does. *)
Lemma operand_then_extends {B : Type} (dp : CurrenciesProvider) (a : ref)
    (v : PyValue) (h : Heap) (K : ref -> M B) :
  (forall b h1, extends h1 (snd (K b h1))) ->
  extends h (snd (bind (_clean_operand dp a v) K h)).
Proof.
  intros HK.
  pose proof (_clean_operand_extends dp a v h) as He.
  destruct (_clean_operand dp a v h) as [[e|b] h1] eqn:Hco.
  - rewrite (bind_inl _ _ _ _ _ Hco). exact He.
  - rewrite (bind_inr _ _ _ _ _ Hco).
    apply (extends_trans h h1); [exact He|apply HK].
Qed.

Lemma Money_add_extends (dp : CurrenciesProvider) (a : ref) (v : PyValue)
    (h : Heap) :
  extends h (snd (Money_add dp a v h)).
Proof.
  pose proof (_clean_operand_extends dp a v h) as He.
  destruct (_clean_operand dp a v h) as [[e|b] h1] eqn:Hco.
  - unfold Money_add. rewrite (bind_inl _ _ _ _ _ Hco). exact He.
  - unfold Money_add. rewrite (via_operand dp a b v h h1 _ Hco).
    apply (extends_trans h h1); [exact He|].
    apply (Money_add_money_extends dp a b h1).
Qed.

Lemma Money_sub_extends (dp : CurrenciesProvider) (a : ref) (v : PyValue)
    (h : Heap) :
  extends h (snd (Money_sub dp a v h)).
Proof.
  pose proof (_clean_operand_extends dp a v h) as He.
  destruct (_clean_operand dp a v h) as [[e|b] h1] eqn:Hco.
  - unfold Money_sub. rewrite (bind_inl _ _ _ _ _ Hco). exact He.
  - unfold Money_sub. rewrite (via_operand dp a b v h h1 _ Hco).
    apply (extends_trans h h1); [exact He|].
    apply (Money_sub_money_extends dp a b h1).
Qed.

Lemma Money_rsub_extends (dp : CurrenciesProvider) (a : ref) (v : PyValue)
    (h : Heap) :
  extends h (snd (Money_rsub dp a v h)).
Proof.
  unfold Money_rsub. apply operand_then_extends.
  intros b h1. apply Money_sub_extends.
Qed.

Lemma Money_mul_extends (dp : CurrenciesProvider) (a : ref) (v : PyValue)
    (h : Heap) :
  extends h (snd (Money_mul dp a v h)).
Proof.
  destruct (is_Number v) eqn:Hv.
  - destruct (moneys h !! a) as [oa|] eqn:Ha.
    + rewrite (Money_mul_eval dp h a oa v Ha Hv).
      destruct (fst (clean_amount v (currency oa) h)); [apply extends_refl|].
      destruct (mul (amount oa) d); [apply extends_refl|].
      apply (new_result_money_decimal_extends dp h _ _ _ _ a oa Ha).
    + unfold Money_mul. rewrite Hv. cbn [negb].
      rewrite (bind_inl _ _ _ _ _ (get_money_None h a Ha)). apply extends_refl.
  - unfold Money_mul. rewrite Hv. apply extends_refl.
Qed.

Lemma Money_truediv_extends (dp : CurrenciesProvider) (a : ref) (v : PyValue)
    (h : Heap) :
  extends h (snd (Money_truediv dp a v h)).
Proof.
  destruct (moneys h !! a) as [oa|] eqn:Ha.
  - rewrite (Money_truediv_eval dp h a oa v Ha).
    destruct (fst (clean_amount v (currency oa) h)); [apply extends_refl|].
    destruct (truediv (amount oa) d); [apply extends_refl|].
    apply (new_result_money_decimal_extends dp h _ _ _ _ a oa Ha).
  - unfold Money_truediv.
    rewrite (bind_inl _ _ _ _ _ (get_money_None h a Ha)). apply extends_refl.
Qed.

(** *** The operators that return, with the heap they leave *)

Lemma result_heap_lookup_copy (h : Heap) (c : Currency) (q : Decimal)
    (op : MoneyOperator) (copies : list Money) (recorded : list Operand)
    (i : nat) :
  moneys (result_heap h c q op copies recorded)
    !! (S (S (length (moneys h))) + i)%nat = copies !! i.
Proof.
  unfold result_heap. cbn [moneys].
  rewrite lookup_app_r by lia.
  replace (S (S (length (moneys h))) + i - length (moneys h))%nat
    with (S (S i)) by lia.
  reflexivity.
Qed.

Lemma Money_add_returns (dp : CurrenciesProvider) (h h' : Heap) (a r : ref)
    (v : PyValue) :
  Money_add dp a v h = (inr r, h') ->
  exists oa ob b h1 s q,
    _clean_operand dp a v h = (inr b, h1) /\
    moneys h1 !! a = Some oa /\ moneys h1 !! b = Some ob /\
    add (amount oa) (amount ob) = inr s /\
    quantize_amount (currency oa) s None = inr q /\
    r = length (moneys h1) /\
    h' = result_heap h1 (currency oa) q ADDITION [oa; ob]
           [OMoney (S (S r)); OMoney (S (S (S r)))].
Proof.
  destruct (_clean_operand dp a v h) as [[e|b] h1] eqn:Hco.
  - unfold Money_add. rewrite (bind_inl _ _ _ _ _ Hco). discriminate.
  - unfold Money_add. rewrite (via_operand dp a b v h h1 _ Hco).
    fold (Money_add dp a (VMoney b) h1).
    destruct (_clean_operand_facts dp h h1 a b v Hco)
      as (oa & ob & _ & Ha1 & Hb1 & Heq & _).
    rewrite (Money_add_money_eval dp h1 a b oa ob Ha1 Hb1 Heq).
    destruct (add (amount oa) (amount ob)) as [sig|s] eqn:Hs; [discriminate|].
    rewrite (new_result_money_money dp h1 s _ _ a b oa ob Ha1 Hb1).
    destruct (quantize_amount (currency oa) s None) as [sig|q] eqn:Hq;
      [discriminate|].
    intros H. injection H as <- <-.
    exists oa, ob, b, h1, s, q. repeat split; assumption.
Qed.

Lemma Money_sub_returns (dp : CurrenciesProvider) (h h' : Heap) (a r : ref)
    (v : PyValue) :
  Money_sub dp a v h = (inr r, h') ->
  exists oa ob b h1 s q,
    _clean_operand dp a v h = (inr b, h1) /\
    moneys h1 !! a = Some oa /\ moneys h1 !! b = Some ob /\
    sub (amount oa) (amount ob) = inr s /\
    quantize_amount (currency oa) s None = inr q /\
    r = length (moneys h1) /\
    h' = result_heap h1 (currency oa) q SUBSTRACTION [oa; ob]
           [OMoney (S (S r)); OMoney (S (S (S r)))].
Proof.
  destruct (_clean_operand dp a v h) as [[e|b] h1] eqn:Hco.
  - unfold Money_sub. rewrite (bind_inl _ _ _ _ _ Hco). discriminate.
  - unfold Money_sub. rewrite (via_operand dp a b v h h1 _ Hco).
    fold (Money_sub dp a (VMoney b) h1).
    destruct (_clean_operand_facts dp h h1 a b v Hco)
      as (oa & ob & _ & Ha1 & Hb1 & Heq & _).
    rewrite (Money_sub_money_eval dp h1 a b oa ob Ha1 Hb1 Heq).
    destruct (sub (amount oa) (amount ob)) as [sig|s] eqn:Hs; [discriminate|].
    rewrite (new_result_money_money dp h1 s _ _ a b oa ob Ha1 Hb1).
    destruct (quantize_amount (currency oa) s None) as [sig|q] eqn:Hq;
      [discriminate|].
    intros H. injection H as <- <-.
    exists oa, ob, b, h1, s, q. repeat split; assumption.
Qed.

Lemma Money_mul_returns (dp : CurrenciesProvider) (h h' : Heap) (a r : ref)
    (v : PyValue) :
  Money_mul dp a v h = (inr r, h') ->
  exists oa cleaned_amount p q,
    is_Number v = true /\
    moneys h !! a = Some oa /\
    fst (clean_amount v (currency oa) h) = inr cleaned_amount /\
    mul (amount oa) cleaned_amount = inr p /\
    quantize_amount (currency oa) p None = inr q /\
    r = length (moneys h) /\
    h' = result_heap h (currency oa) q MULTIPLICATION [oa]
           [OMoney (S (S r)); ODecimal cleaned_amount].
Proof.
  intros H.
  destruct (Money_mul_inv dp h h' a r v H)
    as (oa & k & p & Hv & Ha & Hk & Hp & _).
  rewrite (Money_mul_eval dp h a oa v Ha Hv), Hk, Hp in H.
  rewrite (new_result_money_decimal dp h p k _ _ a oa Ha) in H.
  destruct (quantize_amount (currency oa) p None) as [sig|q] eqn:Hq;
    [discriminate|].
  injection H as <- <-.
  exists oa, k, p, q. repeat split; assumption.
Qed.

Lemma Money_truediv_returns (dp : CurrenciesProvider) (h h' : Heap)
    (a r : ref) (v : PyValue) :
  Money_truediv dp a v h = (inr r, h') ->
  exists oa cleaned_amount p q,
    moneys h !! a = Some oa /\
    fst (clean_amount v (currency oa) h) = inr cleaned_amount /\
    truediv (amount oa) cleaned_amount = inr p /\
    quantize_amount (currency oa) p None = inr q /\
    r = length (moneys h) /\
    h' = result_heap h (currency oa) q DIVISION [oa]
           [OMoney (S (S r)); ODecimal cleaned_amount].
Proof.
  intros H.
  destruct (Money_truediv_inv dp h h' a r v H)
    as (oa & k & p & Ha & Hk & Hp & _).
  rewrite (Money_truediv_eval dp h a oa v Ha), Hk, Hp in H.
  rewrite (new_result_money_decimal dp h p k _ _ a oa Ha) in H.
  destruct (quantize_amount (currency oa) p None) as [sig|q] eqn:Hq;
    [discriminate|].
  injection H as <- <-.
  exists oa, k, p, q. repeat split; assumption.
Qed.

Lemma result_heap_records_two (h : Heap) (c : Currency) (q : Decimal)
    (op : MoneyOperator) (oa ob : Money) :
  let r := length (moneys h) in
  let h' := result_heap h c q op [oa; ob]
              [OMoney (S (S r)); OMoney (S (S (S r)))] in
  records h' r op [OMoney (S (S r)); OMoney (S (S (S r)))] /\
  copy_of h h' (S (S r)) oa /\ copy_of h h' (S (S (S r))) ob.
Proof.
  cbv zeta. split; [apply result_heap_log|].
  split; (split; [lia|]).
  - pose proof (result_heap_lookup_copy h c q op [oa; ob]
                  [OMoney (S (S (length (moneys h))));
                   OMoney (S (S (S (length (moneys h)))))] 0) as H.
    rewrite Nat.add_0_r in H. exact H.
  - pose proof (result_heap_lookup_copy h c q op [oa; ob]
                  [OMoney (S (S (length (moneys h))));
                   OMoney (S (S (S (length (moneys h)))))] 1) as H.
    replace (S (S (length (moneys h))) + 1)%nat
      with (S (S (S (length (moneys h))))) in H by lia.
    exact H.
Qed.

Lemma result_heap_records_one (h : Heap) (c : Currency) (q d : Decimal)
    (op : MoneyOperator) (oa : Money) :
  let r := length (moneys h) in
  let h' := result_heap h c q op [oa] [OMoney (S (S r)); ODecimal d] in
  records h' r op [OMoney (S (S r)); ODecimal d] /\
  copy_of h h' (S (S r)) oa.
Proof.
  cbv zeta. split; [apply result_heap_log|].
  split; [lia|].
  pose proof (result_heap_lookup_copy h c q op [oa]
                [OMoney (S (S (length (moneys h)))); ODecimal d] 0) as H.
  rewrite Nat.add_0_r in H. exact H.
Qed.

(** *** The copy [__init__] records, and the in-place operators *)

Lemma init_heap_lookup_snapshot (h : Heap) (c : Currency) (a : Decimal) :
  moneys (init_heap h c a) !! S (length (moneys h)) =
  Some {| currency := c; amount := a; operations := None |}.
Proof.
  unfold init_heap. cbn [moneys]. rewrite lookup_app_r by lia.
  replace (S (length (moneys h)) - length (moneys h))%nat with 1%nat by lia.
  reflexivity.
Qed.

Lemma _add_operation_no_log (h : Heap) (m : ref) (o : Money)
    (op : MoneyOperator) (operands : list PyValue) :
  moneys h !! m = Some o -> operations o = None ->
  _add_operation m op operands h = (inl AttributeError, h).
Proof.
  intros Hm Ho. unfold _add_operation.
  rewrite (bind_inr _ _ h h o (get_money_Some _ _ _ Hm)). rewrite Ho.
  reflexivity.
Qed.

(** The sum of two values one of which is a NaN, where there is one, is a
    NaN that [_fix_nan] leaves alone; so is the difference. *)
Lemma add_nan (x y s : Decimal) :
  is_nan x = true \/ is_nan y = true ->
  add x y = inr s \/ sub x y = inr s ->
  is_nan s = true /\ is_snan s = false /\ _fix_nan s = s.
Proof.
  intros Hn Hs.
  assert (H : _check_nans x y = Some (inr s)).
  { destruct Hs as [Hs|Hs]; [unfold add in Hs|unfold sub in Hs];
      destruct x as [s1 c1 e1|s1|s1 [] d1], y as [s2 c2 e2|s2|s2 [] d2];
      cbn [_check_nans] in *; try discriminate; try congruence;
      destruct Hn; discriminate. }
  clear Hs.
  assert (Hfix : forall sg d,
            is_nan (_fix_nan (NaN sg false d)) = true /\
            is_snan (_fix_nan (NaN sg false d)) = false /\
            _fix_nan (_fix_nan (NaN sg false d)) = _fix_nan (NaN sg false d)).
  { intros sg d. split; [|split; [|apply _fix_nan_idem]];
      destruct (_fix_nan_is_nan sg d) as [d' ->]; reflexivity. }
  destruct x as [s1 c1 e1|s1|s1 [] d1], y as [s2 c2 e2|s2|s2 [] d2];
    cbn [_check_nans] in H; try discriminate;
    injection H as <-; apply Hfix.
Qed.

(** A quiet NaN that [_fix_nan] leaves alone is what a currency quantizes
    it to. *)
Lemma quantize_amount_nan (c : Currency) (s q : Decimal) :
  is_nan s = true -> _fix_nan s = s ->
  quantize_amount c s None = inr q -> q = s.
Proof.
  intros Hn Hf. unfold quantize_amount.
  destruct (_get_quantizer c) as [sig|quantizer] eqn:Hq; [discriminate|].
  destruct (_get_quantizer_inv c quantizer Hq) as (qc & qe & -> & _).
  destruct s as [s1 c1 e1|s1|s1 g d1]; try discriminate.
  destruct g; [rewrite quantize_snan; discriminate|].
  rewrite quantize_nan, Hf. congruence.
Qed.

(** The quantization of a sum or difference of two amounts, each a NaN or
    of the exponent of the quantizer, is the sum or difference itself. *)
Lemma quantize_amount_of_clean (c : Currency) (x y s q : Decimal) :
  is_nan x = true \/ quantized_to c x ->
  is_nan y = true \/ quantized_to c y ->
  add x y = inr s \/ sub x y = inr s ->
  quantize_amount c s None = inr q ->
  q = s.
Proof.
  intros [Hx|Hx] [Hy|Hy] Hs Hq.
  - destruct (add_nan x y s (or_introl Hx) Hs) as (Hn & _ & Hf).
    exact (quantize_amount_nan c s q Hn Hf Hq).
  - destruct (add_nan x y s (or_introl Hx) Hs) as (Hn & _ & Hf).
    exact (quantize_amount_nan c s q Hn Hf Hq).
  - destruct (add_nan x y s (or_intror Hy) Hs) as (Hn & _ & Hf).
    exact (quantize_amount_nan c s q Hn Hf Hq).
  - exact (Claims.quantize_amount_of_quantized c x y s q Hx Hy Hs Hq).
Qed.

(** *** Sums and differences at one exponent *)

(** The sum of two finite values of one exponent is the sum of the signed
    coefficients at that exponent, before [_fix]. *)
Lemma add_same_exp_exact (s1 s2 : bool) (c1 c2 : N) (e : Z) :
  exists s c,
    add (Finite s1 c1 e) (Finite s2 c2 e) = _fix (Finite s c e) /\
    signed s c = signed s1 c1 + signed s2 c2.
Proof.
  unfold add. cbn [_check_nans]. rewrite Z.min_id.
  replace (Z.max e (e - prec - 1)) with e by (unfold prec; lia).
  rewrite !_rescale_same_exp. rewrite _normalize_same_exp.
  destruct (c1 =? 0)%N eqn:H1; [apply N.eqb_eq in H1|apply N.eqb_neq in H1];
  destruct (c2 =? 0)%N eqn:H2; [apply N.eqb_eq in H2|apply N.eqb_neq in H2| |];
    cbn [andb].
  - subst. exists (s1 && s2), 0%N. split; [reflexivity|].
    destruct s1, s2; reflexivity.
  - subst. exists s2, c2. split; [reflexivity|]. destruct s1; unfold signed; lia.
  - apply N.eqb_eq in H2. subst. exists s1, c1. split; [reflexivity|].
    destruct s2; unfold signed; lia.
  - apply N.eqb_neq in H2.
    destruct (negb (eqb s1 s2)) eqn:Hs.
    + destruct (c1 =? c2)%N eqn:He; [apply N.eqb_eq in He|apply N.eqb_neq in He].
      * exists false, 0%N. split; [reflexivity|].
        destruct s1, s2; try discriminate; unfold signed; lia.
      * destruct (c1 <? c2)%N eqn:Hl;
          [apply N.ltb_lt in Hl|apply N.ltb_ge in Hl];
          eexists _, _; (split; [reflexivity|]);
          destruct s1, s2; try discriminate; unfold signed; lia.
    + eexists _, _. split; [reflexivity|].
      destruct s1, s2; try discriminate; unfold signed; lia.
Qed.

Lemma sub_same_exp_exact (s1 s2 : bool) (c1 c2 : N) (e : Z) :
  exists s c,
    sub (Finite s1 c1 e) (Finite s2 c2 e) = _fix (Finite s c e) /\
    signed s c = signed s1 c1 - signed s2 c2.
Proof.
  unfold sub. cbn [_check_nans copy_negate].
  destruct (add_same_exp_exact s1 (negb s2) c1 c2 e) as (s & c & Ha & Hz).
  exists s, c. split; [exact Ha|]. rewrite Hz. destruct s2; unfold signed; cbn [negb]; lia.
Qed.

(** A coefficient is below [10 ** prec] exactly when it is zero or has no
    more digits than the precision. *)
Lemma below_pow10_prec (c : N) :
  (c <? pow10 prec)%N = (c =? 0)%N || (ndigits c <=? prec).
Proof.
  destruct (c =? 0)%N eqn:Hc.
  - apply N.eqb_eq in Hc. subst c. reflexivity.
  - apply N.eqb_neq in Hc. cbn [orb].
    destruct (c <? pow10 prec)%N eqn:Hlt.
    + apply N.ltb_lt in Hlt. symmetry. apply Z.leb_le.
      apply ndigits_le_pow10; [discriminate|exact Hlt|lia].
    + apply N.ltb_ge in Hlt. symmetry. apply Z.leb_gt.
      pose proof (ndigits_ge_pow10 _ _ Hlt). lia.
Qed.

(** What [_fix] and then [quantize] at the exponent of the value give: the
    value, if it fits the precision and the exponent range, and
    [InvalidOperation] otherwise. *)
Lemma fix_then_quantize (s qs : bool) (c qc : N) (e : Z) (r : Rounding)
    (d : Decimal) :
  Etiny <= e <= Emax ->
  _fix (Finite s c e) = inr d ->
  quantize d (Finite qs qc e) r =
  if (c =? 0)%N || ((ndigits c <=? prec) && (adjusted c e <=? Emax))
  then inr (Finite s c e)
  else inl InvalidOperation.
Proof.
  intros Hrange Hfix.
  destruct ((c =? 0)%N || ((ndigits c <=? prec) && (adjusted c e <=? Emax)))
    eqn:Hfits.
  - assert (Hf : _fix (Finite s c e) = inr (Finite s c e)).
    { apply _fix_fits; [lia|].
      destruct (c =? 0)%N; [lia|]. cbn [orb] in Hfits.
      apply andb_true_iff in Hfits. destruct Hfits as [H1 H2].
      apply Z.leb_le in H1. apply Z.leb_le in H2. auto. }
    rewrite Hf in Hfix. injection Hfix as <-.
    apply quantize_stable; [exact Hrange|].
    intros Hc. apply N.eqb_neq in Hc. rewrite Hc in Hfits. cbn [orb] in Hfits.
    apply andb_true_iff in Hfits. destruct Hfits as [H1 H2].
    apply Z.leb_le in H1. apply Z.leb_le in H2. auto.
  - apply orb_false_iff in Hfits. destruct Hfits as [Hc Hfits].
    apply N.eqb_neq in Hc.
    destruct (_fix_exp s c e d ltac:(lia) ltac:(intros; lia) Hfix)
      as (c' & e' & -> & [[-> ->]|[He Hc']]).
    + unfold quantize. cbn [_check_nans].
      destruct (negb ((Etiny <=? e) && (e <=? Emax))); [reflexivity|].
      apply N.eqb_neq in Hc. rewrite Hc.
      destruct (Emax <? adjusted c e) eqn:Ha; [reflexivity|].
      apply Z.ltb_ge in Ha.
      apply andb_false_iff in Hfits. destruct Hfits as [H1|H2].
      * apply Z.leb_gt in H1.
        assert (H3 : (prec <? adjusted c e - e + 1) = true)
          by (apply Z.ltb_lt; unfold adjusted; lia).
        rewrite H3. reflexivity.
      * apply Z.leb_gt in H2. lia.
    + apply quantize_too_many_digits; assumption.
Qed.

Lemma quantized_to_inv (c : Currency) (s : bool) (k : N) (e : Z) :
  quantized_to c (Finite s k e) ->
  exists qc, _get_quantizer c = inr (Finite false qc e) /\ Etiny <= e <= Emax.
Proof.
  unfold quantized_to.
  destruct (_get_quantizer c) as [sig|quantizer] eqn:Hq; [tauto|].
  destruct (_get_quantizer_inv c quantizer Hq) as (qc & qe & -> & Hrange).
  intros ->. exists qc. auto.
Qed.

(** The end of [+] and [-] on two amounts of the exponent of the
    quantizer: the new [Money] holds the exact value, or the operator
    raises because the value does not fit the precision. *)
Lemma new_result_exact (dp : CurrenciesProvider) (h : Heap) (c : Currency)
    (op : MoneyOperator) (a b : ref) (oa ob : Money) (s : bool) (k qc : N)
    (e : Z) :
  moneys h !! a = Some oa -> moneys h !! b = Some ob ->
  _get_quantizer c = inr (Finite false qc e) -> Etiny <= e <= Emax -> e <= 0 ->
  let F := fun h =>
    match _fix (Finite s k e) with
    | inl sig => (inl (DecimalException sig), h)
    | inr d => new_result dp d c op [VMoney a; VMoney b] h
    end in
  if (k <? pow10 prec)%N
  then returns_money F h c (Finite s k e)
  else raises_decimal F h.
Proof.
  intros Ha Hb Hq Hrange He. cbv zeta.
  destruct context_bounds as (Hp & Hmax & Htiny & Htop).
  assert (Hfits : (k =? 0)%N || ((ndigits k <=? prec) && (adjusted k e <=? Emax))
                  = (k <? pow10 prec)%N).
  { rewrite below_pow10_prec. destruct (k =? 0)%N; [reflexivity|]. cbn [orb].
    destruct (ndigits k <=? prec) eqn:Hn; [|reflexivity]. cbn [andb].
    apply Z.leb_le in Hn. apply Z.leb_le. unfold adjusted. lia. }
  unfold returns_money, raises_decimal.
  destruct (_fix (Finite s k e)) as [sig|d] eqn:Hfix; cbv beta iota.
  - destruct (k <? pow10 prec)%N eqn:Hlt.
    + exfalso. rewrite _fix_fits in Hfix; [discriminate|lia|].
      destruct (k =? 0)%N; [lia|]. cbn [orb] in Hfits.
      apply andb_true_iff in Hfits. destruct Hfits as [H1 H2].
      apply Z.leb_le in H1. apply Z.leb_le in H2. auto.
    + exists sig. reflexivity.
  - rewrite (new_result_money_money dp h d c op a b oa ob Ha Hb).
    unfold quantize_amount. rewrite Hq.
    rewrite (fix_then_quantize s false k qc e _ d Hrange Hfix), Hfits.
    destruct (k <? pow10 prec)%N.
    + eexists _, _, _. split; [reflexivity|]. apply result_heap_lookup_new.
    + exists InvalidOperation. reflexivity.
Qed.

(** [Money.clean_amount] of an [int]: zeros are added after the point, and
    what does not fit the precision with them is refused. *)
Lemma clean_amount_int_pad (c : Currency) (n : Z) (h : Heap) :
  0 <= get_decimal_places (_provider c) (isocode c) <= - Etiny ->
  clean_amount (VInt n) c h =
  (if (Z.abs_N n * pow10 (get_decimal_places (_provider c) (isocode c))
         <? pow10 prec)%N
   then inr (Finite (n <? 0)
               (Z.abs_N n * pow10 (get_decimal_places (_provider c) (isocode c)))
               (- get_decimal_places (_provider c) (isocode c)))
   else inl (DecimalException InvalidOperation), h).
Proof.
  intros Hplaces. rewrite clean_amount_int. f_equal.
  unfold quantize_amount. rewrite (_get_quantizer_places c Hplaces).
  generalize dependent (get_decimal_places (_provider c) (isocode c)).
  intros places Hplaces.
  destruct context_bounds as (Hp & Hmax & Htiny & Htop).
  unfold of_int. rewrite quantize_pad by lia.
  replace (0 - - places) with places by lia.
  pose proof (pow10_pos places) as HP.
  destruct (Z.abs_N n =? 0)%N eqn:Hz.
  - apply N.eqb_eq in Hz. rewrite Hz. rewrite N.mul_0_l.
    assert (H0 : (0 <? pow10 prec)%N = true)
      by (apply N.ltb_lt; apply pow10_pos).
    rewrite H0. reflexivity.
  - apply N.eqb_neq in Hz.
    assert (Hnd : ndigits (Z.abs_N n * pow10 places) = ndigits (Z.abs_N n) + places)
      by (apply ndigits_mul_pow10; lia).
    destruct (Z.abs_N n * pow10 places <? pow10 prec)%N eqn:Hfit.
    + apply N.ltb_lt in Hfit.
      assert (Hle : ndigits (Z.abs_N n * pow10 places) <= prec)
        by (apply ndigits_le_pow10; [lia|exact Hfit|nia]).
      assert (H1 : (Emax <? adjusted (Z.abs_N n) 0) = false)
        by (apply Z.ltb_ge; unfold adjusted; lia).
      assert (H2 : (prec <? ndigits (Z.abs_N n) + places) = false)
        by (apply Z.ltb_ge; lia).
      rewrite H1, H2. reflexivity.
    + apply N.ltb_ge in Hfit.
      pose proof (ndigits_ge_pow10 _ _ Hfit) as Hge.
      assert (H2 : (prec <? ndigits (Z.abs_N n) + places) = true)
        by (apply Z.ltb_lt; lia).
      rewrite H2, orb_true_r. reflexivity.
Qed.

(** *** Products *)

(** Where [_fix] rounds, the exponent is raised by the number of digits
    above the precision at least, and the coefficient fills the
    precision. *)
Lemma _fix_exp_lower (sign : bool) (c : N) (e : Z) (d : Decimal) :
  Etiny <= e -> c <> 0%N ->
  _fix (Finite sign c e) = inr d ->
  exists c' e', d = Finite sign c' e' /\
    ((e' = e /\ c' = c) \/
     (e < e' /\ ndigits c + e - prec <= e' /\ (pow10 (prec - 1) <= c')%N)).
Proof.
  intros Hlo Hc. unfold _fix.
  destruct context_bounds as (Hp & Hmax & Htiny & Htop).
  apply N.eqb_neq in Hc. rewrite Hc. apply N.eqb_neq in Hc.
  destruct (Etop <? ndigits c + e - prec); [discriminate|].
  destruct (ndigits c + e - prec <? Etiny) eqn:Hsub.
  - replace (e <? Etiny) with false by (symmetry; apply Z.ltb_ge; lia).
    intros H. inversion H. exists c, e. split; [reflexivity|]. left. split; reflexivity.
  - apply Z.ltb_ge in Hsub.
    destruct (e <? ndigits c + e - prec) eqn:Hround.
    + apply Z.ltb_lt in Hround.
      replace (ndigits c + e - (ndigits c + e - prec) <? 0) with false
        by (symmetry; apply Z.ltb_ge; lia).
      set (k := ndigits c + e - prec - e).
      set (changed := _pick_rounding_function context_rounding sign c k).
      set (coeff := (c / pow10 k)%N).
      assert (Hcoeff : (pow10 (prec - 1) <= coeff)%N).
      { apply pow10_div_lower; [lia|unfold k; lia|].
        destruct (ndigits_bounds c ltac:(lia)) as [Hb _].
        replace (prec - 1 + k) with (ndigits c - 1) by (unfold k; lia).
        exact Hb. }
      set (coeff1 := if 0 <? changed then (coeff + 1)%N else coeff).
      assert (Hcoeff1 : (coeff <= coeff1)%N).
      { unfold coeff1. destruct (0 <? changed); lia. }
      destruct ((0 <? changed) && (prec <? ndigits coeff1)) eqn:Hcarry.
      * destruct (Etop <? ndigits c + e - prec + 1); [discriminate|].
        intros H. inversion H. eexists _, _. split; [reflexivity|].
        right. split; [lia|]. split; [lia|].
        apply andb_true_iff in Hcarry. destruct Hcarry as [_ Hnd].
        apply Z.ltb_lt in Hnd.
        assert (Hpos1 : (0 < coeff1)%N) by (pose proof (pow10_pos (prec - 1)); lia).
        destruct (ndigits_bounds coeff1 Hpos1) as [Hb _].
        pose proof (pow10_le prec (ndigits coeff1 - 1) ltac:(lia)) as Hle.
        replace prec with (prec - 1 + 1) in Hle at 1 by lia.
        rewrite pow10_succ in Hle by lia.
        apply N.div_le_lower_bound; lia.
      * destruct (Etop <? ndigits c + e - prec); [discriminate|].
        intros H. inversion H. eexists _, _. split; [reflexivity|].
        right. split; [lia|]. split; lia.
    + intros H. inversion H. exists c, e. split; [reflexivity|]. left. split; reflexivity.
Qed.

(** [quantize] refuses a value that needs more digits than the precision
    at the exponent asked for. *)
Lemma quantize_too_large (sign qs : bool) (c qc : N) (e qe : Z)
    (r : Rounding) :
  c <> 0%N -> prec < ndigits c + e - qe ->
  quantize (Finite sign c e) (Finite qs qc qe) r = inl InvalidOperation.
Proof.
  intros Hc Hbig. unfold quantize. cbn [_check_nans].
  destruct (negb ((Etiny <=? qe) && (qe <=? Emax))); [reflexivity|].
  apply N.eqb_neq in Hc. rewrite Hc.
  destruct (Emax <? adjusted c e); [reflexivity|].
  assert (H : (prec <? adjusted c e - qe + 1) = true)
    by (apply Z.ltb_lt; unfold adjusted; lia).
  rewrite H. reflexivity.
Qed.

(** [_fix] on a coefficient that ends in zeros and has no more digits
    than the precision before them: zeros are dropped, the value is
    kept. *)
Lemma _fix_exact (sign : bool) (c : N) (j e : Z) :
  c <> 0%N -> ndigits c <= prec -> 0 <= j -> Etiny <= e ->
  e + j + ndigits c - 1 <= Emax ->
  exists j', 0 <= j' <= j /\
    _fix (Finite sign (c * pow10 j) e) =
    inr (Finite sign (c * pow10 j') (e + j - j')).
Proof.
  intros Hc Hnd Hj Hlo Hadj.
  destruct context_bounds as (Hp & Hmax & Htiny & Htop).
  pose proof (pow10_pos j) as HPj.
  assert (HC : (c * pow10 j <> 0)%N) by nia.
  assert (HndC : ndigits (c * pow10 j) = ndigits c + j)
    by (apply ndigits_mul_pow10; lia).
  unfold _fix. apply N.eqb_neq in HC. rewrite HC. rewrite HndC.
  assert (H1 : (Etop <? ndigits c + j + e - prec) = false)
    by (apply Z.ltb_ge; lia).
  rewrite H1.
  destruct (ndigits c + j + e - prec <? Etiny) eqn:Hsub.
  - assert (H2 : (e <? Etiny) = false) by (apply Z.ltb_ge; lia). rewrite H2.
    exists j. split; [lia|]. replace (e + j - j) with e by lia. reflexivity.
  - apply Z.ltb_ge in Hsub.
    destruct (e <? ndigits c + j + e - prec) eqn:Hround.
    + apply Z.ltb_lt in Hround.
      assert (H3 : (ndigits c + j + e - (ndigits c + j + e - prec) <? 0) = false)
        by (apply Z.ltb_ge; lia).
      rewrite H3.
      remember (ndigits c + j + e - prec - e) as k eqn:Hkdef.
      assert (Hk : 1 <= k <= j) by lia.
      assert (Hsplit : (c * pow10 j = c * pow10 (j - k) * pow10 k)%N).
      { rewrite <- N.mul_assoc. rewrite <- pow10_add by lia.
        do 2 f_equal. lia. }
      pose proof (pow10_pos k) as HPk.
      assert (Hmod : ((c * pow10 j) mod pow10 k = 0)%N).
      { rewrite Hsplit. apply N.Div0.mod_mul. }
      assert (Hdiv : ((c * pow10 j) / pow10 k = c * pow10 (j - k))%N).
      { rewrite Hsplit. apply N.div_mul. lia. }
      assert (Hch : _pick_rounding_function context_rounding sign
                      (c * pow10 j) k = 0).
      { unfold context_rounding, _pick_rounding_function, _round_half_even,
          _exact_half, _round_half_up. rewrite Hmod.
        assert (E1 : (2 * 0 =? pow10 k)%N = false) by (apply N.eqb_neq; lia).
        assert (E2 : (pow10 k <=? 2 * 0)%N = false) by (apply N.leb_gt; lia).
        rewrite E1, E2. reflexivity. }
      rewrite Hch, Hdiv. cbn [Z.ltb Z.compare andb].
      assert (H4 : (Etop <? ndigits c + j + e - prec) = false)
        by (apply Z.ltb_ge; lia).
      rewrite H4. exists (j - k). split; [lia|].
      replace (e + j - (j - k)) with (ndigits c + j + e - prec) by lia.
      reflexivity.
    + exists j. split; [lia|]. replace (e + j - j) with e by lia. reflexivity.
Qed.

(** [quantize] on a coefficient that ends in zeros, at the exponent where
    they are all dropped: the value is kept, whatever the rounding. *)
Lemma quantize_exact (sign qs : bool) (c qc : N) (j e : Z) (r : Rounding) :
  c <> 0%N -> ndigits c <= prec -> 0 <= j ->
  Etiny <= e + j <= Emax -> adjusted c (e + j) <= Emax ->
  quantize (Finite sign (c * pow10 j) e) (Finite qs qc (e + j)) r =
  inr (Finite sign c (e + j)).
Proof.
  intros Hc Hnd Hj Hrange Hadj.
  pose proof (pow10_pos j) as HPj.
  assert (HC : (c * pow10 j <> 0)%N) by nia.
  assert (HndC : ndigits (c * pow10 j) = ndigits c + j)
    by (apply ndigits_mul_pow10; lia).
  unfold quantize. cbn [_check_nans].
  assert (Hr : (Etiny <=? e + j) && (e + j <=? Emax) = true).
  { apply andb_true_iff. split; apply Z.leb_le; lia. }
  rewrite Hr. cbn [negb]. apply N.eqb_neq in HC. rewrite HC.
  assert (H1 : (Emax <? adjusted (c * pow10 j) e) = false).
  { apply Z.ltb_ge. unfold adjusted in *. lia. }
  assert (H2 : (prec <? adjusted (c * pow10 j) e - (e + j) + 1) = false).
  { apply Z.ltb_ge. unfold adjusted in *. lia. }
  rewrite H1, H2.
  destruct (_rescale_finite sign (c * pow10 j) e (e + j) r) as [c' Hres].
  rewrite Hres.
  assert (Hc' : c' = c).
  { destruct (_rescale_near _ _ _ _ _ _ Hres) as (_ & _ & Hex).
    replace (Z.min e (e + j)) with e in Hex by lia.
    rewrite Z.sub_diag in Hex. change (pow10 0) with 1%N in Hex.
    rewrite N.mul_1_r in Hex. replace (e + j - e) with j in Hex by lia.
    specialize (Hex (N.Div0.mod_mul c (pow10 j))). nia. }
  subst c'.
  assert (H3 : (Emax <? adjusted c (e + j)) = false) by (apply Z.ltb_ge; lia).
  assert (H4 : (prec <? ndigits c) = false) by (apply Z.ltb_ge; lia).
  rewrite H3, H4. apply _fix_fits; [lia|].
  apply N.eqb_neq in Hc. rewrite Hc. auto.
Qed.

(** The product of an amount and a cleaned [int], quantized again: the
    product of the coefficients, if it fits the precision. *)
Lemma mul_then_quantize (s1 s2 qs : bool) (c n qc : N) (p : Z) (r : Rounding) :
  0 <= p <= - Etiny -> (n * pow10 p < pow10 prec)%N ->
  match mul (Finite s1 c (- p)) (Finite s2 (n * pow10 p) (- p)) with
  | inl sig => (c * n <? pow10 prec)%N = false
  | inr d =>
      quantize d (Finite qs qc (- p)) r =
      if (c * n <? pow10 prec)%N
      then inr (Finite (xorb s1 s2) (c * n) (- p))
      else inl InvalidOperation
  end.
Proof.
  intros Hp Hn.
  destruct context_bounds as (Hprec & Hmax & Htiny & Htop).
  pose proof (pow10_pos p) as HP.
  unfold mul. cbn [_check_nans].
  replace (c * (n * pow10 p))%N with (c * n * pow10 p)%N by lia.
  destruct (N.eq_dec (c * n)%N 0%N) as [Hz|Hz].
  - rewrite Hz. cbn [N.mul]. unfold _fix at 1. cbn [N.eqb].
    assert (H0 : (0 <? pow10 prec)%N = true) by (apply N.ltb_lt, pow10_pos).
    rewrite H0.
    unfold quantize. cbn [_check_nans].
    assert (Hr : (Etiny <=? - p) && (- p <=? Emax) = true).
    { apply andb_true_iff. split; apply Z.leb_le; lia. }
    rewrite Hr. cbn [negb N.eqb]. apply _fix_fits; cbn [N.eqb]; lia.
  - assert (Hn0 : n <> 0%N) by (intros ->; lia).
    assert (Hp28 : p < prec).
    { destruct (Z.lt_ge_cases p prec) as [H|H]; [exact H|].
      pose proof (pow10_le prec p H). nia. }
    destruct (c * n <? pow10 prec)%N eqn:Hfit.
    + apply N.ltb_lt in Hfit.
      assert (Hnd : ndigits (c * n) <= prec)
        by (apply ndigits_le_pow10; [lia|exact Hfit|lia]).
      destruct (_fix_exact (xorb s1 s2) (c * n) p (- p + - p) Hz Hnd
                  ltac:(lia) ltac:(lia) ltac:(lia)) as (j' & Hj' & ->).
      assert (Hadj : adjusted (c * n) (- p + - p + p - j' + j') <= Emax)
        by (unfold adjusted; lia).
      pose proof (quantize_exact (xorb s1 s2) qs (c * n) qc j'
                    (- p + - p + p - j') r Hz Hnd ltac:(lia) ltac:(lia) Hadj)
        as Hq.
      replace (- p + - p + p - j' + j') with (- p) in Hq by lia. exact Hq.
    + apply N.ltb_ge in Hfit.
      pose proof (ndigits_ge_pow10 _ _ Hfit) as Hbig.
      assert (HC : (c * n * pow10 p <> 0)%N) by nia.
      assert (HndC : ndigits (c * n * pow10 p) = ndigits (c * n) + p)
        by (apply ndigits_mul_pow10; lia).
      destruct (_fix (Finite (xorb s1 s2) (c * n * pow10 p) (- p + - p)))
        as [sig|d] eqn:Hfix; [reflexivity|].
      assert (Hlo : Etiny <= - p + - p) by lia.
      destruct (_fix_exp_lower _ _ _ _ Hlo HC Hfix)
        as (c' & e' & -> & [[-> ->]|(He & Hlow & Hc')]).
      * apply quantize_too_large; [exact HC|]. lia.
      * pose proof (ndigits_ge_pow10 _ _ Hc') as Hnd'.
        apply quantize_too_large; [|lia].
        pose proof (pow10_pos (prec - 1)). lia.
Qed.

(** [Money.__eq__] on two objects of the heap, evaluated. *)
Lemma Money_eq_eval (h : Heap) (a b : ref) (oa ob : Money) :
  moneys h !! a = Some oa -> moneys h !! b = Some ob ->
  Money_eq a (VMoney b) h =
  (match eq (amount oa) (amount ob) with
   | inl sig => inl (DecimalException sig)
   | inr same_amount =>
       inr (if same_amount then Currency_eq (currency oa) (currency ob)
            else false)
   end, h).
Proof.
  intros Ha Hb. unfold Money_eq.
  rewrite (bind_inr _ _ h h oa (get_money_Some _ _ _ Ha)).
  rewrite (bind_inr _ _ h h ob (get_money_Some _ _ _ Hb)).
  destruct (eq (amount oa) (amount ob)) as [sig|[]]; reflexivity.
Qed.

(** [a * n] for an [int] [n], evaluated on an amount of the exponent of
    the quantizer. *)
Lemma Money_mul_int_exact (dp : CurrenciesProvider) (h : Heap) (a : ref)
    (oa : Money) (s : bool) (c : N) (n : Z) :
  moneys h !! a = Some oa ->
  amount oa =
    Finite s c
      (- get_decimal_places (_provider (currency oa)) (isocode (currency oa))) ->
  0 <= get_decimal_places (_provider (currency oa)) (isocode (currency oa))
    <= - Etiny ->
  (Z.abs_N n *
     pow10 (get_decimal_places (_provider (currency oa)) (isocode (currency oa)))
   < pow10 prec)%N ->
  if (c * Z.abs_N n <? pow10 prec)%N
  then
    Money_mul dp a (VInt n) h =
    (inr (length (moneys h)),
     result_heap h (currency oa)
       (Finite (xorb s (n <? 0)) (c * Z.abs_N n)
          (- get_decimal_places (_provider (currency oa))
               (isocode (currency oa))))
       MULTIPLICATION [oa]
       [OMoney (S (S (length (moneys h))));
        ODecimal
          (Finite (n <? 0)
             (Z.abs_N n *
                pow10 (get_decimal_places (_provider (currency oa))
                         (isocode (currency oa))))
             (- get_decimal_places (_provider (currency oa))
                  (isocode (currency oa))))])
  else raises_decimal (Money_mul dp a (VInt n)) h.
Proof.
  intros Ha Hx Hp Hn. unfold raises_decimal.
  rewrite (Money_mul_eval dp h a oa (VInt n) Ha eq_refl).
  rewrite (clean_amount_int_pad (currency oa) n h Hp).
  assert (Hn' := Hn). apply N.ltb_lt in Hn'. rewrite Hn'. cbn [fst].
  rewrite Hx.
  assert (Hqa : forall v,
            quantize_amount (currency oa) v None =
            quantize v
              (Finite false 1
                 (- get_decimal_places (_provider (currency oa))
                      (isocode (currency oa))))
              (get_rounding (_provider (currency oa)) (isocode (currency oa)))).
  { intros v. unfold quantize_amount.
    rewrite (_get_quantizer_places _ Hp). reflexivity. }
  generalize dependent (get_decimal_places (_provider (currency oa))
                          (isocode (currency oa))).
  intros p Hx Hp Hn Hn' Hqa.
  pose proof (fun qs qc r =>
                mul_then_quantize s (n <? 0) qs c (Z.abs_N n) qc p r Hp Hn)
    as Hmq.
  destruct (mul (Finite s c (- p)) (Finite (n <? 0) (Z.abs_N n * pow10 p) (- p)))
    as [sig|d] eqn:Hmul.
  - rewrite (Hmq false 0%N ROUND_UP). exists sig. reflexivity.
  - rewrite (new_result_money_decimal dp h d _ _ _ a oa Ha).
    rewrite Hqa, Hmq.
    destruct (c * Z.abs_N n <? pow10 prec)%N; [reflexivity|].
    exists InvalidOperation. reflexivity.
Qed.

Lemma quantized_to_places (c : Currency) (s : bool) (k : N) (e : Z) :
  0 <= get_decimal_places (_provider c) (isocode c) <= - Etiny ->
  quantized_to c (Finite s k e) ->
  e = - get_decimal_places (_provider c) (isocode c).
Proof.
  intros Hp. unfold quantized_to. rewrite (_get_quantizer_places c Hp). auto.
Qed.

(** *** Equality *)

Lemma _cmp_zero_sym (x y : Decimal) : (_cmp x y =? 0) = (_cmp y x =? 0).
Proof.
  destruct x as [s1 c1 e1|s1|s1 g1 d1], y as [s2 c2 e2|s2|s2 g2 d2];
    try (destruct s1; reflexivity); try (destruct s2; reflexivity);
    try (destruct s1, s2; reflexivity).
  unfold _cmp.
  destruct (c1 =? 0)%N, (c2 =? 0)%N; try reflexivity;
    try (destruct s1; reflexivity); try (destruct s2; reflexivity).
  destruct s1, s2; cbn [negb andb]; try reflexivity;
    rewrite (Z.eqb_sym (adjusted c2 e2) (adjusted c1 e1));
    rewrite (N.eqb_sym (c2 * pow10 (e2 - e1)) (c1 * pow10 (e1 - e2)));
    destruct (adjusted c1 e1 =? adjusted c2 e2);
    repeat match goal with
           | |- context [if ?b then _ else _] => destruct b
           end; reflexivity.
Qed.

Lemma eq_sym_decimal (x y : Decimal) : eq x y = eq y x.
Proof.
  unfold eq. rewrite (orb_comm (is_snan y)), (orb_comm (is_nan y)).
  rewrite (_cmp_zero_sym y x). reflexivity.
Qed.

(** *** Text that is no number *)

Lemma lstrip_keep (xs : list ascii) (a : ascii) (ys : list ascii) :
  is_space a = false ->
  exists l, lstrip (xs ++ a :: ys) = l ++ a :: ys.
Proof.
  intros Ha. induction xs as [|x xs IH]; simpl.
  - rewrite Ha. exists []. reflexivity.
  - destruct (is_space x).
    + exact IH.
    + exists (x :: xs). reflexivity.
Qed.

(** [strip] keeps a first character that is no space. *)
Lemma strip_head (a : ascii) (rest : list ascii) :
  is_space a = false -> exists rest', strip (a :: rest) = a :: rest'.
Proof.
  intros Ha. unfold strip. simpl lstrip. rewrite Ha. simpl rev.
  destruct (lstrip_keep (rev rest) a [] Ha) as [l Hl]. rewrite Hl.
  rewrite rev_app_distr. simpl. exists (rev l). reflexivity.
Qed.

(** [strip] keeps two first characters that are no spaces. *)
Lemma strip_head2 (a b : ascii) (rest : list ascii) :
  is_space a = false -> is_space b = false ->
  exists rest', strip (a :: b :: rest) = a :: b :: rest'.
Proof.
  intros Ha Hb. unfold strip. simpl lstrip. rewrite Ha. simpl rev.
  rewrite <- app_assoc. simpl app.
  destruct (lstrip_keep (rev rest) b [a] Hb) as [l Hl]. rewrite Hl.
  rewrite rev_app_distr. simpl. exists (rev l). reflexivity.
Qed.

(** No text that begins with a dollar sign, after a minus sign or not, is
    the text of a number. *)
Lemma of_chars_dollar (negative : bool) (rest : list ascii) :
  of_chars (sign_chars negative ++ "$"%char :: rest) = None.
Proof.
  unfold of_chars. destruct negative; cbn [sign_chars app].
  - destruct (strip_head2 "-" "$" rest eq_refl eq_refl) as [rest' ->].
    cbn [List.filter].
    change (negb (is_underscore "-")) with true.
    change (negb (is_underscore "$")) with true. cbv iota. cbn [take_sign].
    rewrite parse_number_no_digit by (reflexivity || discriminate).
    reflexivity.
  - destruct (strip_head "$" rest eq_refl) as [rest' ->].
    cbn [List.filter].
    change (negb (is_underscore "$")) with true. cbv iota. cbn [take_sign].
    rewrite parse_number_no_digit by (reflexivity || discriminate).
    reflexivity.
Qed.

(** What the default provider writes is the text of no number. *)
Lemma default_format_is_no_number (code : string) (d : Decimal) (text : string) :
  DefaultCurrenciesProvider_format_amount code d = inr text ->
  of_string text = None.
Proof.
  unfold DefaultCurrenciesProvider_format_amount.
  destruct (lt d (of_int 0)) as [sig|negative]; [discriminate|].
  destruct (abs d) as [sig|d']; [discriminate|].
  intros H. injection H as <-. unfold of_string, chars.
  destruct negative; cbn [String.append list_ascii_of_string
                           DefaultCurrenciesProvider_get_symbol].
  - apply (of_chars_dollar true).
  - apply (of_chars_dollar false).
Qed.

(** [Money.clean_amount] of a [Money] of the default provider. *)
Lemma clean_amount_money (h : Heap) (b : ref) (ob : Money) (c : Currency) :
  moneys h !! b = Some ob ->
  _provider (currency ob) = DefaultCurrenciesProvider ->
  clean_amount (VMoney b) c h = (inl (InvalidAmount (VMoney b)), h).
Proof.
  intros Hb Hp. unfold clean_amount. cbn [py_str].
  rewrite (formatted_eval h b ob Hb). unfold format_amount_as_is. rewrite Hp.
  cbn [format_amount DefaultCurrenciesProvider].
  destruct (DefaultCurrenciesProvider_format_amount (isocode (currency ob))
              (amount ob)) as [sig|text] eqn:Hf.
  - reflexivity.
  - cbn [lift_signal]. rewrite (default_format_is_no_number _ _ _ Hf).
    reflexivity.
Qed.

Lemma Money_mul_refuses (dp : CurrenciesProvider) (h : Heap) (a : ref)
    (v : PyValue) :
  is_Number v = false -> Money_mul dp a v h = (inl (InvalidOperand v), h).
Proof. intros Hv. unfold Money_mul. rewrite Hv. reflexivity. Qed.

(** *** The text of an operation *)

(** [repr] of a [Money] reads its currency and its amount, and nothing
    else of the heap. *)
Lemma Money_repr_attributes (h h' : Heap) (m m' : ref) (o o' : Money) :
  moneys h !! m = Some o -> moneys h' !! m' = Some o' ->
  currency o' = currency o -> amount o' = amount o ->
  fst (Money_repr m' h') = fst (Money_repr m h).
Proof.
  intros Hm Hm' Hc Hx.
  rewrite (Money_repr_eval h m o Hm), (Money_repr_eval h' m' o' Hm').
  rewrite Hc, Hx. reflexivity.
Qed.

Lemma Money_repr_heap (m : ref) (h : Heap) : snd (Money_repr m h) = h.
Proof.
  destruct (moneys h !! m) as [o|] eqn:Hm.
  - rewrite (Money_repr_eval h m o Hm). reflexivity.
  - unfold Money_repr. rewrite (bind_inl _ _ _ _ _ (get_money_None h m Hm)).
    reflexivity.
Qed.

Lemma Money_repr_returns (m : ref) (h : Heap) (text : string) :
  fst (Money_repr m h) = inr text -> Money_repr m h = (inr text, h).
Proof.
  intros H. rewrite (surjective_pairing (Money_repr m h)).
  rewrite H, Money_repr_heap. reflexivity.
Qed.

Lemma MoneyOperation_repr_two (h : Heap) (op : MoneyOperator) (s1 s2 : ref)
    (t1 t2 : string) :
  fst (Money_repr s1 h) = inr t1 -> fst (Money_repr s2 h) = inr t2 ->
  MoneyOperation_repr {| operator := op; operands := [OMoney s1; OMoney s2] |} h =
  (inr ("(" ++ MoneyOperator_value op ++ " " ++ join " " [t1; t2] ++ ")")%string,
   h).
Proof.
  intros H1 H2. unfold MoneyOperation_repr. cbn [operands operator Operands_repr].
  unfold Operand_repr.
  rewrite (bind_inr _ _ h h [t1; t2]); [reflexivity|].
  rewrite (bind_inr _ _ h h t1 (Money_repr_returns _ _ _ H1)).
  rewrite (bind_inr _ _ h h [t2]); [reflexivity|].
  rewrite (bind_inr _ _ h h t2 (Money_repr_returns _ _ _ H2)).
  reflexivity.
Qed.

Lemma MoneyOperation_repr_money_decimal (h : Heap) (op : MoneyOperator)
    (s1 : ref) (d : Decimal) (t1 : string) :
  fst (Money_repr s1 h) = inr t1 ->
  MoneyOperation_repr {| operator := op; operands := [OMoney s1; ODecimal d] |} h =
  (inr ("(" ++ MoneyOperator_value op ++ " " ++
        join " " [t1; Decimal_repr d] ++ ")")%string, h).
Proof.
  intros H1. unfold MoneyOperation_repr. cbn [operands operator Operands_repr].
  unfold Operand_repr.
  rewrite (bind_inr _ _ h h [t1; Decimal_repr d]); [reflexivity|].
  rewrite (bind_inr _ _ h h t1 (Money_repr_returns _ _ _ H1)).
  reflexivity.
Qed.

Lemma MoneyOperation_repr_one (h : Heap) (op : MoneyOperator) (s1 : ref)
    (t1 : string) :
  fst (Money_repr s1 h) = inr t1 ->
  MoneyOperation_repr {| operator := op; operands := [OMoney s1] |} h =
  (inr ("(" ++ MoneyOperator_value op ++ " " ++ join " " [t1] ++ ")")%string, h).
Proof.
  intros H1. unfold MoneyOperation_repr. cbn [operands operator Operands_repr].
  unfold Operand_repr.
  rewrite (bind_inr _ _ h h [t1]); [reflexivity|].
  rewrite (bind_inr _ _ h h t1 (Money_repr_returns _ _ _ H1)).
  reflexivity.
Qed.

Lemma result_heap_lookup_snapshot (h : Heap) (c : Currency) (q : Decimal)
    (op : MoneyOperator) (copies : list Money) (recorded : list Operand) :
  moneys (result_heap h c q op copies recorded) !! S (length (moneys h)) =
  Some {| currency := c; amount := q; operations := None |}.
Proof.
  unfold result_heap. cbn [moneys]. rewrite lookup_app_r by lia.
  replace (S (length (moneys h)) - length (moneys h))%nat with 1%nat by lia.
  reflexivity.
Qed.

Lemma result_heap_prints_init (h : Heap) (c : Currency) (q : Decimal)
    (op : MoneyOperator) (copies : list Money) (recorded : list Operand)
    (text : string) :
  fst (Money_repr (length (moneys h)) (result_heap h c q op copies recorded)) =
    inr text ->
  MoneyOperation_repr (init_operation (S (length (moneys h))))
    (result_heap h c q op copies recorded) =
  (inr ("(init " ++ text ++ ")")%string, result_heap h c q op copies recorded).
Proof.
  intros H.
  apply (MoneyOperation_repr_one _ INITIALIZATION (S (length (moneys h))) text).
  rewrite <- H.
  apply (Money_repr_attributes _ _ _ _ _ _
           (result_heap_lookup_new h c q op copies recorded)
           (result_heap_lookup_snapshot h c q op copies recorded));
    reflexivity.
Qed.

Lemma Money_repr_in_heap (m : ref) (h : Heap) (text : string) :
  fst (Money_repr m h) = inr text -> exists o, moneys h !! m = Some o.
Proof.
  intros H. destruct (moneys h !! m) as [o|] eqn:Hm; [eauto|].
  unfold Money_repr in H.
  rewrite (bind_inl _ _ _ _ _ (get_money_None h m Hm)) in H. discriminate.
Qed.

Lemma result_heap_prints_two (h : Heap) (c : Currency) (q : Decimal)
    (op : MoneyOperator) (a b : ref) (oa ob : Money) (ta tb : string) :
  moneys h !! a = Some oa -> moneys h !! b = Some ob ->
  fst (Money_repr a h) = inr ta -> fst (Money_repr b h) = inr tb ->
  prints
    (result_heap h c q op [oa; ob]
       [OMoney (S (S (length (moneys h))));
        OMoney (S (S (S (length (moneys h)))))])
    (length (moneys h)) op [ta; tb].
Proof.
  intros Ha Hb Hta Htb.
  destruct (result_heap_records_two h c q op oa ob) as (H1 & [_ H2] & [_ H3]).
  eexists _, _. split; [exact H1|]. split.
  - apply MoneyOperation_repr_two.
    + rewrite <- Hta.
      apply (Money_repr_attributes _ _ _ _ _ _ Ha H2); reflexivity.
    + rewrite <- Htb.
      apply (Money_repr_attributes _ _ _ _ _ _ Hb H3); reflexivity.
  - apply result_heap_prints_init.
Qed.

Lemma result_heap_prints_money_decimal (h : Heap) (c : Currency)
    (q k : Decimal) (op : MoneyOperator) (a : ref) (oa : Money) (ta : string) :
  moneys h !! a = Some oa ->
  fst (Money_repr a h) = inr ta ->
  prints
    (result_heap h c q op [oa]
       [OMoney (S (S (length (moneys h)))); ODecimal k])
    (length (moneys h)) op [ta; Decimal_repr k].
Proof.
  intros Ha Hta.
  destruct (result_heap_records_one h c q k op oa) as (H1 & [_ H2]).
  eexists _, _. split; [exact H1|]. split.
  - apply MoneyOperation_repr_money_decimal.
    rewrite <- Hta.
    apply (Money_repr_attributes _ _ _ _ _ _ Ha H2); reflexivity.
  - apply result_heap_prints_init.
Qed.

(** [a + b] and [a - b] on two amounts of the exponent of the quantizer:
    the exact sum or difference, or an exception of [decimal]. *)
Lemma Money_add_sub_exact (dp : CurrenciesProvider)
    (h : Heap) (a b : ref) (oa ob : Money) (sa sb : bool) (ca cb : N) (e : Z) :
  moneys h !! a = Some oa -> moneys h !! b = Some ob ->
  Currency_eq (currency ob) (currency oa) = true ->
  amount oa = Finite sa ca e -> amount ob = Finite sb cb e ->
  quantized_to (currency oa) (amount oa) -> e <= 0 ->
  (exists s c,
     signed s c = signed sa ca + signed sb cb /\
     if (c <? pow10 prec)%N
     then returns_money (Money_add dp a (VMoney b)) h (currency oa)
            (Finite s c e)
     else raises_decimal (Money_add dp a (VMoney b)) h) /\
  (exists s c,
     signed s c = signed sa ca - signed sb cb /\
     if (c <? pow10 prec)%N
     then returns_money (Money_sub dp a (VMoney b)) h (currency oa)
            (Finite s c e)
     else raises_decimal (Money_sub dp a (VMoney b)) h).
Proof.
  intros Ha Hb Heq Hxa Hxb Hq He. rewrite Hxa in Hq.
  destruct (quantized_to_inv _ _ _ _ Hq) as (qc & Hquant & Hrange).
  split.
  - destruct (add_same_exp_exact sa sb ca cb e) as (s & c & Hadd & Hz).
    exists s, c. split; [exact Hz|].
    pose proof (new_result_exact dp h (currency oa) ADDITION a b oa ob s c qc e
                  Ha Hb Hquant Hrange He) as H.
    cbv zeta in H. unfold returns_money, raises_decimal in *.
    rewrite (Money_add_money_eval dp h a b oa ob Ha Hb Heq), Hxa, Hxb, Hadd.
    destruct (_fix (Finite s c e)); exact H.
  - destruct (sub_same_exp_exact sa sb ca cb e) as (s & c & Hsub & Hz).
    exists s, c. split; [exact Hz|].
    pose proof (new_result_exact dp h (currency oa) SUBSTRACTION a b oa ob s c
                  qc e Ha Hb Hquant Hrange He) as H.
    cbv zeta in H. unfold returns_money, raises_decimal in *.
    rewrite (Money_sub_money_eval dp h a b oa ob Ha Hb Heq), Hxa, Hxb, Hsub.
    destruct (_fix (Finite s c e)); exact H.
Qed.

(** *** Sums undone *)

Lemma signed_inj (s1 s2 : bool) (c1 c2 : N) :
  signed s1 c1 = signed s2 c2 ->
  c1 = c2 /\ (c1 = 0%N \/ s1 = s2).
Proof. unfold signed. destruct s1, s2; intros H; split; try lia; auto; left; lia. Qed.

(** Two finite values of one exponent and one signed coefficient are
    equal. *)
Lemma eq_signed (s1 s2 : bool) (c1 c2 : N) (e : Z) :
  signed s1 c1 = signed s2 c2 ->
  eq (Finite s1 c1 e) (Finite s2 c2 e) = inr true.
Proof.
  intros H. destruct (signed_inj _ _ _ _ H) as [<- [->|<-]].
  - reflexivity.
  - apply eq_refl_not_nan. reflexivity.
Qed.

Lemma quantized_to_exp (c : Currency) (s1 s2 : bool) (k1 k2 : N) (e : Z) :
  quantized_to c (Finite s1 k1 e) -> quantized_to c (Finite s2 k2 e).
Proof. unfold quantized_to. auto. Qed.

(** An operator that has returned has raised nothing. *)
Lemma returned_not_raised (F : M ref) (h h' : Heap) (r : ref) :
  F h = (inr r, h') -> ~ raises_decimal F h.
Proof. intros H [sig Hs]. rewrite H in Hs. discriminate. Qed.

Lemma returns_money_inv (F : M ref) (h h' : Heap) (r : ref) (c : Currency)
    (d : Decimal) :
  F h = (inr r, h') -> returns_money F h c d ->
  exists l,
    moneys h' !! r = Some {| currency := c; amount := d; operations := Some l |}.
Proof.
  intros H (r' & h'' & l & Hr & Hl). rewrite H in Hr.
  injection Hr as <- <-. eauto.
Qed.

(** [(a + b) - b == a] and [(a - b) + b == a], by the exact sums. *)
Lemma add_then_sub (dp : CurrenciesProvider) (h h1 : Heap) (a b r : ref)
    (oa ob : Money) (sa sb : bool) (ca cb : N) (e : Z) (plus : bool) :
  moneys h !! a = Some oa -> moneys h !! b = Some ob ->
  Currency_eq (currency ob) (currency oa) = true ->
  amount oa = Finite sa ca e -> amount ob = Finite sb cb e ->
  quantized_to (currency oa) (amount oa) -> e <= 0 ->
  (ca < pow10 prec)%N ->
  (if plus then Money_add dp a (VMoney b) h
   else Money_sub dp a (VMoney b) h) = (inr r, h1) ->
  exists r2 h2,
    (if plus then Money_sub dp r (VMoney b) h1
     else Money_add dp r (VMoney b) h1) = (inr r2, h2) /\
    Money_eq r2 (VMoney a) h2 = (inr true, h2).
Proof.
  intros Ha Hb Heq Hxa Hxb Hq He Hca H.
  assert (Hext1 : extends h h1).
  { destruct plus.
    - pose proof (Money_add_extends dp a (VMoney b) h) as E.
      rewrite H in E. exact E.
    - pose proof (Money_sub_extends dp a (VMoney b) h) as E.
      rewrite H in E. exact E. }
  destruct (extends_lookup h h1 Hext1) as (Hold1 & _ & _).
  assert (H1 : exists s c l,
            signed s c =
              (if plus then signed sa ca + signed sb cb
               else signed sa ca - signed sb cb) /\
            moneys h1 !! r =
              Some {| currency := currency oa; amount := Finite s c e;
                      operations := Some l |}).
  { destruct (Money_add_sub_exact dp h a b oa ob sa sb ca cb e
                Ha Hb Heq Hxa Hxb Hq He) as [Hadd Hsub].
    destruct plus.
    - destruct Hadd as (s & c & Hz & Hout).
      destruct (c <? pow10 prec)%N;
        [|exfalso; exact (returned_not_raised _ _ _ _ H Hout)].
      destruct (returns_money_inv _ _ _ _ _ _ H Hout) as [l Hl]. eauto.
    - destruct Hsub as (s & c & Hz & Hout).
      destruct (c <? pow10 prec)%N;
        [|exfalso; exact (returned_not_raised _ _ _ _ H Hout)].
      destruct (returns_money_inv _ _ _ _ _ _ H Hout) as [l Hl]. eauto. }
  destruct H1 as (s & c & l & Hz & Hr).
  rewrite Hxa in Hq.
  destruct (Money_add_sub_exact dp h1 r b _ ob s sb c cb e
              Hr (Hold1 _ _ Hb) Heq eq_refl Hxb
              (quantized_to_exp _ _ _ _ _ _ Hq) He) as [Hadd Hsub].
  cbn [currency] in Hadd, Hsub.
  assert (Hback : exists s' c',
            signed s' c' = signed sa ca /\
            returns_money
              (if plus then Money_sub dp r (VMoney b)
               else Money_add dp r (VMoney b)) h1 (currency oa)
              (Finite s' c' e)).
  { destruct plus.
    - destruct Hsub as (s' & c' & Hz' & Hout).
      assert (Hs : signed s' c' = signed sa ca) by lia.
      destruct (signed_inj _ _ _ _ Hs) as [-> _].
      apply N.ltb_lt in Hca. rewrite Hca in Hout. eauto.
    - destruct Hadd as (s' & c' & Hz' & Hout).
      assert (Hs : signed s' c' = signed sa ca) by lia.
      destruct (signed_inj _ _ _ _ Hs) as [-> _].
      apply N.ltb_lt in Hca. rewrite Hca in Hout. eauto. }
  destruct Hback as (s' & c' & Hs & (r2 & h2 & l2 & Hret & Hr2)).
  assert (Hret' : (if plus then Money_sub dp r (VMoney b) h1
                   else Money_add dp r (VMoney b) h1) = (inr r2, h2))
    by (destruct plus; exact Hret).
  clear Hret. exists r2, h2. split; [exact Hret'|].
  assert (Hext2 : extends h1 h2).
  { destruct plus.
    - pose proof (Money_sub_extends dp r (VMoney b) h1) as E.
      rewrite Hret' in E. exact E.
    - pose proof (Money_add_extends dp r (VMoney b) h1) as E.
      rewrite Hret' in E. exact E. }
  destruct (extends_lookup h1 h2 Hext2) as (Hold2 & _ & _).
  rewrite (Money_eq_eval h2 r2 a _ oa Hr2 (Hold2 _ _ (Hold1 _ _ Ha))).
  cbn [amount currency]. rewrite Hxa, (eq_signed _ _ _ _ e Hs).
  rewrite Currency_eq_refl. reflexivity.
Qed.

(** *** The in-place operators, with the heap they leave *)

Lemma rebound_heap_changed_in_place (h : Heap) (a l : ref) (oa ob : Money)
    (ops : list MoneyOperation) (op : MoneyOperator) (s : Decimal) :
  moneys h !! a = Some oa -> operations oa = Some l -> lists h !! l = Some ops ->
  changed_in_place h (rebound_heap (recorded_heap h l ops op oa ob) a s oa)
    a l oa ob ops op s.
Proof.
  intros Ha Hl Hops.
  destruct (rebound_heap_lookup h l ops op oa ob a s Ha Hl Hops) as [H1 H2].
  pose proof (lookup_lt_Some _ _ _ Ha) as Hlt.
  split; [exact H1|]. split; [|split].
  - intros m o Hm Ho. unfold rebound_heap, recorded_heap. cbn [moneys].
    rewrite list_lookup_insert_ne by congruence.
    apply lookup_app_l_Some. exact Ho.
  - intros l' ops' Hl' Ho. unfold rebound_heap, recorded_heap. cbn [lists].
    rewrite list_lookup_insert_ne by congruence. exact Ho.
  - exists (length (moneys h)), (S (length (moneys h))).
    split; [exact H2|]. split; (split; [lia|]);
      unfold rebound_heap, recorded_heap; cbn [moneys];
      rewrite list_lookup_insert_ne by lia;
      rewrite lookup_app_r by lia.
    + rewrite Nat.sub_diag. reflexivity.
    + replace (S (length (moneys h)) - length (moneys h))%nat with 1%nat by lia.
      reflexivity.
Qed.

(** *** The constructor *)



End MoreFacts.

Module Laws.
Import PyDecimal PyDecimalFacts PyDecimalStrings PyDecimalArith.
Import Monon MononFacts MononInv.
Import MoreFacts.





(** X3.  [Currency.quantize_amount] on a finite amount, whatever rounding
    the provider answers or the caller forces: the result has the sign of
    the amount and the exponent of the quantizer, its magnitude differs from
    that of the amount by less than one unit of that exponent, and an amount
    that is a whole number of such units keeps its value.  Magnitudes are
    counted in units of the smaller of the two exponents. *)
Theorem quantization_moves_less_than_one_unit (c : Currency)
    (force_rounding : option Rounding) (sign : bool) (coeff : N) (exp : Z)
    (q : Decimal) :
  quantize_amount c (Finite sign coeff exp) force_rounding = inr q ->
  exists qc qe coeff',
    _get_quantizer c = inr (Finite false qc qe) /\
    q = Finite sign coeff' qe /\
    (coeff' * pow10 (qe - Z.min exp qe)
       < coeff * pow10 (exp - Z.min exp qe) + pow10 (qe - Z.min exp qe) /\
     coeff * pow10 (exp - Z.min exp qe)
       < coeff' * pow10 (qe - Z.min exp qe) + pow10 (qe - Z.min exp qe) /\
     ((coeff * pow10 (exp - Z.min exp qe)) mod pow10 (qe - Z.min exp qe) = 0 ->
      coeff' * pow10 (qe - Z.min exp qe) = coeff * pow10 (exp - Z.min exp qe)))%N.
Proof.
  intros H.
  destruct (quantize_amount_finite_inv _ _ _ _ _ _ H)
    as (qc & qe & coeff' & Hq & _ & -> & Hr & _).
  exists qc, qe, coeff'. split; [exact Hq|]. split; [reflexivity|].
  exact (_rescale_near _ _ _ _ _ _ Hr).
Qed.

Lemma quantization_moves_less_than_one_unit_witness :
  exists qc qe coeff',
    _get_quantizer USD = inr (Finite false qc qe) /\
    Finite true 420 (-2) = Finite true coeff' qe /\
    (coeff' * pow10 (qe - Z.min (-3) qe)
       < 4195 * pow10 (-3 - Z.min (-3) qe) + pow10 (qe - Z.min (-3) qe) /\
     4195 * pow10 (-3 - Z.min (-3) qe)
       < coeff' * pow10 (qe - Z.min (-3) qe) + pow10 (qe - Z.min (-3) qe) /\
     ((4195 * pow10 (-3 - Z.min (-3) qe)) mod pow10 (qe - Z.min (-3) qe) = 0 ->
      coeff' * pow10 (qe - Z.min (-3) qe) = 4195 * pow10 (-3 - Z.min (-3) qe)))%N.
Proof.
  apply (quantization_moves_less_than_one_unit USD (Some ROUND_HALF_EVEN)
           true 4195 (-3)).
  vm_compute. reflexivity.
Defined.

(** X4.  The rounding forced on [Currency.quantize_amount] decides the
    direction.  With [v] the magnitude of the amount and [u] the unit of the
    result: [ROUND_DOWN] never gives a larger magnitude and [ROUND_UP] never
    a smaller one; the three half modes give a nearest multiple of the
    unit, [ROUND_HALF_UP] taking a tie away from zero, [ROUND_HALF_DOWN]
    toward zero and [ROUND_HALF_EVEN] to the even coefficient;
    [ROUND_CEILING] never gives a smaller value and [ROUND_FLOOR] never a
    larger one, the sign counted in. *)
Theorem forced_rounding_decides_the_direction (c : Currency) (r : Rounding)
    (sign : bool) (coeff : N) (exp : Z) (coeff' : N) (qe : Z) :
  quantize_amount c (Finite sign coeff exp) (Some r) =
    inr (Finite sign coeff' qe) ->
  let v := (coeff * pow10 (exp - Z.min exp qe))%N in
  let u := pow10 (qe - Z.min exp qe) in
  match r with
  | ROUND_DOWN => (coeff' * u <= v)%N
  | ROUND_UP => (v <= coeff' * u)%N
  | ROUND_HALF_UP =>
      (2 * (coeff' * u) <= 2 * v + u /\ 2 * v < 2 * (coeff' * u) + u)%N
  | ROUND_HALF_DOWN =>
      (2 * (coeff' * u) < 2 * v + u /\ 2 * v <= 2 * (coeff' * u) + u)%N
  | ROUND_HALF_EVEN =>
      (2 * (coeff' * u) <= 2 * v + u /\ 2 * v <= 2 * (coeff' * u) + u)%N /\
      ((2 * (coeff' * u) = 2 * v + u \/ 2 * v = 2 * (coeff' * u) + u)%N ->
       N.even coeff' = true)
  | ROUND_CEILING => if sign then (coeff' * u <= v)%N else (v <= coeff' * u)%N
  | ROUND_FLOOR => if sign then (v <= coeff' * u)%N else (coeff' * u <= v)%N
  | ROUND_05UP => True
  end.
Proof.
  intros H.
  destruct (quantize_amount_finite_inv _ _ _ _ _ _ H)
    as (qc & qe' & c'' & Hq & _ & Heq & Hr & _).
  injection Heq as -> ->.
  exact (_rescale_direction _ _ _ _ _ _ Hr).
Qed.

Lemma forced_rounding_decides_the_direction_witness :
  (2 * (420 * pow10 (-2 - Z.min (-3) (-2)))
     <= 2 * (4195 * pow10 (-3 - Z.min (-3) (-2))) + pow10 (-2 - Z.min (-3) (-2)) /\
   2 * (4195 * pow10 (-3 - Z.min (-3) (-2)))
     <= 2 * (420 * pow10 (-2 - Z.min (-3) (-2))) + pow10 (-2 - Z.min (-3) (-2)))%N /\
  ((2 * (420 * pow10 (-2 - Z.min (-3) (-2)))
      = 2 * (4195 * pow10 (-3 - Z.min (-3) (-2))) + pow10 (-2 - Z.min (-3) (-2)) \/
    2 * (4195 * pow10 (-3 - Z.min (-3) (-2)))
      = 2 * (420 * pow10 (-2 - Z.min (-3) (-2))) + pow10 (-2 - Z.min (-3) (-2)))%N ->
   N.even 420 = true).
Proof.
  apply (forced_rounding_decides_the_direction USD ROUND_HALF_EVEN true 4195 (-3)
           420 (-2)).
  vm_compute. reflexivity.
Defined.



(** X6.  What [Currency.quantize_amount] returns is an amount it leaves as
    it is, whatever the rounding of the second call; so an amount that
    [Money.clean_amount] has returned for a currency is returned unchanged
    when it is cleaned again for that currency. *)
Theorem clean_amount_is_idempotent (c : Currency) :
  (forall d q r r',
     quantize_amount c d r = inr q -> quantize_amount c q r' = inr q) /\
  (forall v a h h',
     fst (clean_amount v c h) = inr a ->
     clean_amount (VDecimal a) c h' = (inr a, h')).
Proof.
  split.
  - intros d q r r'. apply quantize_amount_idem.
  - intros v a h h' H.
    destruct (Claims.clean_amount_inv v c h a H) as [d Hd].
    rewrite clean_amount_Decimal.
    rewrite (quantize_amount_idem c d a None None Hd). reflexivity.
Qed.

Lemma clean_amount_is_idempotent_witness :
  clean_amount (VDecimal (Finite false 124 (-2))) USD empty_heap =
  (inr (Finite false 124 (-2)), empty_heap).
Proof.
  apply (proj2 (clean_amount_is_idempotent USD) (VStr "1.231") _ empty_heap).
  vm_compute. reflexivity.
Defined.

(** X7.  [Currency.format_amount] quantizes and then formats; on an amount
    that [quantize_amount] has returned it is [format_amount_as_is], and
    the text of an amount is the text of its quantization. *)
Theorem format_amount_of_quantized_amount (c : Currency) (d q : Decimal)
    (r : option Rounding) :
  quantize_amount c d r = inr q ->
  Currency_format_amount c q = format_amount_as_is c q /\
  (r = None -> Currency_format_amount c d = format_amount_as_is c q).
Proof.
  intros H. split.
  - unfold Currency_format_amount.
    rewrite (quantize_amount_idem c d q r None H). reflexivity.
  - intros ->. unfold Currency_format_amount. rewrite H. reflexivity.
Qed.

Lemma format_amount_of_quantized_amount_witness :
  Currency_format_amount USD (Finite false 124 (-2)) =
    format_amount_as_is USD (Finite false 124 (-2)) /\
  (@None Rounding = None ->
   Currency_format_amount USD (Finite false 1231 (-3)) =
     format_amount_as_is USD (Finite false 124 (-2))).
Proof.
  apply (format_amount_of_quantized_amount USD (Finite false 1231 (-3))).
  vm_compute. reflexivity.
Defined.

(** X8.  [str] and [repr] of a [Money] of the default provider whose
    amount is a finite one that [quantize_amount] has returned: the amount
    has two decimal places, [str] is a minus sign for a negative amount
    that is not zero, the dollar sign, the whole part, the point and two
    digits, never with an exponent, and [repr] is the currency code before
    that. *)
Theorem default_text_is_sign_symbol_and_two_places (h : Heap) (m : ref)
    (o : Money) (d : Decimal) (sign : bool) (k : N) (e : Z) :
  moneys h !! m = Some o ->
  _provider (currency o) = DefaultCurrenciesProvider ->
  quantize_amount (currency o) d None = inr (amount o) ->
  amount o = Finite sign k e ->
  e = -2 /\
  Money_str m h =
    (inr ((if sign && negb (k =? 0)%N then "-" else "") ++ "$" ++
          string_of_list_ascii
            (digits (k / 100) ++
             ["."%char; digit_char ((k / 10) mod 10); digit_char (k mod 10)])),
     h)%string /\
  Money_repr m h =
    (inr (isocode (currency o) ++
          (if sign && negb (k =? 0)%N then "-" else "") ++ "$" ++
          string_of_list_ascii
            (digits (k / 100) ++
             ["."%char; digit_char ((k / 10) mod 10); digit_char (k mod 10)])),
     h)%string.
Proof.
  intros Hm Hp Hq Ha.
  assert (He : e = -2 /\ (k <> 0%N -> ndigits k <= prec)).
  { rewrite Ha in Hq. destruct d as [s c x|s|s g diag].
    - destruct (quantize_amount_finite_inv _ _ _ _ _ _ Hq)
        as (qc & qe & c' & Hquant & _ & Heq & _ & Hfit).
      injection Heq as -> -> ->.
      unfold _get_quantizer in Hquant. rewrite Hp in Hquant.
      cbn in Hquant. injection Hquant as <- <-.
      split; [reflexivity|]. intros Hk. apply (Hfit Hk).
    - unfold quantize_amount in Hq.
      destruct (_get_quantizer (currency o)) as [sig|quantizer] eqn:Hquant;
        [discriminate|].
      destruct (_get_quantizer_inv _ _ Hquant) as (qc & qe & -> & _).
      rewrite quantize_inf in Hq. discriminate.
    - exfalso.
      assert (Hn : is_nan (Finite sign k e) = true).
      { unfold quantize_amount in Hq.
        destruct (_get_quantizer (currency o)) as [sig|quantizer] eqn:Hquant;
          [discriminate|].
        destruct (_get_quantizer_inv _ _ Hquant) as (qc & qe & -> & _).
        destruct g; [rewrite quantize_snan in Hq; discriminate|].
        rewrite quantize_nan in Hq.
        destruct (_fix_nan_is_nan s diag) as [diag' Hn]. rewrite Hn in Hq.
        discriminate. }
      discriminate. }
  destruct He as [-> Hfit]. split; [reflexivity|].
  unfold Money_str. rewrite (formatted_eval h m o Hm), (Money_repr_eval h m o Hm).
  unfold format_amount_as_is. rewrite Hp, Ha.
  cbn [format_amount DefaultCurrenciesProvider].
  rewrite (default_format_two_places _ sign k Hfit). split; reflexivity.
Qed.

Lemma default_text_is_sign_symbol_and_two_places_witness :
  -2 = -2 /\
  Money_str 0%nat usd_eur_heap = (inr "$1.00"%string, usd_eur_heap) /\
  Money_repr 0%nat usd_eur_heap = (inr "USD$1.00"%string, usd_eur_heap).
Proof.
  apply (default_text_is_sign_symbol_and_two_places usd_eur_heap 0%nat
           {| currency := USD; amount := Finite false 100 (-2);
              operations := Some 0%nat |} (Finite false 1 0) false 100 (-2));
    reflexivity.
Defined.

(** X9.  A [Money] of the default provider whose amount is a NaN has no
    text: [str], [repr] and [formatted] raise [decimal.InvalidOperation],
    since the provider compares the amount with zero. *)
Theorem text_of_nan_amount_raises (h : Heap) (m : ref) (o : Money) :
  moneys h !! m = Some o ->
  _provider (currency o) = DefaultCurrenciesProvider ->
  is_nan (amount o) = true ->
  formatted m h = (inl (DecimalException InvalidOperation), h) /\
  Money_str m h = (inl (DecimalException InvalidOperation), h) /\
  Money_repr m h = (inl (DecimalException InvalidOperation), h).
Proof.
  intros Hm Hp Hn.
  unfold Money_str. rewrite (formatted_eval h m o Hm), (Money_repr_eval h m o Hm).
  unfold format_amount_as_is. rewrite Hp.
  cbn [format_amount DefaultCurrenciesProvider].
  rewrite (default_format_nan _ _ Hn). repeat split.
Qed.

Lemma text_of_nan_amount_raises_witness :
  formatted 0%nat
    (snd (Money_init DefaultCurrenciesProvider (VStr "NaN") (AStr "USD")
            empty_heap)) =
  (inl (DecimalException InvalidOperation),
   snd (Money_init DefaultCurrenciesProvider (VStr "NaN") (AStr "USD")
          empty_heap)).
Proof.
  apply (text_of_nan_amount_raises
           (snd (Money_init DefaultCurrenciesProvider (VStr "NaN") (AStr "USD")
                   empty_heap)) 0%nat
           {| currency := USD; amount := NaN false false 0;
              operations := Some 0%nat |}); reflexivity.
Defined.

(** X10.  The constructor and the operators that return a new object
    ([+], [-], [*], [/], unary [-] and the reflected ones) change nothing
    that exists: whether they return or raise, the heap afterwards is the
    heap before with new objects and new lists after it, so every [Money]
    has the currency, the amount and the operation log it had. *)
Theorem returning_operators_change_no_object (dp : CurrenciesProvider)
    (h : Heap) (a : ref) (v : PyValue) (carg : CurrencyArg) :
  extends h (snd (Money_init dp v carg h)) /\
  extends h (snd (Money_add dp a v h)) /\
  extends h (snd (Money_radd dp a v h)) /\
  extends h (snd (Money_sub dp a v h)) /\
  extends h (snd (Money_rsub dp a v h)) /\
  extends h (snd (Money_mul dp a v h)) /\
  extends h (snd (Money_rmul dp a v h)) /\
  extends h (snd (Money_truediv dp a v h)) /\
  extends h (snd (Money_neg dp a h)) /\
  (forall h',
     extends h h' ->
     (forall m o, moneys h !! m = Some o -> moneys h' !! m = Some o) /\
     (forall m ops, log_of h m = Some ops -> log_of h' m = Some ops)).
Proof.
  split; [apply Money_init_extends|].
  split; [apply Money_add_extends|].
  split; [apply Money_add_extends|].
  split; [apply Money_sub_extends|].
  split; [apply Money_rsub_extends|].
  split; [apply Money_mul_extends|].
  split; [apply Money_mul_extends|].
  split; [apply Money_truediv_extends|].
  split; [apply Money_mul_extends|].
  intros h' He. destruct (extends_lookup h h' He) as (H1 & _ & H3). auto.
Qed.

Lemma returning_operators_change_no_object_witness :
  (forall m o,
     moneys usd_eur_heap !! m = Some o ->
     moneys (snd (Money_add DefaultCurrenciesProvider 0%nat (VInt 1)
                    usd_eur_heap)) !! m = Some o) /\
  (forall m ops,
     log_of usd_eur_heap m = Some ops ->
     log_of (snd (Money_add DefaultCurrenciesProvider 0%nat (VInt 1)
                    usd_eur_heap)) m = Some ops).
Proof.
  apply (returning_operators_change_no_object DefaultCurrenciesProvider
           usd_eur_heap 0%nat (VInt 1) AObject).
  apply (returning_operators_change_no_object DefaultCurrenciesProvider
           usd_eur_heap 0%nat (VInt 1) AObject).
Defined.

(** X11.  What the operators record.  Where [a + v] or [a - v] returns
    [r], the log of [r] is its [__init__] and one operation of that
    operator whose operands are two new objects, in this order: one with
    the attributes of [a] and one with those of the cleaned operand, as
    they are at the call.  Where [a * v] or [a / v] returns, the operands
    are a new object with the attributes of [a] and the cleaned
    [Decimal]. *)
Theorem operators_record_copies_of_their_operands (dp : CurrenciesProvider)
    (h h' : Heap) (a r : ref) (v : PyValue) :
  (Money_add dp a v h = (inr r, h') ->
   records_two_moneys dp h h' a v r ADDITION) /\
  (Money_sub dp a v h = (inr r, h') ->
   records_two_moneys dp h h' a v r SUBSTRACTION) /\
  (Money_mul dp a v h = (inr r, h') ->
   records_money_and_decimal h h' a v r MULTIPLICATION) /\
  (Money_truediv dp a v h = (inr r, h') ->
   records_money_and_decimal h h' a v r DIVISION).
Proof.
  split; [|split; [|split]]; intros H.
  - destruct (Money_add_returns dp h h' a r v H)
      as (oa & ob & b & h1 & s & q & Hco & Ha & Hb & _ & _ & -> & ->).
    destruct (result_heap_records_two h1 (currency oa) q ADDITION oa ob)
      as (H1 & H2 & H3).
    exists b, h1, oa, ob, (S (S (length (moneys h1)))),
      (S (S (S (length (moneys h1))))).
    exact (conj Hco (conj Ha (conj Hb (conj H1
             (conj (Nat.neq_succ_diag_r _) (conj H2 H3)))))).
  - destruct (Money_sub_returns dp h h' a r v H)
      as (oa & ob & b & h1 & s & q & Hco & Ha & Hb & _ & _ & -> & ->).
    destruct (result_heap_records_two h1 (currency oa) q SUBSTRACTION oa ob)
      as (H1 & H2 & H3).
    exists b, h1, oa, ob, (S (S (length (moneys h1)))),
      (S (S (S (length (moneys h1))))).
    exact (conj Hco (conj Ha (conj Hb (conj H1
             (conj (Nat.neq_succ_diag_r _) (conj H2 H3)))))).
  - destruct (Money_mul_returns dp h h' a r v H)
      as (oa & k & p & q & _ & Ha & Hk & _ & _ & -> & ->).
    destruct (result_heap_records_one h (currency oa) q k MULTIPLICATION oa)
      as (H1 & H2).
    exists oa, k, (S (S (length (moneys h)))).
    exact (conj Ha (conj Hk (conj H1 H2))).
  - destruct (Money_truediv_returns dp h h' a r v H)
      as (oa & k & p & q & Ha & Hk & _ & _ & -> & ->).
    destruct (result_heap_records_one h (currency oa) q k DIVISION oa)
      as (H1 & H2).
    exists oa, k, (S (S (length (moneys h)))).
    exact (conj Ha (conj Hk (conj H1 H2))).
Qed.

Lemma operators_record_copies_of_their_operands_witness :
  records_two_moneys DefaultCurrenciesProvider usd_eur_heap
    (snd (Money_add DefaultCurrenciesProvider 0%nat (VInt 1) usd_eur_heap))
    0%nat (VInt 1) 6%nat ADDITION.
Proof.
  apply (proj1 (operators_record_copies_of_their_operands
                  DefaultCurrenciesProvider usd_eur_heap
                  (snd (Money_add DefaultCurrenciesProvider 0%nat (VInt 1)
                          usd_eur_heap)) 0%nat 6%nat (VInt 1))).
  apply Claims.surjective_outcome. vm_compute. reflexivity.
Defined.

(** X12.  The copy of itself that [Money.__init__] records is taken before
    the attribute [operations] is set: the recorded object has the
    currency and the amount of the new [Money] and no [operations].
    Reading its [operations] raises [AttributeError], and so do [+=] and
    [-=] on it, before anything is recorded. *)
Theorem init_snapshot_has_no_operations (dp : CurrenciesProvider)
    (v : PyValue) (carg : CurrencyArg) (h h' : Heap) (r : ref) :
  Money_init dp v carg h = (inr r, h') ->
  exists c a l,
    moneys h' !! r =
      Some {| currency := c; amount := a; operations := Some l |} /\
    lists h' !! l = Some [init_operation (S r)] /\
    moneys h' !! S r =
      Some {| currency := c; amount := a; operations := None |} /\
    Money_operations (S r) h' = (inl AttributeError, h') /\
    (forall b ob,
       moneys h' !! b = Some ob -> Currency_eq (currency ob) c = true ->
       Money_iadd dp (S r) (VMoney b) h' = (inl AttributeError, h') /\
       Money_isub dp (S r) (VMoney b) h' = (inl AttributeError, h')).
Proof.
  intros H.
  destruct (Money_init_inv dp v carg h h' r H) as (c & a & _ & _ & -> & ->).
  pose proof (init_heap_lookup_snapshot h c a) as Hs.
  exists c, a, (length (lists h)).
  split; [apply init_heap_lookup_new|].
  split; [apply init_heap_lookup_log|].
  split; [exact Hs|].
  split.
  - unfold Money_operations.
    rewrite (bind_inr _ _ _ _ _ (get_money_Some _ _ _ Hs)). reflexivity.
  - intros b ob Hb Heq. split.
    + unfold Money_iadd.
      rewrite (bind_inr _ _ _ _ b
                 (_clean_operand_money dp _ _ b _ ob Hs Hb Heq)).
      apply bind_inl. apply (_add_operation_no_log _ _ _ _ _ Hs). reflexivity.
    + unfold Money_isub.
      rewrite (bind_inr _ _ _ _ b
                 (_clean_operand_money dp _ _ b _ ob Hs Hb Heq)).
      apply bind_inl. apply (_add_operation_no_log _ _ _ _ _ Hs). reflexivity.
Qed.

Lemma init_snapshot_has_no_operations_witness :
  exists c a l,
    moneys usd_eur_heap !! 2%nat =
      Some {| currency := c; amount := a; operations := Some l |} /\
    lists usd_eur_heap !! l = Some [init_operation 3%nat] /\
    moneys usd_eur_heap !! 3%nat =
      Some {| currency := c; amount := a; operations := None |} /\
    Money_operations 3%nat usd_eur_heap = (inl AttributeError, usd_eur_heap) /\
    (forall b ob,
       moneys usd_eur_heap !! b = Some ob ->
       Currency_eq (currency ob) c = true ->
       Money_iadd DefaultCurrenciesProvider 3%nat (VMoney b) usd_eur_heap =
         (inl AttributeError, usd_eur_heap) /\
       Money_isub DefaultCurrenciesProvider 3%nat (VMoney b) usd_eur_heap =
         (inl AttributeError, usd_eur_heap)).
Proof.
  apply (init_snapshot_has_no_operations DefaultCurrenciesProvider (VInt 1)
           (AStr "EUR")
           (snd (Money_init DefaultCurrenciesProvider (VInt 1) (AStr "USD")
                   empty_heap))).
  reflexivity.
Defined.

(** X13.  The in-place operators and the returning ones agree on the
    amount.  For two [Money] of one currency code whose amounts are each a
    NaN or of the exponent of the receiver's quantizer, and a receiver that
    has its log: where [a + b] returns, [a += b] returns [a] with the
    amount of [a + b] and the currency it had; and so for [a - b] and
    [a -= b]. *)
Theorem in_place_operators_agree_with_returning_ones
    (dp : CurrenciesProvider) (h h1 : Heap) (a b r l : ref) (oa ob : Money)
    (ops : list MoneyOperation) :
  moneys h !! a = Some oa -> moneys h !! b = Some ob ->
  is_nan (amount oa) = true \/ quantized_to (currency oa) (amount oa) ->
  is_nan (amount ob) = true \/ quantized_to (currency oa) (amount ob) ->
  operations oa = Some l -> lists h !! l = Some ops ->
  (Money_add dp a (VMoney b) h = (inr r, h1) ->
   exists h2 o1 o2,
     Money_iadd dp a (VMoney b) h = (inr a, h2) /\
     moneys h1 !! r = Some o1 /\ moneys h2 !! a = Some o2 /\
     amount o2 = amount o1 /\ currency o2 = currency o1) /\
  (Money_sub dp a (VMoney b) h = (inr r, h1) ->
   exists h2 o1 o2,
     Money_isub dp a (VMoney b) h = (inr a, h2) /\
     moneys h1 !! r = Some o1 /\ moneys h2 !! a = Some o2 /\
     amount o2 = amount o1 /\ currency o2 = currency o1).
Proof.
  intros Ha Hb Hqa Hqb Hl Hops. split; intros H.
  - destruct (Money_add_returns dp h h1 a r (VMoney b) H)
      as (oa' & ob' & b' & h' & s & q & Hco & Ha' & Hb' & Hs & Hq & -> & ->).
    destruct (_clean_operand_inv dp h h' a b' (VMoney b) Hco)
      as (oa'' & Ha'' & [[Hn _]|(ob'' & Hv & -> & Hb'' & Heq)]);
      [discriminate|].
    injection Hv as Hv. subst b'.
    pose proof (eq_trans (eq_sym Ha') Ha) as E. injection E as ->.
    pose proof (eq_trans (eq_sym Hb') Hb) as E. injection E as ->.
    pose proof (eq_trans (eq_sym Ha'') Ha) as E. injection E as ->.
    pose proof (eq_trans (eq_sym Hb'') Hb) as E. injection E as ->.
    assert (Hqs : q = s)
      by exact (quantize_amount_of_clean _ _ _ _ _ Hqa Hqb (or_introl Hs) Hq).
    subst q.
    rewrite (Money_iadd_money_eval dp h a b l oa ob ops Ha Hb Heq Hl Hops), Hs.
    destruct (rebound_heap_lookup h l ops ADDITION oa ob a s Ha Hl Hops)
      as [Hn _].
    eexists _, _, _. split; [reflexivity|].
    split; [apply result_heap_lookup_new|].
    split; [exact Hn|]. split; reflexivity.
  - destruct (Money_sub_returns dp h h1 a r (VMoney b) H)
      as (oa' & ob' & b' & h' & s & q & Hco & Ha' & Hb' & Hs & Hq & -> & ->).
    destruct (_clean_operand_inv dp h h' a b' (VMoney b) Hco)
      as (oa'' & Ha'' & [[Hn _]|(ob'' & Hv & -> & Hb'' & Heq)]);
      [discriminate|].
    injection Hv as Hv. subst b'.
    pose proof (eq_trans (eq_sym Ha') Ha) as E. injection E as ->.
    pose proof (eq_trans (eq_sym Hb') Hb) as E. injection E as ->.
    pose proof (eq_trans (eq_sym Ha'') Ha) as E. injection E as ->.
    pose proof (eq_trans (eq_sym Hb'') Hb) as E. injection E as ->.
    assert (Hqs : q = s)
      by exact (quantize_amount_of_clean _ _ _ _ _ Hqa Hqb (or_intror Hs) Hq).
    subst q.
    rewrite (Money_isub_money_eval dp h a b l oa ob ops Ha Hb Heq Hl Hops), Hs.
    destruct (rebound_heap_lookup h l ops SUBSTRACTION oa ob a s Ha Hl Hops)
      as [Hn _].
    eexists _, _, _. split; [reflexivity|].
    split; [apply result_heap_lookup_new|].
    split; [exact Hn|]. split; reflexivity.
Qed.

Lemma in_place_operators_agree_with_returning_ones_witness :
  exists h2 o1 o2,
    Money_iadd DefaultCurrenciesProvider 0%nat (VMoney 4%nat)
      (snd (Money_init DefaultCurrenciesProvider (VInt 2) (AStr "USD")
              usd_eur_heap)) = (inr 0%nat, h2) /\
    moneys (snd (Money_add DefaultCurrenciesProvider 0%nat (VMoney 4%nat)
                   (snd (Money_init DefaultCurrenciesProvider (VInt 2)
                           (AStr "USD") usd_eur_heap)))) !! 6%nat = Some o1 /\
    moneys h2 !! 0%nat = Some o2 /\
    amount o2 = amount o1 /\ currency o2 = currency o1.
Proof.
  apply (proj1 (in_place_operators_agree_with_returning_ones
                  DefaultCurrenciesProvider
                  (snd (Money_init DefaultCurrenciesProvider (VInt 2)
                          (AStr "USD") usd_eur_heap))
                  (snd (Money_add DefaultCurrenciesProvider 0%nat (VMoney 4%nat)
                          (snd (Money_init DefaultCurrenciesProvider (VInt 2)
                                  (AStr "USD") usd_eur_heap))))
                  0%nat 4%nat 6%nat 0%nat
                  {| currency := USD; amount := Finite false 100 (-2);
                     operations := Some 0%nat |}
                  {| currency := USD; amount := Finite false 200 (-2);
                     operations := Some 2%nat |}
                  [init_operation 1%nat]
                  eq_refl eq_refl (or_intror eq_refl) (or_intror eq_refl)
                  eq_refl eq_refl)).
  apply Claims.surjective_outcome. vm_compute. reflexivity.
Defined.

(** X14.  A number as the operand of [+], [-], [+=] and [-=] is first made
    a [Money] of the receiver's currency by the constructor, and the
    operator then goes on as for that [Money]: [a + 5] is
    [a + Money(5, a.currency)], with the exceptions of the constructor
    where it raises. *)
Theorem number_operand_is_promoted_to_money (dp : CurrenciesProvider)
    (h : Heap) (a : ref) (oa : Money) (v : PyValue) :
  moneys h !! a = Some oa -> is_Number v = true ->
  Money_add dp a v h =
    (do promoted <- Money_init dp v (ACurrency (currency oa));
     Money_add dp a (VMoney promoted)) h /\
  Money_sub dp a v h =
    (do promoted <- Money_init dp v (ACurrency (currency oa));
     Money_sub dp a (VMoney promoted)) h /\
  Money_iadd dp a v h =
    (do promoted <- Money_init dp v (ACurrency (currency oa));
     Money_iadd dp a (VMoney promoted)) h /\
  Money_isub dp a v h =
    (do promoted <- Money_init dp v (ACurrency (currency oa));
     Money_isub dp a (VMoney promoted)) h.
Proof.
  intros Ha Hv. repeat split;
    exact (_clean_operand_promote dp h a oa v _ Ha Hv).
Qed.

Lemma number_operand_is_promoted_to_money_witness :
  Money_add DefaultCurrenciesProvider 0%nat (VInt 5) usd_eur_heap =
  (do promoted <- Money_init DefaultCurrenciesProvider (VInt 5) (ACurrency USD);
   Money_add DefaultCurrenciesProvider 0%nat (VMoney promoted)) usd_eur_heap.
Proof.
  apply (number_operand_is_promoted_to_money DefaultCurrenciesProvider
           usd_eur_heap 0%nat
           {| currency := USD; amount := Finite false 100 (-2);
              operations := Some 0%nat |} (VInt 5)); reflexivity.
Defined.

(** X15.  [+] and [-] are exact.  For two [Money] of one currency code
    whose amounts are finite and have the exponent of the receiver's
    quantizer (no positive one): the sum of the coefficients, each with its
    sign, is the coefficient with its sign of the amount of [a + b], at
    the same exponent; and [a + b] raises an exception of [decimal],
    leaving the heap as it was, exactly when that sum has more than 28
    digits.  Likewise [a - b] with the difference. *)
Theorem addition_and_subtraction_are_exact (dp : CurrenciesProvider)
    (h : Heap) (a b : ref) (oa ob : Money) (sa sb : bool) (ca cb : N) (e : Z) :
  moneys h !! a = Some oa -> moneys h !! b = Some ob ->
  Currency_eq (currency ob) (currency oa) = true ->
  amount oa = Finite sa ca e -> amount ob = Finite sb cb e ->
  quantized_to (currency oa) (amount oa) -> e <= 0 ->
  (exists s c,
     signed s c = signed sa ca + signed sb cb /\
     if (c <? pow10 prec)%N
     then returns_money (Money_add dp a (VMoney b)) h (currency oa)
            (Finite s c e)
     else raises_decimal (Money_add dp a (VMoney b)) h) /\
  (exists s c,
     signed s c = signed sa ca - signed sb cb /\
     if (c <? pow10 prec)%N
     then returns_money (Money_sub dp a (VMoney b)) h (currency oa)
            (Finite s c e)
     else raises_decimal (Money_sub dp a (VMoney b)) h).
Proof. exact (Money_add_sub_exact dp h a b oa ob sa sb ca cb e). Qed.

Lemma addition_and_subtraction_are_exact_witness :
  exists s c,
    signed s c = signed false 100 - signed false 200 /\
    if (c <? pow10 prec)%N
    then returns_money (Money_sub DefaultCurrenciesProvider 0%nat (VMoney 4%nat))
           (snd (Money_init DefaultCurrenciesProvider (VInt 2) (AStr "USD")
                   usd_eur_heap)) USD (Finite s c (-2))
    else raises_decimal (Money_sub DefaultCurrenciesProvider 0%nat (VMoney 4%nat))
           (snd (Money_init DefaultCurrenciesProvider (VInt 2) (AStr "USD")
                   usd_eur_heap)).
Proof.
  apply (proj2 (addition_and_subtraction_are_exact DefaultCurrenciesProvider
                  (snd (Money_init DefaultCurrenciesProvider (VInt 2)
                          (AStr "USD") usd_eur_heap))
                  0%nat 4%nat
                  {| currency := USD; amount := Finite false 100 (-2);
                     operations := Some 0%nat |}
                  {| currency := USD; amount := Finite false 200 (-2);
                     operations := Some 2%nat |}
                  false false 100 200 (-2)
                  eq_refl eq_refl eq_refl eq_refl eq_refl eq_refl
                  ltac:(lia))).
Defined.

(** X16.  [a * n] and [n * a] for an [int] [n] are exact.  For a [Money]
    whose amount is finite at the exponent of its quantizer, and an [n]
    that [clean_amount] accepts: the amount of the product has the product
    of the two coefficients as its coefficient, the product of the signs as
    its sign ([-0] included) and the same exponent; and the operator raises
    an exception of [decimal], leaving the heap as it was, exactly when
    that coefficient has more than 28 digits. *)
Theorem multiplication_by_an_int_is_exact (dp : CurrenciesProvider)
    (h : Heap) (a : ref) (oa : Money) (s : bool) (c : N) (e n : Z) :
  moneys h !! a = Some oa ->
  amount oa = Finite s c e ->
  quantized_to (currency oa) (amount oa) ->
  0 <= get_decimal_places (_provider (currency oa)) (isocode (currency oa))
    <= - Etiny ->
  (Z.abs_N n *
     pow10 (get_decimal_places (_provider (currency oa)) (isocode (currency oa)))
   < pow10 prec)%N ->
  if (c * Z.abs_N n <? pow10 prec)%N
  then
    returns_money (Money_mul dp a (VInt n)) h (currency oa)
      (Finite (xorb s (n <? 0)) (c * Z.abs_N n) e) /\
    returns_money (Money_rmul dp a (VInt n)) h (currency oa)
      (Finite (xorb s (n <? 0)) (c * Z.abs_N n) e)
  else
    raises_decimal (Money_mul dp a (VInt n)) h /\
    raises_decimal (Money_rmul dp a (VInt n)) h.
Proof.
  intros Ha Hx Hq Hp Hn. rewrite Hx in Hq.
  pose proof (quantized_to_places _ _ _ _ Hp Hq) as He. subst e.
  pose proof (Money_mul_int_exact dp h a oa s c n Ha Hx Hp Hn) as H.
  unfold Money_rmul.
  destruct (c * Z.abs_N n <? pow10 prec)%N; [|split; exact H].
  assert (R : returns_money (Money_mul dp a (VInt n)) h (currency oa)
                (Finite (xorb s (n <? 0)) (c * Z.abs_N n)
                   (- get_decimal_places (_provider (currency oa))
                        (isocode (currency oa))))).
  { eexists _, _, _. split; [exact H|]. apply result_heap_lookup_new. }
  split; exact R.
Qed.

Lemma multiplication_by_an_int_is_exact_witness :
  if (100 * Z.abs_N (-3) <? pow10 prec)%N
  then
    returns_money (Money_mul DefaultCurrenciesProvider 0%nat (VInt (-3)))
      usd_eur_heap USD (Finite (xorb false (-3 <? 0)) (100 * Z.abs_N (-3)) (-2)) /\
    returns_money (Money_rmul DefaultCurrenciesProvider 0%nat (VInt (-3)))
      usd_eur_heap USD (Finite (xorb false (-3 <? 0)) (100 * Z.abs_N (-3)) (-2))
  else
    raises_decimal (Money_mul DefaultCurrenciesProvider 0%nat (VInt (-3)))
      usd_eur_heap /\
    raises_decimal (Money_rmul DefaultCurrenciesProvider 0%nat (VInt (-3)))
      usd_eur_heap.
Proof.
  apply (multiplication_by_an_int_is_exact DefaultCurrenciesProvider
           usd_eur_heap 0%nat
           {| currency := USD; amount := Finite false 100 (-2);
              operations := Some 0%nat |} false 100 (-2) (-3)
           eq_refl eq_refl eq_refl).
  - vm_compute. split; discriminate.
  - vm_compute. reflexivity.
Defined.

(** X17.  Unary [-] flips the sign and keeps the magnitude.  For a
    [Money] whose amount is finite at the exponent of its quantizer and has
    no more than 28 digits, in a currency of fewer than 28 decimal places:
    [-a] returns a [Money] of the same currency whose amount has the same
    coefficient and exponent and the other sign (a zero amount becomes a
    negative zero), and [-(-a) == a]. *)
Theorem negation_flips_the_sign (dp : CurrenciesProvider) (h : Heap)
    (a : ref) (oa : Money) (s : bool) (c : N) (e : Z) :
  moneys h !! a = Some oa ->
  amount oa = Finite s c e ->
  quantized_to (currency oa) (amount oa) ->
  0 <= get_decimal_places (_provider (currency oa)) (isocode (currency oa))
    < prec ->
  (c < pow10 prec)%N ->
  exists r h1 r2 h2 o1 o2,
    Money_neg dp a h = (inr r, h1) /\
    moneys h1 !! r = Some o1 /\
    currency o1 = currency oa /\ amount o1 = Finite (negb s) c e /\
    Money_neg dp r h1 = (inr r2, h2) /\
    moneys h2 !! r2 = Some o2 /\
    currency o2 = currency oa /\ amount o2 = Finite s c e /\
    Money_eq r2 (VMoney a) h2 = (inr true, h2).
Proof.
  intros Ha Hx Hq Hp Hc. rewrite Hx in Hq.
  destruct context_bounds as (Hprec & Hmax & Htiny & Htop).
  assert (Hp' : 0 <= get_decimal_places (_provider (currency oa))
                       (isocode (currency oa)) <= - Etiny) by lia.
  pose proof (quantized_to_places _ _ _ _ Hp' Hq) as He. subst e.
  assert (Hone : (Z.abs_N (-1) *
                    pow10 (get_decimal_places (_provider (currency oa))
                             (isocode (currency oa))) < pow10 prec)%N).
  { change (Z.abs_N (-1)) with 1%N. rewrite N.mul_1_l.
    apply pow10_lt; lia. }
  pose proof (Money_mul_int_exact dp h a oa s c (-1) Ha Hx Hp' Hone) as H1.
  change (Z.abs_N (-1)) with 1%N in H1. rewrite N.mul_1_r in H1.
  change (-1 <? 0) with true in H1. rewrite xorb_true_r in H1.
  apply N.ltb_lt in Hc. rewrite Hc in H1. apply N.ltb_lt in Hc.
  set (p := get_decimal_places (_provider (currency oa)) (isocode (currency oa)))
    in *.
  set (k := Finite true (1 * pow10 p) (- p)) in *.
  set (h1 := result_heap h (currency oa) (Finite (negb s) c (- p))
               MULTIPLICATION [oa]
               [OMoney (S (S (length (moneys h)))); ODecimal k]) in *.
  set (o1 := {| currency := currency oa; amount := Finite (negb s) c (- p);
                operations := Some (length (lists h)) |}).
  assert (Hr : moneys h1 !! length (moneys h) = Some o1)
    by apply result_heap_lookup_new.
  pose proof (Money_mul_int_exact dp h1 (length (moneys h)) o1 (negb s) c (-1)
                Hr eq_refl Hp' Hone) as H2.
  change (Z.abs_N (-1)) with 1%N in H2. rewrite N.mul_1_r in H2.
  change (-1 <? 0) with true in H2. rewrite xorb_true_r, negb_involutive in H2.
  apply N.ltb_lt in Hc. rewrite Hc in H2.
  cbn [currency] in H2. fold p in H2. fold k in H2.
  set (h2 := result_heap h1 (currency oa) (Finite s c (- p))
               MULTIPLICATION [o1]
               [OMoney (S (S (length (moneys h1)))); ODecimal k]) in *.
  set (o2 := {| currency := currency oa; amount := Finite s c (- p);
                operations := Some (length (lists h1)) |}).
  assert (Hr2 : moneys h2 !! length (moneys h1) = Some o2)
    by apply result_heap_lookup_new.
  assert (Ha2 : moneys h2 !! a = Some oa).
  { apply result_heap_lookup_old. apply result_heap_lookup_old. exact Ha. }
  exists (length (moneys h)), h1, (length (moneys h1)), h2, o1, o2.
  split; [exact H1|]. split; [exact Hr|]. split; [reflexivity|].
  split; [reflexivity|]. split; [exact H2|]. split; [exact Hr2|].
  split; [reflexivity|]. split; [reflexivity|].
  rewrite (Money_eq_eval h2 _ a o2 oa Hr2 Ha2). cbn [amount currency o2].
  rewrite Hx. rewrite eq_refl_not_nan by reflexivity.
  rewrite Currency_eq_refl. reflexivity.
Qed.

Lemma negation_flips_the_sign_witness :
  exists r h1 r2 h2 o1 o2,
    Money_neg DefaultCurrenciesProvider 0%nat usd_eur_heap = (inr r, h1) /\
    moneys h1 !! r = Some o1 /\
    currency o1 = USD /\ amount o1 = Finite (negb false) 100 (-2) /\
    Money_neg DefaultCurrenciesProvider r h1 = (inr r2, h2) /\
    moneys h2 !! r2 = Some o2 /\
    currency o2 = USD /\ amount o2 = Finite false 100 (-2) /\
    Money_eq r2 (VMoney 0%nat) h2 = (inr true, h2).
Proof.
  apply (negation_flips_the_sign DefaultCurrenciesProvider usd_eur_heap 0%nat
           {| currency := USD; amount := Finite false 100 (-2);
              operations := Some 0%nat |} false 100 (-2)
           eq_refl eq_refl eq_refl).
  - vm_compute. split; [discriminate|reflexivity].
  - vm_compute. reflexivity.
Defined.

(** X18.  [Money.__eq__] is symmetric: for two [Money], [a == b] and
    [b == a] return the same or raise the same.  It looks at the amounts and
    the currency codes alone, so a [Money] equals itself unless its amount
    is a NaN: with a quiet NaN [a == a] is [False], with a signaling one it
    raises [decimal.InvalidOperation].  Compared with anything that is no
    [Money] it is [False]. *)
Theorem money_equality_is_symmetric (h : Heap) (a b : ref) (oa ob : Money) :
  moneys h !! a = Some oa -> moneys h !! b = Some ob ->
  Money_eq a (VMoney b) h = Money_eq b (VMoney a) h /\
  Money_eq a (VMoney a) h =
    (if is_snan (amount oa) then inl (DecimalException InvalidOperation)
     else inr (negb (is_nan (amount oa))), h) /\
  (forall v, (forall m, v <> VMoney m) -> Money_eq a v h = (inr false, h)).
Proof.
  intros Ha Hb. split; [|split].
  - rewrite (Money_eq_eval h a b oa ob Ha Hb), (Money_eq_eval h b a ob oa Hb Ha).
    rewrite (eq_sym_decimal (amount ob) (amount oa)), (Currency_eq_sym (currency ob)).
    reflexivity.
  - rewrite (Money_eq_eval h a a oa oa Ha Ha).
    destruct (amount oa) as [s c e|s|s [] d] eqn:Hx.
    + rewrite eq_refl_not_nan by reflexivity. rewrite Currency_eq_refl. reflexivity.
    + rewrite eq_refl_not_nan by reflexivity. rewrite Currency_eq_refl. reflexivity.
    + reflexivity.
    + reflexivity.
  - intros v Hv. destruct v; try reflexivity. exfalso. exact (Hv _ eq_refl).
Qed.

Lemma money_equality_is_symmetric_witness :
  Money_eq 0%nat (VMoney 2%nat) usd_eur_heap =
  Money_eq 2%nat (VMoney 0%nat) usd_eur_heap.
Proof.
  apply (proj1 (money_equality_is_symmetric usd_eur_heap 0%nat 2%nat
                  {| currency := USD; amount := Finite false 100 (-2);
                     operations := Some 0%nat |}
                  {| currency := EUR; amount := Finite false 100 (-2);
                     operations := Some 1%nat |} eq_refl eq_refl)).
Defined.

(** X19.  A [Money] is no factor and no divisor.  [a * b] and
    [a.__rmul__(b)] for a [Money] [b] raise [InvalidOperand]; [a / b]
    hands [b] to [clean_amount], whose [str(b)] under the default provider
    begins with the dollar sign (or raises for a NaN amount), so [a / b]
    raises [InvalidAmount], whatever the two amounts and currencies.  The
    heap is as it was. *)
Theorem money_is_no_factor_and_no_divisor (dp : CurrenciesProvider) (h : Heap)
    (a b : ref) (oa ob : Money) :
  moneys h !! a = Some oa -> moneys h !! b = Some ob ->
  _provider (currency ob) = DefaultCurrenciesProvider ->
  Money_mul dp a (VMoney b) h = (inl (InvalidOperand (VMoney b)), h) /\
  Money_rmul dp a (VMoney b) h = (inl (InvalidOperand (VMoney b)), h) /\
  Money_truediv dp a (VMoney b) h = (inl (InvalidAmount (VMoney b)), h).
Proof.
  intros Ha Hb Hp. split; [reflexivity|]. split; [reflexivity|].
  rewrite (Money_truediv_eval dp h a oa (VMoney b) Ha).
  rewrite (clean_amount_money h b ob (currency oa) Hb Hp). reflexivity.
Qed.

Lemma money_is_no_factor_and_no_divisor_witness :
  Money_truediv DefaultCurrenciesProvider 0%nat (VMoney 2%nat) usd_eur_heap =
  (inl (InvalidAmount (VMoney 2%nat)), usd_eur_heap).
Proof.
  apply (proj2 (proj2 (money_is_no_factor_and_no_divisor
                         DefaultCurrenciesProvider usd_eur_heap 0%nat 2%nat
                         {| currency := USD; amount := Finite false 100 (-2);
                            operations := Some 0%nat |}
                         {| currency := EUR; amount := Finite false 100 (-2);
                            operations := Some 1%nat |}
                         eq_refl eq_refl eq_refl))).
Defined.

(** X20.  An operand that is neither a number nor a [Money] (a [str], or
    any other object) makes [+], [-], [+=], [-=], [*] and the reflected
    operators raise [InvalidOperand] with the operand, before anything is
    built or recorded: the heap is as it was. *)
Theorem other_operands_raise_InvalidOperand (dp : CurrenciesProvider)
    (h : Heap) (a : ref) (oa : Money) (v : PyValue) :
  moneys h !! a = Some oa ->
  is_Number v = false -> (forall m, v <> VMoney m) ->
  Money_add dp a v h = (inl (InvalidOperand v), h) /\
  Money_radd dp a v h = (inl (InvalidOperand v), h) /\
  Money_sub dp a v h = (inl (InvalidOperand v), h) /\
  Money_rsub dp a v h = (inl (InvalidOperand v), h) /\
  Money_iadd dp a v h = (inl (InvalidOperand v), h) /\
  Money_isub dp a v h = (inl (InvalidOperand v), h) /\
  Money_mul dp a v h = (inl (InvalidOperand v), h) /\
  Money_rmul dp a v h = (inl (InvalidOperand v), h).
Proof.
  intros Ha Hv Hm.
  pose proof (_clean_operand_other dp h a oa v Ha Hv Hm) as Hco.
  repeat split; try (apply bind_inl; exact Hco);
    apply Money_mul_refuses; exact Hv.
Qed.

Lemma other_operands_raise_InvalidOperand_witness :
  Money_iadd DefaultCurrenciesProvider 0%nat (VStr "5") usd_eur_heap =
  (inl (InvalidOperand (VStr "5")), usd_eur_heap).
Proof.
  apply (other_operands_raise_InvalidOperand DefaultCurrenciesProvider
           usd_eur_heap 0%nat
           {| currency := USD; amount := Finite false 100 (-2);
              operations := Some 0%nat |} (VStr "5") eq_refl eq_refl).
  discriminate.
Defined.

(** X21.  The factor and the divisor are quantized first.  [a * v] and
    [a / v] clean [v] to the decimal places of the currency of [a], with
    the rounding of its provider, before they multiply or divide: they do
    and record what [a * k] and [a / k] do for the cleaned [Decimal] [k],
    so under the default provider a factor [0.075] counts as [0.08]. *)
Theorem factor_is_quantized_before_multiplying (dp : CurrenciesProvider)
    (h : Heap) (a : ref) (oa : Money) (v : PyValue) (k : Decimal) :
  moneys h !! a = Some oa ->
  fst (clean_amount v (currency oa) h) = inr k ->
  (is_Number v = true ->
   Money_mul dp a v h = Money_mul dp a (VDecimal k) h /\
   Money_rmul dp a v h = Money_rmul dp a (VDecimal k) h) /\
  Money_truediv dp a v h = Money_truediv dp a (VDecimal k) h.
Proof.
  intros Ha Hk.
  assert (Hk' : fst (clean_amount (VDecimal k) (currency oa) h) = inr k).
  { destruct (Claims.clean_amount_inv v (currency oa) h k Hk) as [d Hd].
    rewrite clean_amount_Decimal.
    rewrite (quantize_amount_idem _ d k None None Hd). reflexivity. }
  split.
  - intros Hv. unfold Money_rmul.
    rewrite (Money_mul_eval dp h a oa v Ha Hv), Hk.
    rewrite (Money_mul_eval dp h a oa (VDecimal k) Ha eq_refl), Hk'.
    split; reflexivity.
  - rewrite (Money_truediv_eval dp h a oa v Ha), Hk.
    rewrite (Money_truediv_eval dp h a oa (VDecimal k) Ha), Hk'. reflexivity.
Qed.

Lemma factor_is_quantized_before_multiplying_witness :
  Money_truediv DefaultCurrenciesProvider 0%nat
    (VDecimal (Finite false 75 (-3))) usd_eur_heap =
  Money_truediv DefaultCurrenciesProvider 0%nat
    (VDecimal (Finite false 8 (-2))) usd_eur_heap.
Proof.
  apply (factor_is_quantized_before_multiplying DefaultCurrenciesProvider
           usd_eur_heap 0%nat
           {| currency := USD; amount := Finite false 100 (-2);
              operations := Some 0%nat |}
           (VDecimal (Finite false 75 (-3))) (Finite false 8 (-2)) eq_refl).
  vm_compute. reflexivity.
Defined.

(** X22.  The operators never read the default provider.  Each of them
    hands the [Currency] of the receiver to the constructor, which takes a
    [Currency] as it is; so rebinding [Currency._default_provider] with
    [set_default_provider] changes nothing in what an operator does on the
    [Money] that exist, nor in [Money(amount, currency)] for a [Currency].
    It is read by [Currency(code)] without a provider and by
    [Money(amount, code)] alone. *)
Theorem operators_ignore_the_default_provider (dp1 dp2 : CurrenciesProvider)
    (h : Heap) (a : ref) (v : PyValue) (c : Currency)
    (p : CurrenciesProvider) (code : CurrencyArg) :
  Money_init dp1 v (ACurrency c) h = Money_init dp2 v (ACurrency c) h /\
  Money_add dp1 a v h = Money_add dp2 a v h /\
  Money_radd dp1 a v h = Money_radd dp2 a v h /\
  Money_iadd dp1 a v h = Money_iadd dp2 a v h /\
  Money_sub dp1 a v h = Money_sub dp2 a v h /\
  Money_rsub dp1 a v h = Money_rsub dp2 a v h /\
  Money_isub dp1 a v h = Money_isub dp2 a v h /\
  Money_mul dp1 a v h = Money_mul dp2 a v h /\
  Money_rmul dp1 a v h = Money_rmul dp2 a v h /\
  Money_truediv dp1 a v h = Money_truediv dp2 a v h /\
  Money_neg dp1 a h = Money_neg dp2 a h /\
  Currency_init dp1 code (Some p) = Currency_init dp2 code (Some p) /\
  Currency_init dp1 code None = Currency_init dp2 code (Some dp1).
Proof. repeat split. Qed.

(** X23.  The history prints as the expression.  Where [a + b] for a
    [Money] [b] returns [r], [repr] of the operation recorded for [r] is
    ["(+ "], the [repr] of [a], a space, the [repr] of [b] and [")"], with
    the texts of [a] and [b] as they are at the call; likewise ["(- "] for
    [a - b].  For [a * v] and [a / v] the second text is
    [Decimal('...')] of the cleaned operand.  The first operation of [r]
    prints as ["(init "], the [repr] of [r] and [")"]. *)
Theorem history_prints_as_the_expression (dp : CurrenciesProvider)
    (h h' : Heap) (a r : ref) (ta : string) :
  fst (Money_repr a h) = inr ta ->
  (forall b tb,
     fst (Money_repr b h) = inr tb ->
     (Money_add dp a (VMoney b) h = (inr r, h') ->
      prints h' r ADDITION [ta; tb]) /\
     (Money_sub dp a (VMoney b) h = (inr r, h') ->
      prints h' r SUBSTRACTION [ta; tb])) /\
  (forall v,
     (Money_mul dp a v h = (inr r, h') ->
      exists oa k,
        moneys h !! a = Some oa /\
        fst (clean_amount v (currency oa) h) = inr k /\
        prints h' r MULTIPLICATION [ta; Decimal_repr k]) /\
     (Money_truediv dp a v h = (inr r, h') ->
      exists oa k,
        moneys h !! a = Some oa /\
        fst (clean_amount v (currency oa) h) = inr k /\
        prints h' r DIVISION [ta; Decimal_repr k])).
Proof.
  intros Hta. destruct (Money_repr_in_heap a h ta Hta) as [oa Ha].
  split.
  - intros b tb Htb. destruct (Money_repr_in_heap b h tb Htb) as [ob Hb].
    split; intros H.
    + destruct (Money_add_returns dp h h' a r (VMoney b) H)
        as (oa' & ob' & b' & h1 & s & q & Hco & Ha' & Hb' & _ & _ & -> & ->).
      destruct (_clean_operand_inv dp h h1 a b' (VMoney b) Hco)
        as (oa'' & _ & [[Hn _]|(ob'' & Hv & -> & _ & _)]); [discriminate|].
      injection Hv as Hv. subst b'.
      pose proof (eq_trans (eq_sym Ha') Ha) as E. injection E as ->.
      pose proof (eq_trans (eq_sym Hb') Hb) as E. injection E as ->.
      apply (result_heap_prints_two h _ _ _ a b oa ob ta tb Ha Hb Hta Htb).
    + destruct (Money_sub_returns dp h h' a r (VMoney b) H)
        as (oa' & ob' & b' & h1 & s & q & Hco & Ha' & Hb' & _ & _ & -> & ->).
      destruct (_clean_operand_inv dp h h1 a b' (VMoney b) Hco)
        as (oa'' & _ & [[Hn _]|(ob'' & Hv & -> & _ & _)]); [discriminate|].
      injection Hv as Hv. subst b'.
      pose proof (eq_trans (eq_sym Ha') Ha) as E. injection E as ->.
      pose proof (eq_trans (eq_sym Hb') Hb) as E. injection E as ->.
      apply (result_heap_prints_two h _ _ _ a b oa ob ta tb Ha Hb Hta Htb).
  - intros v. split; intros H.
    + destruct (Money_mul_returns dp h h' a r v H)
        as (oa' & k & p & q & _ & Ha' & Hk & _ & _ & -> & ->).
      pose proof (eq_trans (eq_sym Ha') Ha) as E. injection E as ->.
      exists oa, k. split; [exact Ha|]. split; [exact Hk|].
      apply (result_heap_prints_money_decimal h _ _ _ _ a oa ta Ha Hta).
    + destruct (Money_truediv_returns dp h h' a r v H)
        as (oa' & k & p & q & Ha' & Hk & _ & _ & -> & ->).
      pose proof (eq_trans (eq_sym Ha') Ha) as E. injection E as ->.
      exists oa, k. split; [exact Ha|]. split; [exact Hk|].
      apply (result_heap_prints_money_decimal h _ _ _ _ a oa ta Ha Hta).
Qed.

Lemma history_prints_as_the_expression_witness :
  exists oa k,
    moneys usd_eur_heap !! 0%nat = Some oa /\
    fst (clean_amount (VInt 5) (currency oa) usd_eur_heap) = inr k /\
    prints (snd (Money_mul DefaultCurrenciesProvider 0%nat (VInt 5) usd_eur_heap))
      4%nat MULTIPLICATION ["USD$1.00"%string; Decimal_repr k].
Proof.
  apply (proj1 (proj2 (history_prints_as_the_expression
                         DefaultCurrenciesProvider usd_eur_heap
                         (snd (Money_mul DefaultCurrenciesProvider 0%nat
                                 (VInt 5) usd_eur_heap))
                         0%nat 4%nat "USD$1.00" eq_refl) (VInt 5))).
  apply Claims.surjective_outcome. vm_compute. reflexivity.
Defined.

(** X24.  Subtraction undoes addition.  For two [Money] of one currency
    code whose amounts are finite at the exponent of the receiver's
    quantizer, the receiver's of no more than 28 digits: where [a + b]
    returns [r], [r - b] returns, and [(a + b) - b == a] is [True]; and
    where [a - b] returns [r], [r + b] returns, and [(a - b) + b == a] is
    [True]. *)
Theorem subtraction_undoes_addition (dp : CurrenciesProvider) (h h1 : Heap)
    (a b r : ref) (oa ob : Money) (sa sb : bool) (ca cb : N) (e : Z) :
  moneys h !! a = Some oa -> moneys h !! b = Some ob ->
  Currency_eq (currency ob) (currency oa) = true ->
  amount oa = Finite sa ca e -> amount ob = Finite sb cb e ->
  quantized_to (currency oa) (amount oa) -> e <= 0 ->
  (ca < pow10 prec)%N ->
  (Money_add dp a (VMoney b) h = (inr r, h1) ->
   exists r2 h2,
     Money_sub dp r (VMoney b) h1 = (inr r2, h2) /\
     Money_eq r2 (VMoney a) h2 = (inr true, h2)) /\
  (Money_sub dp a (VMoney b) h = (inr r, h1) ->
   exists r2 h2,
     Money_add dp r (VMoney b) h1 = (inr r2, h2) /\
     Money_eq r2 (VMoney a) h2 = (inr true, h2)).
Proof.
  intros Ha Hb Heq Hxa Hxb Hq He Hca. split; intros H.
  - exact (add_then_sub dp h h1 a b r oa ob sa sb ca cb e true
             Ha Hb Heq Hxa Hxb Hq He Hca H).
  - exact (add_then_sub dp h h1 a b r oa ob sa sb ca cb e false
             Ha Hb Heq Hxa Hxb Hq He Hca H).
Qed.

Lemma subtraction_undoes_addition_witness :
  exists r2 h2,
    Money_sub DefaultCurrenciesProvider 6%nat (VMoney 4%nat)
      (snd (Money_add DefaultCurrenciesProvider 0%nat (VMoney 4%nat)
              (snd (Money_init DefaultCurrenciesProvider (VInt 2) (AStr "USD")
                      usd_eur_heap)))) = (inr r2, h2) /\
    Money_eq r2 (VMoney 0%nat) h2 = (inr true, h2).
Proof.
  apply (proj1 (subtraction_undoes_addition DefaultCurrenciesProvider
                  (snd (Money_init DefaultCurrenciesProvider (VInt 2)
                          (AStr "USD") usd_eur_heap))
                  (snd (Money_add DefaultCurrenciesProvider 0%nat (VMoney 4%nat)
                          (snd (Money_init DefaultCurrenciesProvider (VInt 2)
                                  (AStr "USD") usd_eur_heap))))
                  0%nat 4%nat 6%nat
                  {| currency := USD; amount := Finite false 100 (-2);
                     operations := Some 0%nat |}
                  {| currency := USD; amount := Finite false 200 (-2);
                     operations := Some 2%nat |}
                  false false 100 200 (-2)
                  eq_refl eq_refl eq_refl eq_refl eq_refl eq_refl
                  ltac:(lia) ltac:(vm_compute; reflexivity))).
  apply Claims.surjective_outcome. vm_compute. reflexivity.
Defined.

(** X25.  The in-place operators change the receiver alone.  For two
    [Money] of one currency code, where [a += b] returns: it returns [a];
    [a] has the [Decimal] sum as its amount and the currency and the log it
    had; every other object is as it was, and so is every other list; and
    the log of [a] has one more operation, an addition whose operands are
    two new objects, the first with the amount [a] had before the sum.
    Likewise [a -= b] with the difference. *)
Theorem in_place_operators_change_the_receiver_alone
    (dp : CurrenciesProvider) (h h' : Heap) (a b r l : ref) (oa ob : Money)
    (ops : list MoneyOperation) :
  moneys h !! a = Some oa -> moneys h !! b = Some ob ->
  Currency_eq (currency ob) (currency oa) = true ->
  operations oa = Some l -> lists h !! l = Some ops ->
  (Money_iadd dp a (VMoney b) h = (inr r, h') ->
   r = a /\
   exists s, add (amount oa) (amount ob) = inr s /\
             changed_in_place h h' a l oa ob ops ADDITION s) /\
  (Money_isub dp a (VMoney b) h = (inr r, h') ->
   r = a /\
   exists s, sub (amount oa) (amount ob) = inr s /\
             changed_in_place h h' a l oa ob ops SUBSTRACTION s).
Proof.
  intros Ha Hb Heq Hl Hops. split; intros H.
  - rewrite (Money_iadd_money_eval dp h a b l oa ob ops Ha Hb Heq Hl Hops) in H.
    destruct (add (amount oa) (amount ob)) as [sig|s]; [discriminate|].
    injection H as <- <-. split; [reflexivity|]. exists s. split; [reflexivity|].
    apply rebound_heap_changed_in_place; assumption.
  - rewrite (Money_isub_money_eval dp h a b l oa ob ops Ha Hb Heq Hl Hops) in H.
    destruct (sub (amount oa) (amount ob)) as [sig|s]; [discriminate|].
    injection H as <- <-. split; [reflexivity|]. exists s. split; [reflexivity|].
    apply rebound_heap_changed_in_place; assumption.
Qed.

Lemma in_place_operators_change_the_receiver_alone_witness :
  0%nat = 0%nat /\
  exists s,
    add (Finite false 100 (-2)) (Finite false 100 (-2)) = inr s /\
    changed_in_place usd_eur_heap
      (snd (Money_iadd DefaultCurrenciesProvider 0%nat (VMoney 0%nat)
              usd_eur_heap))
      0%nat 0%nat
      {| currency := USD; amount := Finite false 100 (-2);
         operations := Some 0%nat |}
      {| currency := USD; amount := Finite false 100 (-2);
         operations := Some 0%nat |}
      [init_operation 1%nat] ADDITION s.
Proof.
  apply (proj1 (in_place_operators_change_the_receiver_alone
                  DefaultCurrenciesProvider usd_eur_heap
                  (snd (Money_iadd DefaultCurrenciesProvider 0%nat
                          (VMoney 0%nat) usd_eur_heap))
                  0%nat 0%nat 0%nat 0%nat
                  {| currency := USD; amount := Finite false 100 (-2);
                     operations := Some 0%nat |}
                  {| currency := USD; amount := Finite false 100 (-2);
                     operations := Some 0%nat |}
                  [init_operation 1%nat]
                  eq_refl eq_refl eq_refl eq_refl eq_refl)).
  apply Claims.surjective_outcome. vm_compute. reflexivity.
Defined.



End Laws.
